(** * git-push-stack: the reconciliation engine of [git_push_stack/__init__.py]

    A shallow embedding of the planner, the stack builder, the comment
    synchronizer and the pruner, with the properties the design document
    states about them.

    Conventions of the embedding:
    - Python [str] values are [string]s; [s[n:]] is [str_drop n s] and
      [s[-n:]] is [str_last n s];
    - [KnownChangeIDs], a [Dict[ChangeId, Optional[PullRequest]]], is a
      [gmap string (option PullRequest)]: a key mapped to [None] is a stack
      branch without an open pull request;
    - the console, the HTTP client and [sys.exit] are threaded through a
      state-and-error monad [M] over a [World];
    - [httpx.AsyncClient] and the [git] subprocess are interfaces ([Client],
      [Git]): every theorem that does not name an instance holds for all of
      them;
    - the console of the functions of [Section Program] takes every line;
      the module [Rich] has the functions of the plan on the console of
      [rich], which raises [MarkupError] on a line it cannot read;
    - [strip] and [isspace] are Python's on ASCII text: the statements on
      what [git] returns are made for ASCII output. *)

From Stdlib Require Import ZArith Ascii.
From stdpp Require Import base option list gmap strings pretty.

(** ** Strings as Python uses them *)

Module Str.

(** [s[n:]] *)
Fixpoint str_drop (n : nat) (s : string) : string :=
  match n, s with
  | O, _ => s
  | S _, EmptyString => EmptyString
  | S n', String _ s' => str_drop n' s'
  end.

(** [s[-n:]], for [n > 0]: the whole string when it is shorter than [n] *)
Definition str_last (n : nat) (s : string) : string :=
  str_drop (String.length s - n) s.

(** [s.startswith(p)] *)
Definition startswith (s p : string) : bool := String.prefix p s.

(** The line feed that Python writes as a backslash followed by n. *)
Definition nl : string := String "010"%char EmptyString.

(** [str.isspace] on the ASCII range. *)
Definition isspace (c : ascii) : bool :=
  let n := nat_of_ascii c in
  ((9 <=? n)%nat && (n <=? 13)%nat) || ((28 <=? n)%nat && (n <=? 32)%nat).

Fixpoint lstrip (s : string) : string :=
  match s with
  | EmptyString => EmptyString
  | String c s' => if isspace c then lstrip s' else s
  end.

Fixpoint rstrip (s : string) : string :=
  match s with
  | EmptyString => EmptyString
  | String c s' =>
      match rstrip s' with
      | EmptyString => if isspace c then EmptyString else String c EmptyString
      | r => String c r
      end
  end.

(** [s.strip()] *)
Definition strip (s : string) : string := rstrip (lstrip s).

(** [s * n] for a one-character pattern, used to write tokens down. *)
Fixpoint replicate_char (n : nat) (c : ascii) : string :=
  match n with
  | O => EmptyString
  | S n' => String c (replicate_char n' c)
  end.

End Str.
Import Str.

(** ** The trailer pattern

    [CHANGEID_RE = re.compile(r"Change-Id: (I[0-9a-z]{40})")]: the literal
    keyword, then one group made of the letter I and forty characters of the
    class [0-9a-z]. *)

Module ChangeIdRe.

(** The character class [[0-9a-z]]. *)
Definition in_0_9a_z (c : ascii) : bool :=
  let n := nat_of_ascii c in
  ((48 <=? n)%nat && (n <=? 57)%nat) || ((97 <=? n)%nat && (n <=? 122)%nat).

(** [[0-9a-z]{n}] at the start of [s]: the characters consumed. *)
Fixpoint match_class (n : nat) (s : string) : option string :=
  match n with
  | O => Some EmptyString
  | S n' =>
      match s with
      | String c s' =>
          if in_0_9a_z c then String c <$> match_class n' s' else None
      | EmptyString => None
      end
  end.

Definition keyword : string := "Change-Id: ".

(** The pattern tried at the start of [s] (what [CHANGEID_RE.match] does);
    the result is group 1. *)
Definition CHANGEID_RE_match (s : string) : option string :=
  if startswith s keyword then
    match str_drop (String.length keyword) s with
    | String "I"%char rest => String "I"%char <$> match_class 40 rest
    | _ => None
    end
  else None.

(** A match spans the keyword and the 41 characters of the group. *)
Definition match_length : nat := 52.

(** [CHANGEID_RE.findall]: scan from the left; after a match resume right
    behind it. [skip] counts the characters still covered by the last
    match. *)
Fixpoint findall_from (skip : nat) (s : string) : list string :=
  match s with
  | EmptyString => []
  | String _ s' =>
      match skip with
      | S k => findall_from k s'
      | O =>
          match CHANGEID_RE_match s with
          | Some tok => tok :: findall_from (match_length - 1) s'
          | None => findall_from 0 s'
          end
      end
  end.

Definition CHANGEID_RE_findall (s : string) : list string := findall_from 0 s.

(** A character of [[0-9a-z]], by its code. *)
Definition digit_or_lower (c : ascii) : Prop :=
  (48 ≤ nat_of_ascii c ≤ 57)%nat ∨ (97 ≤ nat_of_ascii c ≤ 122)%nat.

(** The shape of an identifier: the letter I, then forty characters that
    are digits or lower-case letters. *)
Definition token_shape (tok : string) : Prop :=
  ∃ t, tok = String "I"%char t ∧ String.length t = 40%nat
       ∧ Forall digit_or_lower (String.list_ascii_of_string t).

Definition is_upper (c : ascii) : Prop := (65 ≤ nat_of_ascii c ≤ 90)%nat.
Definition is_lower_hex (c : ascii) : Prop :=
  (48 ≤ nat_of_ascii c ≤ 57)%nat ∨ (97 ≤ nat_of_ascii c ≤ 102)%nat.

(** The shape the design document gives: a capital letter, then forty
    lower-case hexadecimal characters. *)
Definition documented_shape (tok : string) : Prop :=
  ∃ c t, tok = String c t ∧ is_upper c ∧ String.length t = 40%nat
         ∧ Forall is_lower_hex (String.list_ascii_of_string t).

Definition head_is_C (s : string) : bool :=
  match s with String "C"%char _ => true | _ => false end.

End ChangeIdRe.
Import ChangeIdRe.

(** ** Data model *)

(** [class GitRef(TypedDict)] *)
Record GitRef := { ref : string }.

(** [class HeadRef(TypedDict)] *)
Record HeadRef := { sha : string }.

(** [class PullRequest(TypedDict)]. The number is kept the way the
    f-strings of the source print it. *)
Record PullRequest := {
  html_url : string;
  number : string;
  title : string;
  head : HeadRef;
  state : string
}.

(** An issue comment as the code reads it: [comment["url"]] and
    [comment["body"]]. *)
Record Comment := { comment_url : string; comment_body : string }.

(** [ChangeId = NewType("ChangeId", str)] *)
Abbreviation ChangeId := string (only parsing).

(** [KnownChangeIDs = Dict[ChangeId, Optional[PullRequest]]] *)
Abbreviation KnownChangeIDs := (gmap string (option PullRequest)) (only parsing).

(** [Change = Tuple[ChangeId, str, str, str]]: identifier, commit SHA, title,
    message. *)
Abbreviation Change := (string * string * string * string)%type (only parsing).

Definition change_id (c : Change) : ChangeId := c.1.1.1.
Definition change_commit (c : Change) : string := c.1.1.2.

#[global] Instance HeadRef_eq_dec : EqDecision HeadRef.
Proof. solve_decision. Defined.
#[global] Instance PullRequest_eq_dec : EqDecision PullRequest.
Proof. solve_decision. Defined.
#[global] Instance Comment_eq_dec : EqDecision Comment.
Proof. solve_decision. Defined.

(** ** The outside world *)

Inductive Method := GET | POST | PATCH | DELETE.

#[global] Instance Method_eq_dec : EqDecision Method.
Proof. solve_decision. Defined.

(** What a call of the HTTP client carries besides its URL: the [params],
    [json] or [content] keyword of the call, one constructor per shape that
    occurs in the source. *)
Inductive Payload :=
| NoPayload
| Params (head_param state_param : string)
| JsonRefUpdate (sha : string) (force : bool)
| JsonRefCreate (ref sha : string)
| JsonPullUpdate (title body head base : string)
| JsonPullCreate (title body : string) (draft : bool) (head base : string)
| JsonBody (body : string)
| GraphqlContent (accept content : string).

Record Request := { method : Method; url : string; payload : Payload }.

(** What the code reads from an [httpx.Response]. [r.json()] is read through
    the view the call site casts it to. *)
Record Response := {
  status_code : Z;
  request_url : string;              (* response.request.url *)
  request_content : string;          (* response.request.content.decode() *)
  json_message : string;             (* response.json()["message"] *)
  json_errors : option (list string);(* response.json()["errors"], each entry as printed *)
  json_pull : PullRequest;
  json_pulls : list PullRequest;
  json_comments : list Comment
}.

(** [httpx.AsyncClient]: a remote state and its reaction to a request. *)
Class Client := {
  remote_state : Type;
  send : remote_state → Request → remote_state * Response
}.

(** The [git] subprocess: return code and decoded standard output of the
    shell command. *)
Class Git := { git_proc : string → Z * string }.

(** A line on the [rich] console. The style is empty when the call gives
    none. *)
Inductive Output :=
| Print (text style : string)
| Log (text style : string)
| Status (text : string).

(** How a run stops early. *)
Inductive Abort :=
| SystemExit (code : Z)
| HTTPStatusError
| RuntimeError (msg : string)
| KeyError (key : string).

(** A request that is not a read. *)
Definition is_mutation (rq : Request) : bool :=
  match method rq with GET => false | _ => true end.

(** The head and base branches a request asks for a pull request. *)
Definition pull_branches (rq : Request) : option (string * string) :=
  match payload rq with
  | JsonPullCreate _ _ _ h b | JsonPullUpdate _ _ h b => Some (h, b)
  | _ => None
  end.

(** The draft flag a request opens a pull request with. *)
Definition requested_draft (rq : Request) : option bool :=
  match payload rq with
  | JsonPullCreate _ _ d _ _ => Some d
  | _ => None
  end.

(** The request of the ready-for-review transition. *)
Definition is_ready_for_review (rq : Request) : Prop :=
  match payload rq with
  | GraphqlContent _ _ => True
  | _ => False
  end.

Section Engine.
Context {http : Client} {vcs : Git}.

(** What a run has done so far: the lines on the console, the requests
    sent, and the state of the remote. *)
Record World := {
  console : list Output;
  requests : list Request;
  remote : remote_state
}.

(** State and error monad of a run. *)
Definition M (A : Type) : Type := World → World * (Abort + A).

Definition ret {A} (a : A) : M A := λ w, (w, inr a).

Definition bindM {A B} (m : M A) (k : A → M B) : M B :=
  λ w, match m w with
       | (w', inr a) => k a w'
       | (w', inl e) => (w', inl e)
       end.

Definition raise {A} (e : Abort) : M A := λ w, (w, inl e).

Definition sys_exit {A} (code : Z) : M A := raise (SystemExit code).

(** The world after more lines went to the console. *)
Definition add_console (w : World) (lines : list Output) : World :=
  {| console := console w ++ lines; requests := requests w; remote := remote w |}.

Definition emit (o : Output) : M unit := λ w, (add_console w [o], inr tt).

Definition console_print (text style : string) : M unit := emit (Print text style).
Definition console_log (text style : string) : M unit := emit (Log text style).
Definition console_status (text : string) : M unit := emit (Status text).

(** One call of the client: the request is recorded and the remote
    answers. *)
Definition client_send (rq : Request) : M Response :=
  λ w, let '(s, r) := send (remote w) rq in
       ({| console := console w; requests := requests w ++ [rq];
           remote := s |}, inr r).

(** [m] leaves the requests made so far in place and adds only requests
    that satisfy [P]. *)
Definition emits {A} (P : Request → Prop) (m : M A) : Prop :=
  ∀ w w' r, m w = (w', r) →
    ∃ new, requests w' = requests w ++ new ∧ Forall P new.

(** Whatever [m] does, its first request is a mutation. *)
Definition starts_with_mutation {A} (m : M A) : Prop :=
  ∀ w w' r, m w = (w', r) →
    ∃ rq rest, requests w' = requests w ++ rq :: rest ∧ is_mutation rq = true.

Definition client_get (u : string) (p : Payload) : M Response :=
  client_send {| method := GET; url := u; payload := p |}.
Definition client_post (u : string) (p : Payload) : M Response :=
  client_send {| method := POST; url := u; payload := p |}.
Definition client_patch (u : string) (p : Payload) : M Response :=
  client_send {| method := PATCH; url := u; payload := p |}.
Definition client_delete (u : string) : M Response :=
  client_send {| method := DELETE; url := u; payload := NoPayload |}.

End Engine.

Arguments M {_} A.
Arguments World {_}.
Arguments add_console {_} w lines.
Arguments emits {_ _} P m.
Arguments starts_with_mutation {_ _} m.

Declare Scope M_scope.
Delimit Scope M_scope with M.
Notation "x ← y ; z" := (bindM y (λ x, z))
  (at level 20, y at level 100, z at level 200, only parsing) : M_scope.
Notation "' x ← y ; z" := (bindM y (λ x, z))
  (at level 20, x pattern, y at level 100, z at level 200, only parsing) : M_scope.
Notation "x ;; z" := (bindM x (λ _, z))
  (at level 100, z at level 200, only parsing, right associativity) : M_scope.
Open Scope M_scope.

(** ** The program *)

Section Program.
Context {http : Client} {vcs : Git}.

Definition READY_FOR_REVIEW_TEMPLATE (pull_number : string) : string :=
  "mutation { markPullRequestReadyForReview(input: { pullRequestId: "
    +:+ pull_number +:+ " }) {} }".

(** [check_for_status] *)
Definition check_for_status (response : Response) : M unit :=
  if (status_code response <? 400)%Z then ret tt
  else if (status_code response <? 500)%Z then
    console_print ("url: " +:+ request_url response) "red";;
    console_print ("data: " +:+ request_content response) "red";;
    console_print ("HTTPError " +:+ pretty (status_code response) +:+ ": "
                     +:+ json_message response) "red";;
    match json_errors response with
    | Some errors =>
        console_print
          (String.concat nl ((λ e, "* " +:+ e) <$> errors)) "red"
    | None => ret tt
    end;;
    sys_exit 1
  else raise HTTPStatusError.

(** [git] *)
Definition git (args : string) : M string :=
  let '(returncode, stdout) := git_proc ("git " +:+ args) in
  if negb (returncode =? 0)%Z then
    console_log ("fail to run `git " +:+ args +:+ "`:") "red";;
    console_log stdout "red";;
    sys_exit 1
  else ret (strip stdout).

(** Lines 139-140 of [get_changeid_and_pull]: the branch of a reference
    and the identifier behind the stack prefix. *)
Definition branch_of_ref (r : GitRef) : string :=
  str_drop (String.length "refs/heads/") (ref r).

Definition changeid_of_branch (stack_prefix branch : string) : ChangeId :=
  str_drop (String.length stack_prefix) branch.

(** [get_changeid_and_pull] *)
Definition get_changeid_and_pull (user stack_prefix : string) (r : GitRef)
  : M (ChangeId * option PullRequest) :=
  let branch := branch_of_ref r in
  let changeid := changeid_of_branch stack_prefix branch in
  r ← client_get "pulls" (Params (user +:+ ":" +:+ branch) "open");
  check_for_status r;;
  let pulls := filter (λ p, state p = "open") (json_pulls r) in
  if (1 <? length pulls)%nat then
    raise (RuntimeError ("More than 1 pull found with this head: " +:+ branch))
  else match pulls with
       | p :: _ => ret (changeid, Some p)
       | [] => ret (changeid, None)
       end.

(** Lines 175-187 of [get_local_changes]: the action shown in the plan for
    one change, with the URL and the commit column of its line. *)
Definition plan_action (known_changeids : KnownChangeIDs)
    (changeid : ChangeId) (commit : string) : string * string * string :=
  match known_changeids !! changeid ≫= id with
  | None => ("to create", "", str_last 7 commit)
  | Some pull =>
      if decide (commit = sha (head pull)) then
        ("nothing", html_url pull, str_last 7 commit)
      else
        ("to update", html_url pull,
         str_last 7 (sha (head pull)) +:+ " -> " +:+ str_last 7 commit)
  end.

Definition plan_line (known_changeids : KnownChangeIDs) (change : Change) : Output :=
  let '(changeid, commit, title, message) := change in
  let '(action, url, commit_info) := plan_action known_changeids changeid commit in
  Log ("* [yellow]\[" +:+ action +:+ "][/] '[red]" +:+ commit_info
         +:+ "[/] - [b]" +:+ title +:+ "[/] " +:+ url +:+ " - " +:+ changeid) "".

(** What [git] answers about a commit when it succeeds: body and subject,
    stripped. *)
Definition body_command (commit : string) : string :=
  "log -1 --format='%b' " +:+ commit.
Definition title_command (commit : string) : string :=
  "log -1 --format='%s' " +:+ commit.
Definition git_ok (args : string) : Prop := (git_proc ("git " +:+ args)).1 = 0%Z.
Definition git_output (args : string) : string := strip (git_proc ("git " +:+ args)).2.
Definition commit_body (commit : string) : string := git_output (body_command commit).
Definition commit_title (commit : string) : string := git_output (title_command commit).

(** Lines 167-173 of [get_local_changes]: the identifier of a commit from
    its message body. *)
Definition extract_changeid (commit message : string) : M ChangeId :=
  let changeids := CHANGEID_RE_findall message in
  match changeids with
  | [] =>
      console_print ("`Change-Id:` line is missing on commit " +:+ commit) "red";;
      sys_exit 1
  | _ => ret (List.last changeids "")
  end.

(** The loop of [get_local_changes]; [changes] is the list built so far. *)
Fixpoint get_local_changes_loop (commits : list string)
    (known_changeids : KnownChangeIDs) (changes : list Change) : M (list Change) :=
  match commits with
  | [] => ret changes
  | commit :: commits' =>
      message ← git (body_command commit);
      title ← git (title_command commit);
      changeid ← extract_changeid commit message;
      let change := (changeid, commit, title, message) in
      emit (plan_line known_changeids change);;
      get_local_changes_loop commits' known_changeids (changes ++ [change])
  end.

(** [get_local_changes] *)
Definition get_local_changes (commits : list string)
    (known_changeids : KnownChangeIDs) : M (list Change) :=
  get_local_changes_loop commits known_changeids [].

(** The change [get_local_changes] makes of a commit, and the commits it
    can read: [git] succeeds on both commands and the body has a
    trailer. *)
Definition local_change (commit : string) : Change :=
  (List.last (CHANGEID_RE_findall (commit_body commit)) "", commit,
   commit_title commit, commit_body commit).

Definition readable (commit : string) : Prop :=
  git_ok (body_command commit) ∧ git_ok (title_command commit)
  ∧ CHANGEID_RE_findall (commit_body commit) ≠ [].

Definition delete_line (known_changeids : KnownChangeIDs) (changeid : ChangeId) : Output :=
  match known_changeids !! changeid ≫= id with
  | Some pull =>
      Log ("* [red]\[to delete][/] '[red]" +:+ str_last 7 (sha (head pull))
             +:+ "[/] - [b]" +:+ title pull +:+ "[/] " +:+ html_url pull
             +:+ " - " +:+ changeid) ""
  | None =>
      Log ("* [red]\[to delete][/] '[red].......[/] - [b]<missing pull request>[/] - "
             +:+ changeid) ""
  end.

Fixpoint for_each {A} (l : list A) (body : A → M unit) : M unit :=
  match l with
  | [] => ret tt
  | x :: l' => body x;; for_each l' body
  end.

(** [get_changeids_to_delete]. The set is walked in the order of
    [elements]. *)
Definition get_changeids_to_delete (changes : list Change)
    (known_changeids : KnownChangeIDs) : M (gset ChangeId) :=
  let changeids_to_delete : gset ChangeId :=
    dom known_changeids ∖ list_to_set (change_id <$> changes) in
  for_each (elements changeids_to_delete)
    (λ changeid, emit (delete_line known_changeids changeid));;
  ret changeids_to_delete.

(** The header of the stack comment, [first_line] in
    [create_or_update_comments]. *)
Definition first_line : string := "This pull request is part of a stack:" +:+ nl.

(** The first loop of [create_or_update_comments]: the canonical body. *)
Definition comment_body_of (pulls : list PullRequest) : string :=
  foldl (λ body pull,
           body +:+ "1. " +:+ title pull +:+ " ([#" +:+ number pull +:+ "]("
             +:+ html_url pull +:+ "))" +:+ nl)
        first_line pulls.

(** The inner [for comment in r.json(): ... break ... else: ...] of
    [create_or_update_comments], for the pull request [pull]. *)
Fixpoint sync_comment (body : string) (pull : PullRequest)
    (comments : list Comment) : M unit :=
  match comments with
  | [] =>
      client_post ("issues/" +:+ number pull +:+ "/comments") (JsonBody body);;
      ret tt
  | comment :: comments' =>
      if startswith (comment_body comment) first_line then
        if decide (comment_body comment ≠ body) then
          client_patch (comment_url comment) (JsonBody body);; ret tt
        else ret tt
      else sync_comment body pull comments'
  end.

(** [create_or_update_comments] *)
Definition create_or_update_comments (pulls : list PullRequest) : M unit :=
  let body := comment_body_of pulls in
  for_each pulls (λ pull,
    r ← client_get ("issues/" +:+ number pull +:+ "/comments") NoPayload;
    check_for_status r;;
    sync_comment body pull (json_comments r)).

(** The comment the inner loop of [create_or_update_comments] stops at: the
    first one that starts with the header. *)
Definition stack_comment (comments : list Comment) : option Comment :=
  List.find (λ comment, startswith (comment_body comment) first_line) comments.

(** The three requests of [create_or_update_comments]. *)
Definition comments_request (pull : PullRequest) : Request :=
  {| method := GET; url := "issues/" +:+ number pull +:+ "/comments";
     payload := NoPayload |}.
Definition patch_request (comment : Comment) (body : string) : Request :=
  {| method := PATCH; url := comment_url comment; payload := JsonBody body |}.
Definition post_request (pull : PullRequest) (body : string) : Request :=
  {| method := POST; url := "issues/" +:+ number pull +:+ "/comments";
     payload := JsonBody body |}.

(** The remote [s] holds the comment [body] on [pull]: listing the comments
    of the pull request succeeds and leaves the remote as it is, and the
    first comment that starts with the header has that body. *)
Definition in_sync (s : remote_state) (body : string) (pull : PullRequest) : Prop :=
  (send s (comments_request pull)).1 = s
  ∧ (status_code (send s (comments_request pull)).2 < 400)%Z
  ∧ ∃ comment,
      stack_comment (json_comments (send s (comments_request pull)).2) = Some comment
      ∧ comment_body comment = body.

(** A remote on which the stack [pulls] is unchanged since its comments were
    written. *)
Definition synced (s : remote_state) (pulls : list PullRequest) : Prop :=
  ∀ pull, pull ∈ pulls → in_sync s (comment_body_of pulls) pull.

Definition stack_log_line (action commit : string) (pull : PullRequest)
    (changeid : ChangeId) : Output :=
  Log ("* [blue]\[" +:+ action +:+ "][/] '[red]" +:+ str_last 7 commit
         +:+ "[/] - [b]" +:+ title pull +:+ "[/] " +:+ html_url pull
         +:+ " - " +:+ changeid) "".

(** Lines 246-262 of [create_or_update_stack]: the branch of the change is
    moved to the commit when the identifier is a key of the index, created
    otherwise. *)
Definition push_branch (stacked_dest_branch : string) (changeid : ChangeId)
    (commit : string) (known_changeids : KnownChangeIDs) : M Response :=
  match known_changeids !! changeid with
  | Some pull =>
      console_status
        ("* updating stacked branch `" +:+ stacked_dest_branch +:+ "` ("
           +:+ str_last 7 commit +:+ ") - "
           +:+ match pull with
               | Some pull => html_url pull
               | None => "<stack branch without associated pull>"
               end +:+ ")");;
      client_patch ("git/refs/heads/" +:+ stacked_dest_branch)
                   (JsonRefUpdate commit true)
  | None =>
      console_status
        ("* creating stacked branch `" +:+ stacked_dest_branch +:+ "` ("
           +:+ str_last 7 commit +:+ ")");;
      client_post "git/refs"
                  (JsonRefCreate ("refs/heads/" +:+ stacked_dest_branch) commit)
  end.

(** Lines 266-308 of [create_or_update_stack]: the pull request of the
    change is left alone, updated or created; the result is the action and
    the pull request. *)
Definition publish_pull
    (stacked_base_branch stacked_dest_branch : string) (changeid : ChangeId)
    (commit title message : string) (draft : bool)
    (known_changeids : KnownChangeIDs) : M (string * PullRequest) :=
  match known_changeids !! changeid ≫= id with
  | Some pull =>
      if decide (sha (head pull) = commit) then ret ("nothing", pull)
      else
        console_status
          ("* updating pull request `" +:+ title +:+ "` (#" +:+ number pull
             +:+ ") (" +:+ str_last 7 commit +:+ ")");;
        r ← client_patch ("pulls/" +:+ number pull)
              (JsonPullUpdate title message stacked_dest_branch stacked_base_branch);
        check_for_status r;;
        let pull := json_pull r in
        (if negb draft then
           r ← client_post "/graghql"
                 (GraphqlContent "application/vnd.github.v4.idl"
                    (READY_FOR_REVIEW_TEMPLATE (number pull)));
           check_for_status r
         else ret tt);;
        ret ("updated", pull)
  | None =>
      console_status
        ("* creating stacked pull request `" +:+ title +:+ "` ("
           +:+ str_last 7 commit +:+ ")");;
      r ← client_post "pulls"
            (JsonPullCreate title message draft stacked_dest_branch stacked_base_branch);
      check_for_status r;;
      ret ("created", json_pull r)
  end.

(** [create_or_update_stack] *)
Definition create_or_update_stack
    (stacked_base_branch stacked_dest_branch : string) (changeid : ChangeId)
    (commit title message : string) (draft : bool)
    (known_changeids : KnownChangeIDs) : M PullRequest :=
  r ← push_branch stacked_dest_branch changeid commit known_changeids;
  check_for_status r;;
  ' (action, pull) ← publish_pull stacked_base_branch stacked_dest_branch
                       changeid commit title message draft known_changeids;
  emit (stack_log_line action commit pull changeid);;
  ret pull.

(** What [publish_pull] asks of the remote: pull requests between the two
    branches it was given, opened with the draft flag it was given; the
    ready-for-review transition only on the update path, with the draft
    flag off. *)
Definition publishes (base dest changeid commit : string) (draft : bool)
    (known : KnownChangeIDs) (rq : Request) : Prop :=
  (∀ hb, pull_branches rq = Some hb → hb = (dest, base))
  ∧ (∀ d, requested_draft rq = Some d → d = draft)
  ∧ (is_ready_for_review rq →
       draft = false
       ∧ ∃ pull, known !! changeid = Some (Some pull) ∧ sha (head pull) ≠ commit).

(** [delete_stack] *)
Definition delete_stack (stack_prefix : string) (changeid : ChangeId)
    (known_changeids : KnownChangeIDs) : M unit :=
  r ← client_delete ("git/refs/heads/" +:+ stack_prefix +:+ changeid);
  check_for_status r;;
  match known_changeids !! changeid with
  | None => raise (KeyError changeid)
  | Some (Some pull) =>
      console_log ("* [red]\[deleted][/] '[red]" +:+ str_last 7 (sha (head pull))
                     +:+ "[/] - [b]" +:+ title pull +:+ "[/] "
                     +:+ html_url pull +:+ " - " +:+ changeid) ""
  | Some None =>
      console_log ("* [red]\[deleted][/] '[red].......[/] - [b]<branch "
                     +:+ stack_prefix +:+ changeid +:+ ">[/] - " +:+ changeid) ""
  end.

(** The variables the loop of [main] carries from one change to the
    next. *)
Record LoopState := {
  stacked_base_branch : string;
  draft : bool;
  pulls : list PullRequest
}.

(** Lines 409-411 of [main]: the reference to the pull request published
    just before, empty for the first one. *)
Definition depends_on_of (pulls : list PullRequest) : string :=
  match last pulls with
  | Some previous => nl +:+ nl +:+ "Depends-On: #" +:+ number previous
  | None => ""
  end.

(** The body of the loop of [main] (lines 409-426). *)
Definition stack_step (stack_prefix : string) (known_changeids : KnownChangeIDs)
    (st : LoopState) (change : Change) : M LoopState :=
  let '(changeid, commit, title, message) := change in
  let depends_on := depends_on_of (pulls st) in
  let stacked_dest_branch := stack_prefix +:+ changeid in
  pull ← create_or_update_stack (stacked_base_branch st) stacked_dest_branch
           changeid commit title (message +:+ depends_on) (draft st)
           known_changeids;
  ret {| stacked_base_branch := stacked_dest_branch;
         draft := true;
         pulls := pulls st ++ [pull] |}.

(** The loop of [main] over [ordered], the changes oldest first. *)
Fixpoint stack_loop (stack_prefix : string) (known_changeids : KnownChangeIDs)
    (ordered : list Change) (st : LoopState) : M LoopState :=
  match ordered with
  | [] => ret st
  | change :: ordered' =>
      st' ← stack_step stack_prefix known_changeids st change;
      stack_loop stack_prefix known_changeids ordered' st'
  end.

(** The variables of the loop before its first iteration (lines 405-407). *)
Definition initial_state (base_branch : string) : LoopState :=
  {| stacked_base_branch := base_branch; draft := false; pulls := [] |}.

(** A task handed to [asyncio.wait]: an exception stays in the task and
    the waiter goes on; [SystemExit] leaves the event loop. *)
Definition as_task (m : M unit) : M unit :=
  λ w, match m w with
       | (w', inl (SystemExit code)) => (w', inl (SystemExit code))
       | (w', _) => (w', inr tt)
       end.

(** Lines 394-440 of [main]: what runs once the branch names, the commits
    and the index of the remote stack are known. The deletions, issued
    together in the source, are run one after the other. *)
Definition main_reconcile (dry_run : bool) (stack_prefix base_branch : string)
    (commits : list string) (known_changeids : KnownChangeIDs) : M unit :=
  console_status "Preparing stacked branches...";;
  console_log "Stacked pull request plan:" "green";;
  changes ← get_local_changes commits known_changeids;
  changeids_to_delete ← get_changeids_to_delete changes known_changeids;
  (if dry_run then
     console_log "[orange]Finished (dry-run mode) :tada:[/]" "";;
     sys_exit 0
   else ret tt);;
  console_log "New stacked pull request:" "green";;
  st ← stack_loop stack_prefix known_changeids (reverse changes)
         (initial_state base_branch);
  console_status "Updating comments...";;
  create_or_update_comments (pulls st);;
  console_log "[green]Comments updated" "";;
  console_status "Deleting unused branches...";;
  for_each (elements changeids_to_delete)
    (λ changeid, as_task (delete_stack stack_prefix changeid known_changeids));;
  console_log "[green]Finished :tada:[/]" "".

End Program.

(** ** Reference instances

    A remote that stores issue comments, and a [git] that answers from a
    table. They give the statements below concrete runs. *)

Module Reference.

Definition a_pull (number title sha : string) : PullRequest :=
  {| html_url := "https://github.com/o/r/pull/" +:+ number;
     number := number; title := title;
     head := {| sha := sha |}; state := "open" |}.

Definition reply (pull : PullRequest) (comments : list Comment) : Response :=
  {| status_code := 200; request_url := ""; request_content := "";
     json_message := ""; json_errors := None;
     json_pull := pull; json_pulls := []; json_comments := comments |}.

(** A [PATCH] of the comment at [u]. *)
Definition patch_comment (u body : string) (c : Comment) : Comment :=
  if decide (comment_url c = u)
  then {| comment_url := comment_url c; comment_body := body |}
  else c.

(** The answer to a request the remote refuses. *)
Definition refusal (status : Z) (message : string) : Response :=
  {| status_code := status; request_url := ""; request_content := "";
     json_message := message; json_errors := None;
     json_pull := a_pull "0" "" ""; json_pulls := []; json_comments := [] |}.

(** The remote: the comments of every issue, under the URL that lists
    them, the references that exist, and the number of pull requests opened
    so far. *)
Record Store := {
  issue_comments : gmap string (list Comment);
  branches : gset string;
  pulls_opened : nat
}.

(** A [GET] lists the comments stored under its URL, a [POST] of a body
    appends a comment there, a [PATCH] of a body rewrites the comments at
    that URL. Creating a reference that exists is refused with status 422,
    as the hosting API does. Opening a pull request answers with the next
    number and the title asked for; updating one answers with the number in
    the URL. Every other answer has status 200. *)
Definition comment_store_send (s : Store) (rq : Request) : Store * Response :=
  let here := default [] (issue_comments s !! url rq) in
  match method rq, payload rq with
  | POST, JsonBody body =>
      ({| issue_comments :=
            <[url rq := here ++ [{| comment_url := url rq +:+ "/" +:+ pretty (length here);
                                    comment_body := body |}]]> (issue_comments s);
          branches := branches s;
          pulls_opened := pulls_opened s |},
       reply (a_pull "0" "" "") [])
  | PATCH, JsonBody body =>
      ({| issue_comments :=
            fmap (M := list) (patch_comment (url rq) body) <$> issue_comments s;
          branches := branches s;
          pulls_opened := pulls_opened s |},
       reply (a_pull "0" "" "") [])
  | _, JsonRefCreate ref _ =>
      if decide (ref ∈ branches s) then (s, refusal 422 "Reference already exists")
      else ({| issue_comments := issue_comments s;
               branches := {[ ref ]} ∪ branches s;
               pulls_opened := pulls_opened s |},
            reply (a_pull "0" "" "") [])
  | _, JsonPullCreate title _ _ _ _ =>
      ({| issue_comments := issue_comments s;
          branches := branches s;
          pulls_opened := S (pulls_opened s) |},
       reply (a_pull (pretty (S (pulls_opened s))) title "") [])
  | _, JsonPullUpdate title _ _ _ =>
      (s, reply (a_pull (str_drop (String.length "pulls/") (url rq)) title "") [])
  | _, _ => (s, reply (a_pull "0" "" "") here)
  end.

#[export] Instance comment_store : Client :=
  {| remote_state := Store; send := comment_store_send |}.

(** The store holds the comment [body] under the URL [u]: the first
    comment there that starts with the header has that body. *)
Definition holds (body : string) (s : Store) (u : string) : Prop :=
  ∃ comment,
    stack_comment (default [] (issue_comments s !! u)) = Some comment
    ∧ comment_body comment = body.

(** A [git] that knows the commands of [table] and fails on the others. *)
Definition git_of_table (table : list (string * string)) : Git :=
  {| git_proc := λ cmd,
       match list_find (λ e, e.1 = cmd) table with
       | Some (_, (_, out)) => (0%Z, out)
       | None => (128%Z, "fatal: bad revision")
       end |}.

Definition token_a : string := "I" +:+ replicate_char 40 "a".
Definition token_b : string := "I" +:+ replicate_char 40 "b".

(** Two commits whose messages carry the same identifier. *)
Definition two_commits_one_id : Git :=
  git_of_table
    [ ("git log -1 --format='%b' c2c2c2c2", "Change-Id: " +:+ token_a +:+ nl);
      ("git log -1 --format='%s' c2c2c2c2", "second" +:+ nl);
      ("git log -1 --format='%b' c1c1c1c1", "Change-Id: " +:+ token_a +:+ nl);
      ("git log -1 --format='%s' c1c1c1c1", "first" +:+ nl) ].

(** One commit whose message has no trailer. *)
Definition commit_without_trailer : Git :=
  git_of_table
    [ ("git log -1 --format='%b' c3c3c3c3", "no trailer here" +:+ nl);
      ("git log -1 --format='%s' c3c3c3c3", "third" +:+ nl) ].

(** A message body that went through two amends: two trailers. *)
Definition amended_message : string :=
  "Fix the parser" +:+ nl +:+ nl
    +:+ "Change-Id: I" +:+ replicate_char 40 "a" +:+ nl
    +:+ "Change-Id: I" +:+ replicate_char 40 "b".

(** Two commits with an identifier each. *)
Definition two_commits : Git :=
  git_of_table
    [ ("git log -1 --format='%b' c2c2c2c2", "Change-Id: " +:+ token_b +:+ nl);
      ("git log -1 --format='%s' c2c2c2c2", "second" +:+ nl);
      ("git log -1 --format='%b' c1c1c1c1", "Change-Id: " +:+ token_a +:+ nl);
      ("git log -1 --format='%s' c1c1c1c1", "first" +:+ nl) ].

Definition empty_world : World :=
  {| console := []; requests := [];
     remote := {| issue_comments := ∅; branches := ∅; pulls_opened := 0 |} |}.

(** A stack of two changes on the branch [dev], oldest first. *)
Definition dev_prefix : string := "git_push_stack/dev/".
Definition first_change : Change :=
  (token_a, "c1c1c1c1", "first", "Change-Id: " +:+ token_a).
Definition second_change : Change :=
  (token_b, "c2c2c2c2", "second", "Change-Id: " +:+ token_b).
Definition both_commits : list string := ["c2c2c2c2"; "c1c1c1c1"].

(** The first change is published at its commit, the second at an older
    one. *)
Definition published_index : KnownChangeIDs :=
  {[ token_a := Some (a_pull "7" "first" "c1c1c1c1");
     token_b := Some (a_pull "8" "second" "0ld0ld0ld") ]}.

(** The branch of the first change exists without a pull request. *)
Definition branch_only_index : KnownChangeIDs := {[ token_a := None ]}.

(** The first change is published; a branch without a pull request is left
    from a change that is gone. *)
Definition stale_index : KnownChangeIDs :=
  {[ token_a := Some (a_pull "7" "first" "c1c1c1c1"); token_b := None ]}.

(** The loop of [main] after the first change of an unpublished stack. *)
Definition after_first : World :=
  (stack_loop dev_prefix ∅ [first_change] (initial_state "main") empty_world).1.
Definition state_after_first : LoopState :=
  {| stacked_base_branch := dev_prefix +:+ token_a;
     draft := true;
     pulls := [a_pull "1" "first" ""] |}.

(** Two tokens: one of the documented shape that the pattern refuses, one
    the pattern accepts that is not hexadecimal. *)
Definition token_capital_A : string := "A" +:+ replicate_char 40 "0".
Definition token_z : string := "I" +:+ replicate_char 40 "z".

(** The pull requests of a published stack of two, and the world after the
    synchronizer ran on them once. *)
Definition two_pulls : list PullRequest :=
  [a_pull "1" "first" "c1c1c1c1"; a_pull "2" "second" "c2c2c2c2"].
Definition after_sync : World :=
  (create_or_update_comments two_pulls empty_world).1.

End Reference.

(** ** The rest of the program

    What [main] does before the plan, [get_slug], and [do_setup]. *)

Module StrMore.

(** [s[:n]] *)
Fixpoint str_take (n : nat) (s : string) : string :=
  match n, s with
  | S n', String c s' => String c (str_take n' s')
  | _, _ => EmptyString
  end.

(** [c in s] for a character. *)
Fixpoint has_char (c : ascii) (s : string) : bool :=
  match s with
  | EmptyString => false
  | String d s' => Ascii.eqb d c || has_char c s'
  end.

(** The last character of [s] is [c]. *)
Fixpoint ends_with_char (c : ascii) (s : string) : bool :=
  match s with
  | EmptyString => false
  | String d EmptyString => Ascii.eqb d c
  | String _ s' => ends_with_char c s'
  end.

(** [s.endswith(suffix)] *)
Definition endswith (s suffix : string) : bool :=
  String.eqb (str_drop (String.length s - String.length suffix) s) suffix.

(** [s.partition(sep)] for a separator of one character: the part before
    the first separator, the separator, the part after; the whole string
    and two empty strings when there is no separator. *)
Fixpoint str_partition (sep : ascii) (s : string) : string * string * string :=
  match s with
  | EmptyString => (EmptyString, EmptyString, EmptyString)
  | String c s' =>
      if Ascii.eqb c sep then (EmptyString, String sep EmptyString, s')
      else let '(before, found, after) := str_partition sep s' in
           (String c before, found, after)
  end.

(** [s.split(sep, 1)] for a separator of one character. *)
Definition str_split1 (sep : ascii) (s : string) : list string :=
  match str_partition sep s with
  | (_, EmptyString, _) => [s]
  | (before, _, after) => [before; after]
  end.

(** [s.split(sep)] for a separator of one character. *)
Fixpoint str_split (sep : ascii) (s : string) : list string :=
  match s with
  | EmptyString => [EmptyString]
  | String c s' =>
      if Ascii.eqb c sep then EmptyString :: str_split sep s'
      else match str_split sep s' with
           | first :: others => String c first :: others
           | [] => [String c EmptyString]
           end
  end.

(** [sep.join(parts)] for a separator of one character. *)
Fixpoint str_join (sep : ascii) (parts : list string) : string :=
  match parts with
  | [] => EmptyString
  | [part] => part
  | part :: parts' => part +:+ String sep (str_join sep parts')
  end.

(** [s.rstrip(c)] for one character. *)
Fixpoint rstrip_char (ch : ascii) (s : string) : string :=
  match s with
  | EmptyString => EmptyString
  | String c s' =>
      match rstrip_char ch s' with
      | EmptyString => if Ascii.eqb c ch then EmptyString else String c EmptyString
      | r => String c r
      end
  end.

(** Every character of [s] is white space. *)
Fixpoint all_space (s : string) : bool :=
  match s with
  | EmptyString => true
  | String c s' => isspace c && all_space s'
  end.

(** The first character of [s] is white space. *)
Definition starts_with_space (s : string) : bool :=
  match s with
  | EmptyString => false
  | String c _ => isspace c
  end.

(** The last character of [s] is white space. *)
Fixpoint ends_with_space (s : string) : bool :=
  match s with
  | EmptyString => false
  | String c EmptyString => isspace c
  | String _ s' => ends_with_space s'
  end.

End StrMore.
Import StrMore.

(** What the model takes from libraries as it is: the [netloc] and the
    [path] of [urllib.parse.urlparse(url)], and [r.json()] read as the list
    of references that [main] casts it to. *)
Class Views := {
  urlparse : string → string * string;
  json_refs : Response → list GitRef
}.

(** An exception that the program raises outside the HTTP and index code
    and does not catch. [MarkupError] is the one of [rich], with the text
    the console could not read. *)
Inductive Uncaught :=
| ValueError (msg : string)
| OSError
| MarkupError (text : string).

(** The files [do_setup] works on: the working directory is part of the
    state. A read, a write or a change of mode that the system refuses is
    [None]. *)
Class FileSystem := {
  files : Type;
  chdir : files → string → option files;
  path_exists : files → string → bool;
  read_file : files → string → option string;
  write_file : files → string → string → option files;
  chmod : files → string → Z → option files
}.

Section MoreProgram.
Context {http : Client} {vcs : Git} {views : Views} {fsys : FileSystem}.
Context (COMMIT_MSG_HOOK : string).

(** Lines 81-86 of [get_slug]: the path the owner and the repository are
    read from. *)
Definition slug_path (url : string) : string :=
  let '(netloc, parsed_path) := urlparse url in
  if decide (netloc = "") then
    (* Probably ssh *)
    (str_partition ":" parsed_path).2
  else rstrip_char "/" (str_drop 1 parsed_path).

(** [get_slug]. [None] is the [ValueError] of the unpacking when the path
    has no slash. *)
Definition get_slug (url : string) : option (string * string) :=
  match str_split1 "/" (slug_path url) with
  | [user; repo] =>
      Some (user,
            if endswith repo ".git"
            then str_take (String.length repo - 4) repo
            else repo)
  | _ => None
  end.

(** A task that is awaited after [asyncio.wait]: its exception is kept for
    the [await]; [SystemExit] leaves the event loop at once. *)
Definition run_task {A} (m : M A) : M (Abort + A) :=
  λ w, match m w with
       | (w', inl (SystemExit code)) => (w', inl (SystemExit code))
       | (w', r) => (w', inr r)
       end.

(** [asyncio.wait(tasks)], which makes a task of every coroutine it is
    given: the tasks, issued together in the source, are run one after the
    other, in the order of the list. *)
Fixpoint gather {A} (tasks : list (M A)) : M (list (Abort + A)) :=
  match tasks with
  | [] => ret []
  | task :: tasks' =>
      result ← run_task task;
      results ← gather tasks';
      ret (result :: results)
  end.

(** Lines 391-392 of [main]: [known_changeids.update(dict([await task]))]
    for the tasks that are done, in the order the loop meets them. *)
Fixpoint update_index (known_changeids : KnownChangeIDs)
    (done : list (Abort + (ChangeId * option PullRequest))) : M KnownChangeIDs :=
  match done with
  | [] => ret known_changeids
  | inl exception :: _ => raise exception
  | inr (changeid, pull) :: done' =>
      update_index (<[changeid := pull]> known_changeids) done'
  end.

(** Lines 381-392 of [main]: the index of the remote stack. *)
Definition retrieve_index (user stack_prefix : string) : M KnownChangeIDs :=
  console_status "Retrieving latest pushed stacks";;
  r ← client_get ("git/matching-refs/heads/" +:+ stack_prefix) NoPayload;
  check_for_status r;;
  let refs := json_refs r in
  done ← gather (get_changeid_and_pull user stack_prefix <$> refs);
  update_index ∅ done.

(** [main]. The token only goes into the headers of the client, and
    [os.chdir] only moves the process to the top level, where the [git]
    commands that follow run. The [ValueError] of [get_slug] is the left
    result. What [git pull --rebase] and [git push -f] write to the
    repositories is not part of a [World]: its [remote] changes through the
    requests of the client only. *)
Definition main (token : string) (dry_run : bool) : M (Uncaught + unit) :=
  _ ← git "rev-parse --show-toplevel";
  dest_branch ← git "rev-parse --abbrev-ref HEAD";
  upstream ← git ("for-each-ref --format='%(upstream:short)' refs/heads/"
                    +:+ dest_branch);
  let '(remote_name, _, base_branch) := str_partition "/" upstream in
  url ← git ("config --get remote." +:+ remote_name +:+ ".url");
  match get_slug url with
  | None => ret (inl (ValueError "not enough values to unpack (expected 2, got 1)"))
  | Some (user, repo) =>
      (if negb dry_run then
         console_status ("Rebasing branch `" +:+ dest_branch +:+ "` on `"
                           +:+ remote_name +:+ "/" +:+ base_branch +:+ "`...");;
         git ("pull --rebase " +:+ remote_name +:+ " " +:+ base_branch);;
         console_log ("branch `" +:+ dest_branch +:+ "` rebased on `"
                        +:+ remote_name +:+ "/" +:+ base_branch +:+ "`") "";;
         console_status ("Pushing branch `" +:+ dest_branch +:+ "` to `"
                           +:+ remote_name +:+ "/" +:+ dest_branch +:+ "`...");;
         git ("push -f " +:+ remote_name +:+ " " +:+ dest_branch);;
         console_log ("branch `" +:+ dest_branch +:+ "` pushed to `"
                        +:+ remote_name +:+ "/" +:+ dest_branch +:+ "` ") ""
       else ret tt);;
      let stack_prefix := "git_push_stack/" +:+ dest_branch +:+ "/" in
      base_commit_sha ← git ("merge-base --fork-point " +:+ remote_name +:+ "/"
                               +:+ base_branch);
      (if decide (base_commit_sha = "") then
         console_log ("Common commit between `" +:+ remote_name +:+ "/"
                        +:+ base_branch +:+ "` and `" +:+ dest_branch
                        +:+ "` branches not found") "red";;
         sys_exit 1
       else ret tt);;
      log_output ← git ("log --format='%H' " +:+ base_commit_sha +:+ ".."
                          +:+ dest_branch);
      let commits := str_split "010" log_output in
      known_changeids ← retrieve_index user stack_prefix;
      main_reconcile dry_run stack_prefix base_branch commits known_changeids;;
      ret (inr tt)
  end.

(** The check of the mode that the builtin [open] makes before it touches
    the file: a character outside [axrwb+tU] is a [ValueError]. *)
Definition mode_refused (mode : string) : bool :=
  negb (forallb (λ c, has_char c "axrwb+tU") (String.list_ascii_of_string mode)).

(** [os.path.join(".git", "hooks", "commit-msg")] *)
Definition hook_file : string := ".git/hooks/commit-msg".

(** [do_setup], from the files [fs]: the result is the files it leaves, or
    the exception it ends with. *)
Definition do_setup (fs : files) : M (Uncaught + files) :=
  toplevel ← git "rev-parse --show-toplevel";
  match chdir fs (strip toplevel) with
  | None => ret (inl OSError)
  | Some fs =>
      if path_exists fs hook_file then
        if mode_refused "f" then ret (inl (ValueError "invalid mode: 'f'"))
        else
          match read_file fs hook_file with
          | None => ret (inl OSError)
          | Some data =>
              if decide (data ≠ COMMIT_MSG_HOOK) then
                console_print ("error: " +:+ hook_file
                                 +:+ " differ from git_push_stack hook") "red";;
                sys_exit 1
              else ret (inr fs)
          end
      else
        console_log "Installation of git commit-msg hook" "";;
        match write_file fs hook_file COMMIT_MSG_HOOK with
        | None => ret (inl OSError)
        | Some fs =>
            match chmod fs hook_file 493 (* 0o755 *) with
            | None => ret (inl OSError)
            | Some fs => ret (inr fs)
            end
        end
  end.

(** The request [push_branch] makes for a change. *)
Definition branch_request (stacked_dest_branch : string) (changeid : ChangeId)
    (commit : string) (known_changeids : KnownChangeIDs) : Request :=
  match known_changeids !! changeid with
  | Some _ =>
      {| method := PATCH; url := "git/refs/heads/" +:+ stacked_dest_branch;
         payload := JsonRefUpdate commit true |}
  | None =>
      {| method := POST; url := "git/refs";
         payload := JsonRefCreate ("refs/heads/" +:+ stacked_dest_branch) commit |}
  end.

(** The world after the request [rq] was sent, and the answer to it. *)
Definition sent (w : World) (rq : Request) : World :=
  {| console := console w; requests := requests w ++ [rq];
     remote := (send (remote w) rq).1 |}.
Definition answer (w : World) (rq : Request) : Response :=
  (send (remote w) rq).2.

(** [m] never returns: it ends with an exit or an exception. *)
Definition never_returns {A} (m : M A) : Prop :=
  ∀ w w' a, m w ≠ (w', inr a).

(** What [git] answers to the first commands of [main] when it succeeds:
    the branch that is checked out, its upstream split at the first slash,
    the URL of the remote, the fork point and the lines of the log. *)
Definition dest_branch_now : string := git_output "rev-parse --abbrev-ref HEAD".
Definition upstream_now : string * string * string :=
  str_partition "/"
    (git_output ("for-each-ref --format='%(upstream:short)' refs/heads/"
                   +:+ dest_branch_now)).
Definition remote_now : string := upstream_now.1.1.
Definition base_branch_now : string := upstream_now.2.
Definition remote_url_now : string :=
  git_output ("config --get remote." +:+ remote_now +:+ ".url").
Definition fork_point_now : string :=
  git_output ("merge-base --fork-point " +:+ remote_now +:+ "/" +:+ base_branch_now).
Definition commits_now : list string :=
  str_split "010"
    (git_output ("log --format='%H' " +:+ fork_point_now +:+ ".."
                   +:+ dest_branch_now)).

(** The identifier [get_changeid_and_pull] reads from a reference. *)
Definition changeid_of_ref (stack_prefix : string) (r : GitRef) : ChangeId :=
  changeid_of_branch stack_prefix (branch_of_ref r).

(** The request [get_changeid_and_pull] makes for a reference. *)
Definition pulls_request (user : string) (r : GitRef) : Request :=
  {| method := GET; url := "pulls";
     payload := Params (user +:+ ":" +:+ branch_of_ref r) "open" |}.

(** The request of [main] for the references of the stack. *)
Definition refs_request (stack_prefix : string) : Request :=
  {| method := GET; url := "git/matching-refs/heads/" +:+ stack_prefix;
     payload := NoPayload |}.

(** The stack prefix of [main]. *)
Definition stack_prefix_now : string := "git_push_stack/" +:+ dest_branch_now +:+ "/".

(** [m] makes no request, leaves the remote as it is, and ends early only
    by an exit with status 1. *)
Definition quiet {A} (m : M A) : Prop :=
  ∀ w w' r, m w = (w', r) →
    requests w' = requests w ∧ remote w' = remote w
    ∧ ∀ e, r = inl e → e = SystemExit 1.

(** What a list of results of tasks makes of an index. *)
Definition index_of (known_changeids : KnownChangeIDs)
    (pairs : list (ChangeId * option PullRequest)) : KnownChangeIDs :=
  foldl (λ known pair, <[pair.1 := pair.2]> known) known_changeids pairs.

(** The line of a pull request in the stack comment. *)
Definition comment_entry (pull : PullRequest) : string :=
  "1. " +:+ title pull +:+ " ([#" +:+ number pull +:+ "]("
    +:+ html_url pull +:+ "))".

End MoreProgram.

(** ** More reference instances *)

Module MoreReference.
Import Reference.

(** [urlparse] for an HTTPS and an SSH address of one repository; every
    answer of the remote read as the reference of the first change. *)
#[export] Instance two_urls : Views :=
  {| urlparse := λ u,
       if decide (u = "https://github.com/o/r.git") then ("github.com", "/o/r.git")
       else if decide (u = "git@github.com:o/r.git") then ("", "git@github.com:o/r.git")
       else ("", u);
     json_refs := λ _, [{| ref := "refs/heads/" +:+ dev_prefix +:+ token_a |}] |}.

(** Files as a map from paths to contents and modes, with the working
    directory. Nothing is refused but the change of mode of a file that
    does not exist. *)
Record Disk := { cwd : string; entries : gmap string (string * Z) }.

Definition disk_path (d : Disk) (p : string) : string := cwd d +:+ "/" +:+ p.

#[export] Instance disk : FileSystem :=
  {| files := Disk;
     chdir := λ d p, Some {| cwd := p; entries := entries d |};
     path_exists := λ d p, bool_decide (is_Some (entries d !! disk_path d p));
     read_file := λ d p, fst <$> entries d !! disk_path d p;
     write_file := λ d p content,
       Some {| cwd := cwd d;
               entries := <[disk_path d p := (content, 420%Z)]> (entries d) |};
     chmod := λ d p mode,
       match entries d !! disk_path d p with
       | Some (content, _) =>
           Some {| cwd := cwd d;
                   entries := <[disk_path d p := (content, mode)]> (entries d) |}
       | None => None
       end |}.

Definition empty_disk : Disk := {| cwd := "/"; entries := ∅ |}.
Definition disk_with_hook : Disk :=
  {| cwd := "/";
     entries := {[ "/repo/.git/hooks/commit-msg" := ("#!/bin/sh", 493%Z) ]} |}.

(** A repository on the branch [dev] that follows [origin/main], with the
    two commits of [two_commits] above the fork point. *)
Definition dev_repository : Git :=
  git_of_table
    [ ("git rev-parse --show-toplevel", "/repo" +:+ nl);
      ("git rev-parse --abbrev-ref HEAD", "dev" +:+ nl);
      ("git for-each-ref --format='%(upstream:short)' refs/heads/dev",
       "origin/main" +:+ nl);
      ("git config --get remote.origin.url", "https://github.com/o/r.git" +:+ nl);
      ("git pull --rebase origin main", "");
      ("git push -f origin dev", "");
      ("git merge-base --fork-point origin/main", "b0b0b0b0" +:+ nl);
      ("git log --format='%H' b0b0b0b0..dev", "c2c2c2c2" +:+ nl +:+ "c1c1c1c1" +:+ nl);
      ("git log -1 --format='%b' c2c2c2c2", "Change-Id: " +:+ token_b +:+ nl);
      ("git log -1 --format='%s' c2c2c2c2", "second" +:+ nl);
      ("git log -1 --format='%b' c1c1c1c1", "Change-Id: " +:+ token_a +:+ nl);
      ("git log -1 --format='%s' c1c1c1c1", "first" +:+ nl) ].

(** The same repository when the branch has no fork point with its
    upstream. *)
Definition no_fork_point : Git :=
  git_of_table
    [ ("git rev-parse --show-toplevel", "/repo" +:+ nl);
      ("git rev-parse --abbrev-ref HEAD", "dev" +:+ nl);
      ("git for-each-ref --format='%(upstream:short)' refs/heads/dev",
       "origin/main" +:+ nl);
      ("git config --get remote.origin.url", "https://github.com/o/r.git" +:+ nl);
      ("git pull --rebase origin main", "");
      ("git push -f origin dev", "");
      ("git merge-base --fork-point origin/main", nl) ].


(** A remote that answers every request with status 500, and the world
    of a run that starts on it. *)
Definition failing_remote : Client :=
  {| remote_state := unit; send := λ s _, (s, refusal 500 "Server Error") |}.
Definition failing_world : World (http := failing_remote) :=
  @Build_World failing_remote [] [] tt.

(** The reference of the branch of the first change. *)
Definition first_ref : GitRef := {| ref := "refs/heads/" +:+ dev_prefix +:+ token_a |}.

(** The loop of [main] after the two changes of an unpublished stack. *)
Definition after_second : World :=
  (create_or_update_stack (stacked_base_branch state_after_first)
     (dev_prefix +:+ token_b) token_b "c2c2c2c2" "second"
     (("Change-Id: " +:+ token_b) +:+ depends_on_of (pulls state_after_first))
     (draft state_after_first) ∅ after_first).1.

(** The files of [disk_with_hook] seen from the top level of the
    repository. *)
Definition at_top_level : Disk :=
  {| cwd := "/repo"; entries := entries disk_with_hook |}.

End MoreReference.

(** ** The console of [rich]

    The functions above write to a console that takes every line. The
    console of [rich] reads the text of a line as markup before it writes
    it, and raises [MarkupError] when it cannot, as for a closing tag that
    closes nothing. The module [Rich] holds the functions of the plan, which
    write lines made of what [git] and the remote gave, on that console; the
    parser is the library's and is taken as it is. *)
Class Markup := { markup_ok : string → bool }.

(** The text of a line. *)
Definition text_of (o : Output) : string :=
  match o with
  | Print text _ | Log text _ | Status text => text
  end.

(** A text of ASCII characters: what [bytes.decode] reads it from has the
    same characters, and [strip] above is [str.strip] on it. *)
Definition is_ascii (s : string) : bool :=
  forallb (λ c, (nat_of_ascii c <? 128)%nat) (String.list_ascii_of_string s).

Section Console.
Context {http : Client} {vcs : Git} {rich : Markup}.

(** A run that can also end with an exception of [Uncaught]. *)
Definition bindR {A B} (m : M (Uncaught + A)) (k : A → M (Uncaught + B))
  : M (Uncaught + B) :=
  r ← m;
  match r with
  | inl exception => ret (inl exception)
  | inr a => k a
  end.

Definition lift {A} (m : M A) : M (Uncaught + A) := a ← m; ret (inr a).

(** [console.print], [console.log] and [console.status] of [rich]. *)
Definition write (o : Output) : M (Uncaught + unit) :=
  if markup_ok (text_of o) then lift (emit o)
  else ret (inl (MarkupError (text_of o))).

(** The console reads the line. *)
Definition accepted (o : Output) : Prop := markup_ok (text_of o) = true.

End Console.

Notation "x ⇐ y ; z" := (bindR y (λ x, z))
  (at level 20, y at level 100, z at level 200, only parsing) : M_scope.

Module Rich.
Section Program.
Context {http : Client} {vcs : Git} {rich : Markup}.

(** [git] *)
Definition git (args : string) : M (Uncaught + string) :=
  let '(returncode, stdout) := git_proc ("git " +:+ args) in
  if negb (returncode =? 0)%Z then
    _ ⇐ write (Log ("fail to run `git " +:+ args +:+ "`:") "red");
    _ ⇐ write (Log stdout "red");
    lift (sys_exit 1)
  else lift (ret (strip stdout)).

(** Lines 167-173 of [get_local_changes]. *)
Definition extract_changeid (commit message : string) : M (Uncaught + ChangeId) :=
  let changeids := CHANGEID_RE_findall message in
  match changeids with
  | [] =>
      _ ⇐ write (Print ("`Change-Id:` line is missing on commit " +:+ commit) "red");
      lift (sys_exit 1)
  | _ => lift (ret (List.last changeids ""))
  end.

(** The loop of [get_local_changes]; [changes] is the list built so far. *)
Fixpoint get_local_changes_loop (commits : list string)
    (known_changeids : KnownChangeIDs) (changes : list Change)
  : M (Uncaught + list Change) :=
  match commits with
  | [] => lift (ret changes)
  | commit :: commits' =>
      message ⇐ git (body_command commit);
      title ⇐ git (title_command commit);
      changeid ⇐ extract_changeid commit message;
      let change := (changeid, commit, title, message) in
      _ ⇐ write (plan_line known_changeids change);
      get_local_changes_loop commits' known_changeids (changes ++ [change])
  end.

(** [get_local_changes] *)
Definition get_local_changes (commits : list string)
    (known_changeids : KnownChangeIDs) : M (Uncaught + list Change) :=
  get_local_changes_loop commits known_changeids [].

Fixpoint for_each {A} (l : list A) (body : A → M (Uncaught + unit))
  : M (Uncaught + unit) :=
  match l with
  | [] => lift (ret tt)
  | x :: l' => _ ⇐ body x; for_each l' body
  end.

(** [get_changeids_to_delete]. The set is walked in the order of
    [elements]. *)
Definition get_changeids_to_delete (changes : list Change)
    (known_changeids : KnownChangeIDs) : M (Uncaught + gset ChangeId) :=
  let changeids_to_delete : gset ChangeId :=
    dom known_changeids ∖ list_to_set (change_id <$> changes) in
  _ ⇐ for_each (elements changeids_to_delete)
        (λ changeid, write (delete_line known_changeids changeid));
  lift (ret changeids_to_delete).

(** Lines 394-403 of [main]: the plan, and the end of a dry run. *)
Definition prepare (dry_run : bool) (commits : list string)
    (known_changeids : KnownChangeIDs)
  : M (Uncaught + (list Change * gset ChangeId)) :=
  _ ⇐ write (Status "Preparing stacked branches...");
  _ ⇐ write (Log "Stacked pull request plan:" "green");
  changes ⇐ get_local_changes commits known_changeids;
  changeids_to_delete ⇐ get_changeids_to_delete changes known_changeids;
  if dry_run then
    _ ⇐ write (Log "[orange]Finished (dry-run mode) :tada:[/]" "");
    lift (sys_exit 0)
  else lift (ret (changes, changeids_to_delete)).

End Program.
End Rich.

Section Plan.
Context {vcs : Git} {rich : Markup}.

(** A commit whose plan line [get_local_changes] can write: it is readable
    and the console reads its line. *)
Definition plannable (known_changeids : KnownChangeIDs) (commit : string) : Prop :=
  readable commit ∧ accepted (plan_line known_changeids (local_change commit)).

(** [git] answers the two commands of a commit with ASCII text. *)
Definition ascii_commit (commit : string) : Prop :=
  is_ascii (git_proc ("git " +:+ body_command commit)).2 = true
  ∧ is_ascii (git_proc ("git " +:+ title_command commit)).2 = true.

(** The identifiers the plan shows as to delete, in the order of the
    lines. *)
Definition planned_deletions (known_changeids : KnownChangeIDs)
    (commits : list string) : list ChangeId :=
  elements (dom known_changeids
              ∖ (list_to_set (change_id <$> (local_change <$> commits))
                   : gset ChangeId)).

(** The lines of the plan, as lines 394-399 of [main] write them: the two
    fixed ones, one per commit, one per identifier to delete. *)
Definition plan_console (known_changeids : KnownChangeIDs)
    (commits : list string) : list Output :=
  [Status "Preparing stacked branches...";
   Log "Stacked pull request plan:" "green"]
  ++ (plan_line known_changeids <$> (local_change <$> commits))
  ++ (delete_line known_changeids <$> planned_deletions known_changeids commits).

(** The last line of a dry run. *)
Definition dry_run_finished : Output :=
  Log "[orange]Finished (dry-run mode) :tada:[/]" "".

End Plan.

(** A console for the examples: it counts the tags that are open and
    refuses a closing tag when none is. A backslash hides the character
    after it, and a bracket opens a tag when a lower-case letter follows. *)
Module RichReference.
Import Reference.

Fixpoint tags_close (depth : nat) (hidden : bool) (s : string) : bool :=
  match s with
  | EmptyString => true
  | String c s' =>
      if hidden then tags_close depth false s'
      else if Ascii.eqb c "\" then tags_close depth true s'
      else if Ascii.eqb c "[" then
        match s' with
        | EmptyString => true
        | String d _ =>
            if Ascii.eqb d "/" then
              match depth with
              | O => false
              | S depth' => tags_close depth' false s'
              end
            else if ((97 <=? nat_of_ascii d)%nat && (nat_of_ascii d <=? 122)%nat)
            then tags_close (S depth) false s'
            else tags_close depth false s'
        end
      else tags_close depth false s'
  end.

#[export] Instance counting_console : Markup := {| markup_ok := tags_close 0 false |}.

(** A commit whose subject holds a closing tag. *)
Definition tag_in_subject : Git :=
  git_of_table
    [ ("git log -1 --format='%b' c4c4c4c4", "Change-Id: " +:+ token_a +:+ nl);
      ("git log -1 --format='%s' c4c4c4c4", "fix [/] bug" +:+ nl) ].

End RichReference.

(** ** Facts about strings *)

Module StrFacts.

Lemma append_cons (c : ascii) (p s : string) :
  String c p +:+ s = String c (p +:+ s).
Proof. reflexivity. Qed.

Lemma str_drop_app (p s : string) : str_drop (String.length p) (p +:+ s) = s.
Proof. induction p as [|c p IH]; simpl; [reflexivity | exact IH]. Qed.

Lemma str_drop_empty (n : nat) : str_drop n EmptyString = EmptyString.
Proof. destruct n; reflexivity. Qed.

Lemma str_drop_S (n : nat) (c : ascii) (s : string) :
  str_drop (S n) (String c s) = str_drop n s.
Proof. reflexivity. Qed.

Lemma str_drop_drop (n m : nat) (s : string) :
  str_drop n (str_drop m s) = str_drop (m + n) s.
Proof.
  revert s; induction m as [|m IH]; intros s; simpl; [reflexivity|].
  destruct s as [|c s]; [apply str_drop_empty | apply IH].
Qed.

Lemma str_drop_length (n : nat) (s : string) :
  String.length (str_drop n s) = (String.length s - n)%nat.
Proof.
  revert s; induction n as [|n IH]; intros [|c s]; simpl;
    [reflexivity | lia | reflexivity | apply IH].
Qed.

Lemma prefix_cons (a c : ascii) (p s : string) :
  String.prefix (String a p) (String c s) =
  if ascii_dec a c then String.prefix p s else false.
Proof. reflexivity. Qed.

Lemma prefix_app (p s : string) : String.prefix p (p +:+ s) = true.
Proof.
  induction p as [|c p IH]; simpl; [destruct s; reflexivity|].
  destruct (ascii_dec c c); [exact IH | congruence].
Qed.

Lemma prefix_empty (s : string) : String.prefix EmptyString s = true.
Proof. by destruct s. Qed.

Lemma prefix_weaken (p s x : string) :
  String.prefix p s = true → String.prefix p (s +:+ x) = true.
Proof.
  revert s; induction p as [|a p IH]; intros s H; [apply prefix_empty|].
  destruct s as [|c s]; [discriminate|].
  rewrite append_cons, prefix_cons. rewrite prefix_cons in H.
  destruct (ascii_dec a c); [by apply IH | discriminate].
Qed.

End StrFacts.
Import StrFacts.

(** ** Facts about the trailer pattern *)

Module ChangeIdReFacts.

Lemma in_0_9a_z_spec (c : ascii) : in_0_9a_z c = true ↔ digit_or_lower c.
Proof.
  unfold in_0_9a_z, digit_or_lower.
  rewrite orb_true_iff, !andb_true_iff, !Nat.leb_le. tauto.
Qed.

Lemma prefix_split (p s : string) :
  String.prefix p s = true → s = p +:+ str_drop (String.length p) s.
Proof.
  revert s; induction p as [|c p IH]; intros s Hp; [reflexivity|].
  destruct s as [|d s]; simpl in Hp; [discriminate|].
  destruct (ascii_dec c d) as [->|]; [|discriminate].
  rewrite append_cons. cbn. f_equal. apply IH, Hp.
Qed.

Lemma match_class_inv (n : nat) (s t : string) :
  match_class n s = Some t →
  String.length t = n
  ∧ Forall digit_or_lower (String.list_ascii_of_string t)
  ∧ s = t +:+ str_drop n s.
Proof.
  revert s t; induction n as [|n IH]; intros s t H; simpl in H.
  - injection H as <-. repeat split; constructor.
  - destruct s as [|c s]; [discriminate|].
    destruct (in_0_9a_z c) eqn:Hc; [|discriminate].
    destruct (match_class n s) as [t'|] eqn:Ht; [|discriminate].
    injection H as <-. destruct (IH _ _ Ht) as (Hlen & Hall & Hs).
    simpl. repeat split.
    + by rewrite Hlen.
    + constructor; [by apply in_0_9a_z_spec | exact Hall].
    + rewrite append_cons. f_equal. exact Hs.
Qed.

Lemma match_class_intro (t rest : string) :
  Forall digit_or_lower (String.list_ascii_of_string t) →
  match_class (String.length t) (t +:+ rest) = Some t.
Proof.
  induction t as [|c t IH]; intros Hall; [reflexivity|].
  simpl in Hall. inversion Hall as [|? ? Hc Ht]; subst.
  apply in_0_9a_z_spec in Hc. rewrite append_cons. simpl.
  rewrite Hc, (IH Ht). reflexivity.
Qed.

Lemma match_inv (s tok : string) :
  CHANGEID_RE_match s = Some tok →
  ∃ t, tok = String "I"%char t
       ∧ s = keyword +:+ tok +:+ str_drop match_length s
       ∧ match_class 40 (str_drop 12 s) = Some t.
Proof.
  unfold CHANGEID_RE_match, startswith. intros H.
  destruct (String.prefix keyword s) eqn:Hp; [|discriminate].
  apply prefix_split in Hp.
  destruct (str_drop (String.length keyword) s) as [|c rest] eqn:Hd; [discriminate|].
  destruct (decide (c = "I"%char)) as [->|Hne]; cycle 1.
  { destruct c as [[] [] [] [] [] [] [] []]; try discriminate; by destruct Hne. }
  destruct (match_class 40 rest) as [t|] eqn:Ht; [|discriminate].
  injection H as <-. exists t.
  assert (Hrest : str_drop 12 s = rest).
  { change 12%nat with (String.length keyword + 1)%nat.
    rewrite <- str_drop_drop, Hd. reflexivity. }
  split; [reflexivity|]. split; [|by rewrite Hrest].
  destruct (match_class_inv _ _ _ Ht) as (_ & _ & Hsplit).
  rewrite Hp at 1. f_equal. rewrite append_cons. f_equal.
  rewrite Hsplit at 1. f_equal.
  rewrite <- Hrest. rewrite str_drop_drop. reflexivity.
Qed.

Lemma match_intro (tok rest : string) :
  token_shape tok → CHANGEID_RE_match (keyword +:+ tok +:+ rest) = Some tok.
Proof.
  intros (t & -> & Hlen & Hall).
  unfold CHANGEID_RE_match, startswith.
  rewrite prefix_app, str_drop_app, append_cons, <- Hlen.
  by rewrite match_class_intro.
Qed.

Lemma match_shape (s tok : string) :
  CHANGEID_RE_match s = Some tok → token_shape tok.
Proof.
  intros H. destruct (match_inv _ _ H) as (t & -> & _ & Ht).
  destruct (match_class_inv _ _ _ Ht) as (Hlen & Hall & _).
  by exists t.
Qed.

Lemma match_needs_C (s : string) :
  head_is_C s = false → CHANGEID_RE_match s = None.
Proof.
  intros H. destruct s as [|c s]; [reflexivity|].
  unfold CHANGEID_RE_match, startswith, keyword. rewrite prefix_cons.
  destruct (ascii_dec "C" c) as [<-|]; [discriminate | reflexivity].
Qed.

Lemma class_not_C (n j : nat) (u t : string) :
  match_class n u = Some t → (j < n)%nat → head_is_C (str_drop j u) = false.
Proof.
  revert j u t; induction n as [|n IH]; intros j u t H Hj; [lia|].
  simpl in H. destruct u as [|c u]; [discriminate|].
  destruct (in_0_9a_z c) eqn:Hc; [|discriminate].
  destruct (match_class n u) as [t'|] eqn:Ht; [|discriminate].
  destruct j as [|j].
  - clear -Hc. destruct c as [[] [] [] [] [] [] [] []];
      try reflexivity; discriminate Hc.
  - simpl. apply (IH j u t' Ht). lia.
Qed.

(** Two occurrences of the pattern never overlap: the characters a match
    covers, its first apart, are not the capital C an occurrence starts
    with. *)
Lemma no_overlap (s tok : string) (k : nat) :
  CHANGEID_RE_match s = Some tok → (0 < k < match_length)%nat →
  CHANGEID_RE_match (str_drop k s) = None.
Proof.
  intros H Hk. apply match_needs_C.
  destruct (match_inv _ _ H) as (t & -> & Hs & Ht).
  destruct (decide (k < 12)%nat) as [Hlt|Hge].
  - rewrite Hs. clear -Hk Hlt.
    do 12 (destruct k as [|k]; [first [lia | reflexivity]|]). lia.
  - replace k with (12 + (k - 12))%nat by lia.
    rewrite <- str_drop_drop. apply (class_not_C 40 _ _ t Ht).
    unfold match_length in Hk. lia.
Qed.

Lemma findall_from_skip (k : nat) (s : string) :
  findall_from k s = findall_from 0 (str_drop k s).
Proof.
  revert k; induction s as [|c s IH]; intros [|k]; try reflexivity.
  simpl. apply IH.
Qed.

Lemma findall_cons (c : ascii) (s : string) :
  CHANGEID_RE_findall (String c s) =
  match CHANGEID_RE_match (String c s) with
  | Some tok => tok :: CHANGEID_RE_findall (str_drop match_length (String c s))
  | None => CHANGEID_RE_findall s
  end.
Proof.
  unfold CHANGEID_RE_findall. simpl findall_from.
  destruct (CHANGEID_RE_match (String c s)); [|reflexivity].
  by rewrite findall_from_skip.
Qed.

(** [findall] finds nothing exactly when the pattern occurs nowhere;
    otherwise its last element is the occurrence that starts last. *)
Lemma findall_last_occurrence (s : string) :
  (CHANGEID_RE_findall s = [] ∧ ∀ q, CHANGEID_RE_match (str_drop q s) = None)
  ∨ (∃ p tok,
        CHANGEID_RE_findall s ≠ []
        ∧ List.last (CHANGEID_RE_findall s) "" = tok
        ∧ CHANGEID_RE_match (str_drop p s) = Some tok
        ∧ ∀ q, (p < q)%nat → CHANGEID_RE_match (str_drop q s) = None).
Proof.
  remember (String.length s) as n eqn:Hn.
  assert (Hle : (String.length s ≤ n)%nat) by lia. clear Hn.
  revert s Hle. induction n as [|n IH]; intros s Hle.
  { destruct s; [|simpl in Hle; lia]. left. split; [reflexivity|].
    intros q. by rewrite str_drop_empty. }
  destruct s as [|c s].
  { left. split; [reflexivity|]. intros q. by rewrite str_drop_empty. }
  rewrite findall_cons.
  destruct (CHANGEID_RE_match (String c s)) as [tok|] eqn:Hm.
  - right.
    destruct (IH (str_drop match_length (String c s))) as [[Hnil Hno]|(p & tok' & Hne & Hlast & Hp & Hafter)].
    { rewrite str_drop_length. simpl in *. lia. }
    + exists 0%nat, tok. rewrite Hnil. repeat split; [done|exact Hm|].
      intros q Hq. destruct (decide (q < match_length)%nat).
      * by apply (no_overlap _ tok).
      * replace q with (match_length + (q - match_length))%nat by lia.
        rewrite <- str_drop_drop. apply Hno.
    + exists (match_length + p)%nat, tok'. repeat split.
      * done.
      * rewrite <- Hlast.
        destruct (CHANGEID_RE_findall (str_drop match_length (String c s)));
          [done | reflexivity].
      * by rewrite <- str_drop_drop.
      * intros q Hq.
        replace q with (match_length + (q - match_length))%nat by lia.
        rewrite <- str_drop_drop. apply Hafter. lia.
  - destruct (IH s) as [[Hnil Hno]|(p & tok' & Hne & Hlast & Hp & Hafter)].
    { simpl in Hle. lia. }
    + left. split; [exact Hnil|]. intros [|q]; [exact Hm | apply Hno].
    + right. exists (S p), tok'. repeat split; try done.
      intros [|q] Hq; [lia|]. apply Hafter. lia.
Qed.

End ChangeIdReFacts.
Import ChangeIdReFacts.

(** ** Facts about the monad *)

Section MonadFacts.
Context {http : Client} {vcs : Git}.

Lemma add_console_nil (w : World) : add_console w [] = w.
Proof. destruct w. unfold add_console. simpl. by rewrite app_nil_r. Qed.

Lemma add_console_app (w : World) (l1 l2 : list Output) :
  add_console (add_console w l1) l2 = add_console w (l1 ++ l2).
Proof. unfold add_console. simpl. by rewrite app_assoc. Qed.

Lemma bindM_ok {A B} (m : M A) (k : A → M B) (w w1 : World) (a : A) :
  m w = (w1, inr a) → bindM m k w = k a w1.
Proof. intros H. unfold bindM. by rewrite H. Qed.

Lemma bindM_abort {A B} (m : M A) (k : A → M B) (w w1 : World) (e : Abort) :
  m w = (w1, inl e) → bindM m k w = (w1, inl e).
Proof. intros H. unfold bindM. by rewrite H. Qed.

Lemma bindM_inv {A B} (m : M A) (k : A → M B) (w w' : World) (r : Abort + B) :
  bindM m k w = (w', r) →
  (∃ e, m w = (w', inl e) ∧ r = inl e)
  ∨ (∃ a w1, m w = (w1, inr a) ∧ k a w1 = (w', r)).
Proof.
  unfold bindM. destruct (m w) as [w1 [e|a]] eqn:Hm; intros H.
  - left. exists e. by inversion H.
  - right. by exists a, w1.
Qed.

Lemma bindM_inv_ok {A B} (m : M A) (k : A → M B) (w w' : World) (b : B) :
  bindM m k w = (w', inr b) →
  ∃ a w1, m w = (w1, inr a) ∧ k a w1 = (w', inr b).
Proof.
  intros H. apply bindM_inv in H as [(e & _ & He)|H]; [discriminate | exact H].
Qed.

Lemma emit_run (o : Output) (w : World) : emit o w = (add_console w [o], inr tt).
Proof. reflexivity. Qed.

Lemma for_each_emit {A} (f : A → Output) (l : list A) (w : World) :
  for_each l (λ x, emit (f x)) w = (add_console w (f <$> l), inr tt).
Proof.
  revert w; induction l as [|x l IH]; intros w; simpl.
  - by rewrite add_console_nil.
  - erewrite bindM_ok by apply emit_run. rewrite IH, add_console_app. reflexivity.
Qed.

(** *** The requests a computation adds *)

Lemma emits_ret {A} (P : Request → Prop) (a : A) : emits P (ret a).
Proof. intros w w' r [= <- <-]. exists []. by rewrite app_nil_r. Qed.

Lemma emits_raise {A} (P : Request → Prop) (e : Abort) : emits P (raise (A := A) e).
Proof. intros w w' r [= <- <-]. exists []. by rewrite app_nil_r. Qed.

Lemma emits_sys_exit {A} (P : Request → Prop) (code : Z) :
  emits P (sys_exit (A := A) code).
Proof. apply emits_raise. Qed.

Lemma emits_emit (P : Request → Prop) (o : Output) : emits P (emit o).
Proof. intros w w' r [= <- <-]. exists []. simpl. by rewrite app_nil_r. Qed.

Lemma emits_send (P : Request → Prop) (rq : Request) :
  P rq → emits P (client_send rq).
Proof.
  intros HP w w' r. unfold client_send.
  destruct (send (remote w) rq) as [s resp]. intros [= <- <-].
  exists [rq]. simpl. by split; [|constructor].
Qed.

Lemma emits_bind {A B} (P : Request → Prop) (m : M A) (k : A → M B) :
  emits P m → (∀ a, emits P (k a)) → emits P (bindM m k).
Proof.
  intros Hm Hk w w' r H.
  apply bindM_inv in H as [(e & H & ->)|(a & w1 & H1 & H2)].
  - by apply Hm in H.
  - apply Hm in H1 as (l1 & E1 & F1). apply Hk in H2 as (l2 & E2 & F2).
    exists (l1 ++ l2). rewrite E2, E1, app_assoc. split; [done|].
    by apply Forall_app.
Qed.

Lemma emits_weaken {A} (P Q : Request → Prop) (m : M A) :
  (∀ rq, P rq → Q rq) → emits P m → emits Q m.
Proof.
  intros HPQ Hm w w' r H. apply Hm in H as (l & E & F).
  exists l. split; [done|]. eapply Forall_impl; eauto.
Qed.

Lemma emits_for_each {A} (P : Request → Prop) (l : list A) (body : A → M unit) :
  (∀ x, emits P (body x)) → emits P (for_each l body).
Proof.
  intros Hb. induction l as [|x l IH]; simpl.
  - apply emits_ret.
  - apply emits_bind; [apply Hb | intros _; exact IH].
Qed.

End MonadFacts.

Create HintDb emits discriminated.
#[export] Hint Resolve emits_ret emits_raise emits_sys_exit emits_emit
  emits_for_each : emits.
#[export] Hint Extern 2 (emits _ (bindM _ _)) =>
  apply emits_bind; [|intros ?] : emits.
#[export] Hint Extern 2 (emits _ (console_print _ _)) => apply emits_emit : emits.
#[export] Hint Extern 2 (emits _ (console_log _ _)) => apply emits_emit : emits.
#[export] Hint Extern 2 (emits _ (console_status _)) => apply emits_emit : emits.
#[export] Hint Extern 3 (emits _ (if ?b then _ else _)) => destruct b : emits.
#[export] Hint Extern 3 (emits _ (match ?x with _ => _ end)) => destruct x : emits.

(** ** The planner *)

Section PlannerFacts.
Context {http : Client} {vcs : Git}.

Lemma git_run_ok (args : string) (w : World) :
  git_ok args → git args w = (w, inr (git_output args)).
Proof.
  unfold git, git_ok, git_output.
  destruct (git_proc ("git " +:+ args)) as [rc out]. simpl.
  intros ->. reflexivity.
Qed.

Lemma git_run_inv (args : string) (w w' : World) (out : string) :
  git args w = (w', inr out) → git_ok args ∧ out = git_output args ∧ w' = w.
Proof.
  unfold git, git_ok, git_output.
  destruct (git_proc ("git " +:+ args)) as [rc stdout]. simpl.
  destruct (rc =? 0)%Z eqn:Hrc; simpl; intros H.
  - apply Z.eqb_eq in Hrc. by inversion H.
  - discriminate H.
Qed.

Lemma extract_changeid_found (commit message : string) (w : World) :
  CHANGEID_RE_findall message ≠ [] →
  extract_changeid commit message w
  = (w, inr (List.last (CHANGEID_RE_findall message) "")).
Proof.
  unfold extract_changeid. by destruct (CHANGEID_RE_findall message).
Qed.

Lemma extract_changeid_missing (commit message : string) (w : World) :
  CHANGEID_RE_findall message = [] →
  extract_changeid commit message w
  = (add_console w [Print ("`Change-Id:` line is missing on commit " +:+ commit) "red"],
     inl (SystemExit 1)).
Proof. unfold extract_changeid. by intros ->. Qed.

(** The loop on commits it can read: one change and one line of the plan
    for each. *)
Lemma local_changes_readable_prefix (pre rest : list string)
    (known : KnownChangeIDs) (acc : list Change) (w : World) :
  Forall readable pre →
  get_local_changes_loop (pre ++ rest) known acc w
  = get_local_changes_loop rest known (acc ++ (local_change <$> pre))
      (add_console w (plan_line known <$> (local_change <$> pre))).
Proof.
  intros Hpre. revert acc w.
  induction Hpre as [|commit pre (Hb & Ht & Hne) _ IH]; intros acc w; simpl.
  - by rewrite app_nil_r, add_console_nil.
  - erewrite bindM_ok by (by apply git_run_ok).
    erewrite bindM_ok by (by apply git_run_ok).
    erewrite bindM_ok by (by apply extract_changeid_found).
    erewrite bindM_ok by apply emit_run.
    rewrite IH, add_console_app, <- app_assoc. reflexivity.
Qed.

Lemma local_changes_readable (commits : list string) (known : KnownChangeIDs)
    (w : World) :
  Forall readable commits →
  get_local_changes commits known w
  = (add_console w (plan_line known <$> (local_change <$> commits)),
     inr (local_change <$> commits)).
Proof.
  intros H. unfold get_local_changes.
  rewrite <- (app_nil_r commits) at 1.
  by rewrite local_changes_readable_prefix.
Qed.

(** A run of the loop that returns has read every commit. *)
Lemma local_changes_returned (commits : list string) (known : KnownChangeIDs)
    (acc : list Change) (w w' : World) (changes : list Change) :
  get_local_changes_loop commits known acc w = (w', inr changes) →
  Forall readable commits.
Proof.
  revert acc w. induction commits as [|commit commits IH]; intros acc w H.
  { constructor. }
  simpl in H.
  apply bindM_inv_ok in H as (message & w1 & Hg1 & H).
  apply git_run_inv in Hg1 as (Hb & -> & ->).
  apply bindM_inv_ok in H as (title & w2 & Hg2 & H).
  apply git_run_inv in Hg2 as (Ht & -> & ->).
  apply bindM_inv_ok in H as (changeid & w3 & He & H).
  apply bindM_inv_ok in H as ([] & w4 & _ & H).
  constructor; [|by eapply IH].
  repeat split; try done.
  intros Hnil. rewrite extract_changeid_missing in He by done. discriminate He.
Qed.

Lemma plan_action_cases (known : KnownChangeIDs) (changeid commit : string) :
  let action := (plan_action known changeid commit).1.1 in
  (action = "nothing"
     ↔ ∃ pull, known !! changeid = Some (Some pull) ∧ sha (head pull) = commit)
  ∧ (action = "to update"
     ↔ ∃ pull, known !! changeid = Some (Some pull) ∧ sha (head pull) ≠ commit)
  ∧ (action = "to create"
     ↔ known !! changeid = None ∨ known !! changeid = Some None)
  ∧ (action = "nothing" ∨ action = "to update" ∨ action = "to create").
Proof.
  unfold plan_action.
  destruct (known !! changeid) as [[pull|]|] eqn:Hk; simpl.
  - destruct (decide (commit = sha (head pull))) as [->|Hne]; simpl.
    + repeat split; try (intros ?; discriminate); eauto.
      * intros (p & [= <-] & Hp). done.
      * intros [|]; discriminate.
    + repeat split; try (intros ?; discriminate); eauto.
      * intros (p & [= <-] & Hp). done.
      * intros [|]; discriminate.
  - repeat split; try (intros ?; discriminate); eauto.
    + intros (p & ? & _). discriminate.
    + intros (p & ? & _). discriminate.
  - repeat split; try (intros ?; discriminate); eauto.
    + intros (p & ? & _). discriminate.
    + intros (p & ? & _). discriminate.
Qed.

End PlannerFacts.

(** ** The builder *)

Section BuilderFacts.
Context {http : Client} {vcs : Git}.

Lemma check_for_status_ok (r : Response) (w : World) :
  (status_code r < 400)%Z → check_for_status r w = (w, inr tt).
Proof.
  intros H. unfold check_for_status.
  apply Z.ltb_lt in H. by rewrite H.
Qed.

Lemma check_for_status_result (r : Response) (w w' : World) (res : Abort + unit) :
  check_for_status r w = (w', res) →
  res = inr tt ∨ res = inl (SystemExit 1) ∨ res = inl HTTPStatusError.
Proof.
  unfold check_for_status.
  destruct (status_code r <? 400)%Z; [intros [= _ <-]; by left|].
  destruct (status_code r <? 500)%Z; [|intros [= _ <-]; by right; right].
  destruct (json_errors r); intros [= _ <-]; by right; left.
Qed.

Lemma check_for_status_emits (P : Request → Prop) (r : Response) :
  emits P (check_for_status r).
Proof. unfold check_for_status. auto 20 with emits. Qed.

Lemma known_pull_lookup (known : KnownChangeIDs) (changeid : string) (pull : PullRequest) :
  known !! changeid ≫= id = Some pull ↔ known !! changeid = Some (Some pull).
Proof. destruct (known !! changeid) as [[p|]|]; simpl; split; congruence. Qed.

Lemma push_branch_run (dest changeid commit : string) (known : KnownChangeIDs)
    (w w1 : World) (res : Abort + Response) :
  push_branch dest changeid commit known w = (w1, res) →
  ∃ rq r, res = inr r ∧ requests w1 = requests w ++ [rq] ∧ is_mutation rq = true.
Proof.
  unfold push_branch.
  destruct (known !! changeid) as [pull|]; intros H;
    apply bindM_inv in H as [(e & H & _)|([] & w0 & [= <-] & H)];
    try discriminate H;
    unfold client_patch, client_post, client_send in H; simpl in H;
    destruct (send _ _) as [s r]; injection H as <- <-;
    eexists _, r; simpl; done.
Qed.

Lemma publish_pull_emits (base dest changeid commit title message : string)
    (draft : bool) (known : KnownChangeIDs) :
  emits (publishes base dest changeid commit draft known)
        (publish_pull base dest changeid commit title message draft known).
Proof.
  unfold publish_pull.
  destruct (known !! changeid ≫= id) as [pull|] eqn:Hk.
  - apply known_pull_lookup in Hk.
    destruct (decide (sha (head pull) = commit)) as [|Hne]; [apply emits_ret|].
    apply emits_bind; [apply emits_emit|intros _].
    apply emits_bind; [|intros r].
    { apply emits_send. unfold publishes, pull_branches, requested_draft,
        is_ready_for_review. simpl. naive_solver. }
    apply emits_bind; [apply check_for_status_emits|intros _].
    apply emits_bind; [|intros _; apply emits_ret].
    destruct draft eqn:Hd; simpl; [apply emits_ret|].
    apply emits_bind; [|intros r'; apply check_for_status_emits].
    apply emits_send. unfold publishes, pull_branches, requested_draft,
      is_ready_for_review. simpl. naive_solver.
  - apply emits_bind; [apply emits_emit|intros _].
    apply emits_bind; [|intros r].
    { apply emits_send. unfold publishes, pull_branches, requested_draft,
        is_ready_for_review. simpl. naive_solver. }
    apply emits_bind; [apply check_for_status_emits|intros _; apply emits_ret].
Qed.

Lemma push_branch_emits (P : Request → Prop) (dest changeid commit : string)
    (known : KnownChangeIDs) :
  (∀ rq, pull_branches rq = None → requested_draft rq = None →
         ¬ is_ready_for_review rq → P rq) →
  emits P (push_branch dest changeid commit known).
Proof.
  intros HP. unfold push_branch.
  destruct (known !! changeid); (apply emits_bind; [apply emits_emit|intros _]);
    apply emits_send, HP; simpl; tauto.
Qed.

Lemma create_or_update_stack_emits (base dest changeid commit title message : string)
    (draft : bool) (known : KnownChangeIDs) :
  emits (publishes base dest changeid commit draft known)
        (create_or_update_stack base dest changeid commit title message draft known).
Proof.
  unfold create_or_update_stack.
  apply emits_bind; [|intros r].
  { apply push_branch_emits. intros rq H1 H2 H3.
    unfold publishes. naive_solver. }
  apply emits_bind; [apply check_for_status_emits|intros _].
  apply emits_bind; [apply publish_pull_emits|intros [action pull]].
  apply emits_bind; [apply emits_emit|intros _; apply emits_ret].
Qed.

Lemma create_or_update_stack_starts (base dest changeid commit title message : string)
    (draft : bool) (known : KnownChangeIDs) :
  starts_with_mutation
    (create_or_update_stack base dest changeid commit title message draft known).
Proof.
  intros w w' res H. unfold create_or_update_stack in H.
  apply bindM_inv in H as [(e & H & _)|(r & w1 & H1 & H)].
  { apply push_branch_run in H as (? & ? & ? & _). discriminate. }
  apply push_branch_run in H1 as (rq & _ & _ & Hrq & Hmut).
  assert (Hrest : ∃ new, requests w' = requests w1 ++ new ∧ Forall (λ _, True) new).
  { revert H. apply emits_bind; [apply check_for_status_emits|intros _].
    apply emits_bind; [|intros [action pull]].
    - eapply emits_weaken; [|apply publish_pull_emits]. done.
    - apply emits_bind; [apply emits_emit|intros _; apply emits_ret]. }
  destruct Hrest as (new & -> & _). exists rq, new.
  by rewrite Hrq, <- app_assoc.
Qed.

Lemma starts_bind {A B} (m : M A) (k : A → M B) :
  starts_with_mutation m → (∀ a, emits (λ _, True) (k a)) →
  starts_with_mutation (bindM m k).
Proof.
  intros Hm Hk w w' r H.
  apply bindM_inv in H as [(e & H & _)|(a & w1 & H1 & H2)].
  - by apply Hm in H.
  - apply Hm in H1 as (rq & rest & E & Hmut).
    apply Hk in H2 as (new & E2 & _).
    exists rq, (rest ++ new). by rewrite E2, E, <- app_assoc.
Qed.

Lemma stack_step_run (stack_prefix : string) (known : KnownChangeIDs)
    (st : LoopState) (changeid commit title message : string) (w : World) :
  stack_step stack_prefix known st (changeid, commit, title, message) w
  = (pull ← create_or_update_stack (stacked_base_branch st)
              (stack_prefix +:+ changeid) changeid commit title
              (message +:+ depends_on_of (pulls st)) (draft st) known;
     ret {| stacked_base_branch := stack_prefix +:+ changeid;
            draft := true;
            pulls := pulls st ++ [pull] |}) w.
Proof. reflexivity. Qed.

Lemma stack_step_emits (stack_prefix : string) (known : KnownChangeIDs)
    (st : LoopState) (change : Change) :
  emits (λ _, True) (stack_step stack_prefix known st change).
Proof.
  destruct change as [[[changeid commit] title] message]. unfold stack_step.
  apply emits_bind; [|intros pull; apply emits_ret].
  eapply emits_weaken; [|apply create_or_update_stack_emits]. done.
Qed.

Lemma stack_loop_emits (stack_prefix : string) (known : KnownChangeIDs)
    (ordered : list Change) (st : LoopState) :
  emits (λ _, True) (stack_loop stack_prefix known ordered st).
Proof.
  revert st. induction ordered as [|change ordered IH]; intros st; simpl.
  - apply emits_ret.
  - apply emits_bind; [apply stack_step_emits | intros st'; apply IH].
Qed.

Lemma stack_loop_starts (stack_prefix : string) (known : KnownChangeIDs)
    (change : Change) (ordered : list Change) (st : LoopState) :
  starts_with_mutation (stack_loop stack_prefix known (change :: ordered) st).
Proof.
  simpl. apply starts_bind; [|intros st'; apply stack_loop_emits].
  destruct change as [[[changeid commit] title] message]. unfold stack_step.
  apply starts_bind; [apply create_or_update_stack_starts|intros pull; apply emits_ret].
Qed.

Lemma stack_step_state (stack_prefix : string) (known : KnownChangeIDs)
    (st st' : LoopState) (change : Change) (w w' : World) :
  stack_step stack_prefix known st change w = (w', inr st') →
  stacked_base_branch st' = stack_prefix +:+ change_id change
  ∧ draft st' = true
  ∧ ∃ pull, pulls st' = pulls st ++ [pull].
Proof.
  destruct change as [[[changeid commit] title] message]. unfold stack_step.
  intros H. apply bindM_inv_ok in H as (pull & w1 & _ & [= _ <-]).
  simpl. eauto.
Qed.

Lemma stack_loop_app (stack_prefix : string) (known : KnownChangeIDs)
    (pre post : list Change) (st : LoopState) (w : World) :
  stack_loop stack_prefix known (pre ++ post) st w
  = bindM (stack_loop stack_prefix known pre st)
          (stack_loop stack_prefix known post) w.
Proof.
  revert st w. induction pre as [|change pre IH]; intros st w; simpl.
  - reflexivity.
  - unfold bindM in *.
    destruct (stack_step stack_prefix known st change w) as [w1 [e|st1]];
      [reflexivity|]. apply IH.
Qed.

(** The variables of the loop after the changes [pre]: the base branch is
    the branch of the last of them, and the draft flag is on as soon as
    there is one. *)
Lemma stack_loop_state (stack_prefix : string) (known : KnownChangeIDs)
    (pre : list Change) (st st1 : LoopState) (w w1 : World) :
  stack_loop stack_prefix known pre st w = (w1, inr st1) →
  stacked_base_branch st1
    = match last pre with
      | Some previous => stack_prefix +:+ change_id previous
      | None => stacked_base_branch st
      end
  ∧ draft st1 = match pre with [] => draft st | _ :: _ => true end
  ∧ length (pulls st1) = (length (pulls st) + length pre)%nat.
Proof.
  revert st w. induction pre as [|change pre IH]; intros st w H; simpl in H.
  { injection H as _ <-. simpl. repeat split; lia. }
  apply bindM_inv_ok in H as (st' & w' & Hstep & H).
  apply stack_step_state in Hstep as (Hbase & Hdraft & pull & Hpulls).
  apply IH in H as (Hb & Hd & Hl).
  rewrite last_cons. repeat split.
  - rewrite Hb. destruct (last pre); [reflexivity | exact Hbase].
  - rewrite Hd. by destruct pre.
  - rewrite Hl, Hpulls, length_app. simpl. lia.
Qed.

(** The run of the loop seen from one of its changes: once the changes
    before it went through, leaving [st], the change is handed to
    [create_or_update_stack] with the base branch and the draft flag of
    [st], and the loop goes on with the draft flag on. *)
Lemma stack_loop_at (stack_prefix : string) (known : KnownChangeIDs)
    (pre post : list Change) (changeid commit title message : string)
    (st0 st : LoopState) (w w1 : World) :
  stack_loop stack_prefix known pre st0 w = (w1, inr st) →
  stack_loop stack_prefix known (pre ++ (changeid, commit, title, message) :: post) st0 w
  = (pull ← create_or_update_stack (stacked_base_branch st)
              (stack_prefix +:+ changeid) changeid commit title
              (message +:+ depends_on_of (pulls st)) (draft st) known;
     stack_loop stack_prefix known post
       {| stacked_base_branch := stack_prefix +:+ changeid;
          draft := true;
          pulls := pulls st ++ [pull] |}) w1.
Proof.
  intros H. rewrite stack_loop_app. erewrite bindM_ok by exact H.
  cbn [stack_loop]. unfold bindM at 1. rewrite stack_step_run. unfold bindM.
  by destruct (create_or_update_stack _ _ _ _ _ _ _ _ w1) as [w2 [e|pull]].
Qed.

End BuilderFacts.

(** ** The comment synchronizer and the pruner *)

Section SyncFacts.
Context {http : Client} {vcs : Git}.

Lemma client_send_run (rq : Request) (w : World) :
  client_send rq w
  = ({| console := console w; requests := requests w ++ [rq];
        remote := (send (remote w) rq).1 |}, inr (send (remote w) rq).2).
Proof. unfold client_send. by destruct (send (remote w) rq). Qed.

(** What the inner loop writes: a patch of the first comment that starts
    with the header when its body differs, nothing when it is the same, a
    new comment when no comment starts with the header. *)
Lemma sync_comment_requests (body : string) (pull : PullRequest)
    (comments : list Comment) (w w' : World) (res : Abort + unit) :
  sync_comment body pull comments w = (w', res) →
  res = inr tt
  ∧ console w' = console w
  ∧ requests w' = requests w ++
      match stack_comment comments with
      | Some comment =>
          if decide (comment_body comment = body) then []
          else [patch_request comment body]
      | None => [post_request pull body]
      end.
Proof.
  induction comments as [|comment comments IH]; simpl.
  - unfold client_post, bindM. rewrite client_send_run. by intros [= <- <-].
  - unfold stack_comment. simpl.
    destruct (startswith (comment_body comment) first_line); [|exact IH].
    destruct (decide (comment_body comment ≠ body)) as [Hne|Heq].
    + rewrite decide_False by done.
      unfold client_patch, bindM. rewrite client_send_run. by intros [= <- <-].
    + apply dec_stable in Heq. rewrite decide_True by done.
      intros [= <- <-]. by rewrite app_nil_r.
Qed.

Lemma sync_comment_remote (body : string) (pull : PullRequest)
    (comments : list Comment) (w w' : World) (res : Abort + unit) :
  sync_comment body pull comments w = (w', res) →
  remote w' =
    match stack_comment comments with
    | Some comment =>
        if decide (comment_body comment = body) then remote w
        else (send (remote w) (patch_request comment body)).1
    | None => (send (remote w) (post_request pull body)).1
    end.
Proof.
  induction comments as [|comment comments IH]; simpl.
  - unfold client_post, bindM. rewrite client_send_run. by intros [= <- _].
  - unfold stack_comment. simpl.
    destruct (startswith (comment_body comment) first_line); [|exact IH].
    destruct (decide (comment_body comment ≠ body)) as [Hne|Heq].
    + rewrite decide_False by done.
      unfold client_patch, bindM. rewrite client_send_run. by intros [= <- _].
    + apply dec_stable in Heq. rewrite decide_True by done. by intros [= <- _].
Qed.

Lemma sync_comment_in_sync (body : string) (pull : PullRequest)
    (comments : list Comment) (comment : Comment) (w : World) :
  stack_comment comments = Some comment → comment_body comment = body →
  sync_comment body pull comments w = (w, inr tt).
Proof.
  unfold stack_comment. intros Hfind Hbody.
  induction comments as [|c comments IH]; simpl in *; [discriminate|].
  destruct (startswith (comment_body c) first_line); [|by apply IH].
  injection Hfind as ->. by rewrite decide_False by (by intros []).
Qed.

Lemma sync_comment_emits (body : string) (pull : PullRequest)
    (comments : list Comment) :
  emits (λ _, True) (sync_comment body pull comments).
Proof.
  intros w w' res H. apply sync_comment_requests in H as (_ & _ & ->).
  eexists. split; [reflexivity|]. by apply Forall_forall.
Qed.

Lemma create_or_update_comments_emits (pulls : list PullRequest) :
  emits (λ _, True) (create_or_update_comments pulls).
Proof.
  unfold create_or_update_comments. apply emits_for_each. intros pull.
  apply emits_bind; [by apply emits_send|intros r].
  apply emits_bind; [apply check_for_status_emits|intros _].
  apply sync_comment_emits.
Qed.

Lemma comments_loop_in_sync (body : string) (todo : list PullRequest) (w : World) :
  (∀ pull, pull ∈ todo → in_sync (remote w) body pull) →
  for_each todo (λ pull,
    r ← client_get ("issues/" +:+ number pull +:+ "/comments") NoPayload;
    check_for_status r;;
    sync_comment body pull (json_comments r)) w
  = ({| console := console w;
        requests := requests w ++ (comments_request <$> todo);
        remote := remote w |}, inr tt).
Proof.
  revert w. induction todo as [|pull todo IH]; intros w Hs; simpl.
  - destruct w. simpl. by rewrite app_nil_r.
  - destruct (Hs pull) as (Hsame & Hok & comment & Hfind & Hbody); [by left|].
    unfold client_get. fold (comments_request pull).
    erewrite bindM_ok; cycle 1.
    { erewrite bindM_ok by apply client_send_run.
      erewrite bindM_ok by (by apply check_for_status_ok).
      by eapply sync_comment_in_sync. }
    rewrite IH; simpl.
    + by rewrite Hsame, <- app_assoc.
    + rewrite Hsame. intros p Hp. apply Hs. by right.
Qed.

(** On a remote where the stack is unchanged the synchronizer only reads. *)
Lemma comments_synced_run (pulls : list PullRequest) (w : World) :
  synced (remote w) pulls →
  create_or_update_comments pulls w
  = ({| console := console w;
        requests := requests w ++ (comments_request <$> pulls);
        remote := remote w |}, inr tt).
Proof. intros Hs. by apply comments_loop_in_sync. Qed.

Lemma get_changeids_to_delete_run (changes : list Change) (known : KnownChangeIDs)
    (w : World) :
  let to_delete : gset string := dom known ∖ list_to_set (change_id <$> changes) in
  get_changeids_to_delete changes known w
  = (add_console w (delete_line known <$> elements to_delete), inr to_delete).
Proof.
  simpl. unfold get_changeids_to_delete.
  by erewrite bindM_ok by apply for_each_emit.
Qed.

Lemma delete_stack_result (stack_prefix changeid : string) (known : KnownChangeIDs)
    (w w' : World) (res : Abort + unit) :
  is_Some (known !! changeid) →
  delete_stack stack_prefix changeid known w = (w', res) →
  res = inr tt ∨ res = inl (SystemExit 1) ∨ res = inl HTTPStatusError.
Proof.
  intros [pull Hk] H. unfold delete_stack in H. rewrite Hk in H.
  apply bindM_inv in H as [(e & H & _)|(r & w1 & _ & H)].
  { unfold client_delete in H. rewrite client_send_run in H. discriminate. }
  apply bindM_inv in H as [(e & H & ->)|([] & w2 & _ & H)].
  { apply check_for_status_result in H as [?|[?|?]]; [discriminate|auto|auto]. }
  destruct pull; injection H as _ <-; by left.
Qed.

Lemma delete_stack_emits (stack_prefix changeid : string) (known : KnownChangeIDs) :
  emits (λ _, True) (delete_stack stack_prefix changeid known).
Proof.
  unfold delete_stack.
  apply emits_bind; [by apply emits_send|intros r].
  apply emits_bind; [apply check_for_status_emits|intros _].
  destruct (known !! changeid) as [[pull|]|];
    [apply emits_emit | apply emits_emit | apply emits_raise].
Qed.

Lemma as_task_emits (P : Request → Prop) (m : M unit) :
  emits P m → emits P (as_task m).
Proof.
  intros Hm w w' res H. unfold as_task in H.
  destruct (m w) as [w1 r] eqn:Hr. apply Hm in Hr.
  by destruct r as [[]|]; injection H as <- _.
Qed.

(** A run that is not dry and reads at least one commit reaches the
    builder, whose first request moves or creates a branch. *)
Lemma main_reconcile_starts (stack_prefix base_branch : string)
    (commits : list string) (known : KnownChangeIDs) :
  Forall readable commits → commits ≠ [] →
  starts_with_mutation (main_reconcile false stack_prefix base_branch commits known).
Proof.
  intros Hread Hne w w' res H. unfold main_reconcile in H.
  erewrite bindM_ok in H by apply emit_run.
  erewrite bindM_ok in H by apply emit_run.
  erewrite bindM_ok in H by (by apply local_changes_readable).
  erewrite bindM_ok in H by apply get_changeids_to_delete_run.
  erewrite bindM_ok in H by reflexivity.
  erewrite bindM_ok in H by apply emit_run.
  destruct (reverse (local_change <$> commits)) as [|change ordered] eqn:Hrev.
  { apply (f_equal length) in Hrev.
    rewrite length_reverse, length_fmap in Hrev. by destruct commits. }
  eapply (starts_bind _ _ (stack_loop_starts _ _ _ _ _)) in H; [exact H|].
  intros st.
  apply emits_bind; [apply emits_emit|intros _].
  apply emits_bind; [apply create_or_update_comments_emits|intros _].
  apply emits_bind; [apply emits_emit|intros _].
  apply emits_bind; [apply emits_emit|intros _].
  apply emits_bind; [|intros _; apply emits_emit].
  apply emits_for_each. intros changeid. apply as_task_emits, delete_stack_emits.
Qed.

End SyncFacts.

(** ** Properties of the reconciliation engine *)

Lemma findall_matches (s tok : string) :
  tok ∈ CHANGEID_RE_findall s →
  ∃ p, CHANGEID_RE_match (str_drop p s) = Some tok.
Proof.
  remember (String.length s) as n eqn:Hn.
  assert (Hle : (String.length s ≤ n)%nat) by lia. clear Hn.
  revert s Hle. induction n as [|n IH]; intros s Hle Hin.
  { destruct s; [|simpl in Hle; lia]. by apply elem_of_nil in Hin. }
  destruct s as [|c s]; [by apply elem_of_nil in Hin|].
  rewrite findall_cons in Hin.
  destruct (CHANGEID_RE_match (String c s)) as [tok'|] eqn:Hm.
  - apply elem_of_cons in Hin as [->|Hin]; [by exists 0%nat|].
    apply IH in Hin as [p Hp].
    + exists (match_length + p)%nat. by rewrite <- str_drop_drop.
    + rewrite str_drop_length. simpl in *. lia.
  - apply IH in Hin as [p Hp]; [by exists (S p)|]. simpl in Hle. lia.
Qed.

Section Properties.
Context {http : Client} {vcs : Git}.

(** C1, as amended. Whenever [get_local_changes] returns, it has logged one
    plan line per change, and the action of a line is: [nothing] exactly
    when the identifier is a key of the index mapped to a pull request whose
    head SHA is the commit SHA; [to update] exactly when it is mapped to a
    pull request with another head SHA; [to create] exactly when it is
    absent from the index or is a key mapped to no pull request. One of the
    three always applies, and no two do. *)
Theorem plan_classification (commits : list string) (known : KnownChangeIDs)
    (w w' : World) (changes : list Change) :
  get_local_changes commits known w = (w', inr changes) →
  console w' = console w ++ (plan_line known <$> changes)
  ∧ ∀ changeid commit : string,
      let action := (plan_action known changeid commit).1.1 in
      (action = "nothing"
         ↔ ∃ pull, known !! changeid = Some (Some pull) ∧ sha (head pull) = commit)
      ∧ (action = "to update"
         ↔ ∃ pull, known !! changeid = Some (Some pull) ∧ sha (head pull) ≠ commit)
      ∧ (action = "to create"
         ↔ known !! changeid = None ∨ known !! changeid = Some None)
      ∧ (action = "nothing" ∨ action = "to update" ∨ action = "to create").
Proof.
  intros H. split; [|intros changeid commit; apply plan_action_cases].
  pose proof (local_changes_returned _ _ _ _ _ _ H) as Hread.
  rewrite (local_changes_readable _ _ _ Hread) in H.
  by injection H as <- <-.
Qed.

(** C2. The set [get_changeids_to_delete] returns holds exactly the keys of
    the index that no local change carries: every such key is in it, a key
    mapped to no pull request included, and no identifier of a local change
    is. The function always returns, and only writes to the console. *)
Theorem delete_set_is_difference (changes : list Change) (known : KnownChangeIDs)
    (w : World) :
  ∃ to_delete : gset string,
    get_changeids_to_delete changes known w
    = (add_console w (delete_line known <$> elements to_delete), inr to_delete)
    ∧ (∀ changeid,
         changeid ∈ to_delete
         ↔ is_Some (known !! changeid)
           ∧ ¬ ∃ change, change ∈ changes ∧ change_id change = changeid)
    ∧ (∀ changeid,
         known !! changeid = Some None →
         (∀ change, change ∈ changes → change_id change ≠ changeid) →
         changeid ∈ to_delete)
    ∧ (∀ change, change ∈ changes → change_id change ∉ to_delete).
Proof.
  eexists. split; [apply get_changeids_to_delete_run|].
  assert (Hiff : ∀ changeid,
    changeid ∈ dom known ∖ (list_to_set (change_id <$> changes) : gset string)
    ↔ is_Some (known !! changeid)
      ∧ ¬ ∃ change, change ∈ changes ∧ change_id change = changeid).
  { intros changeid.
    rewrite elem_of_difference, elem_of_dom, elem_of_list_to_set, list_elem_of_fmap.
    split; intros [Hk Hn]; (split; [done|]); intros (change & ? & ?); apply Hn; eauto. }
  split; [exact Hiff|]. split.
  - intros changeid Hk Hn. apply Hiff. split; [by rewrite Hk|].
    intros (change & Hin & Heq). by apply (Hn change).
  - intros change Hin Hd. apply Hiff in Hd as [_ Hn]. apply Hn. eauto.
Qed.

(** C10. Every identifier of the delete set is a key of the index, so the
    lookup of [delete_stack] finds it: the deletion of such an identifier
    ends normally, or with the exit or the HTTP error of the status check,
    never with a key error. *)
Theorem delete_lookup_succeeds (changes : list Change) (known : KnownChangeIDs)
    (w w' : World) (to_delete : gset string) (changeid : string) :
  get_changeids_to_delete changes known w = (w', inr to_delete) →
  changeid ∈ to_delete →
  is_Some (known !! changeid)
  ∧ ∀ stack_prefix w1 w2 res,
      delete_stack stack_prefix changeid known w1 = (w2, res) →
      (res = inr tt ∨ res = inl (SystemExit 1) ∨ res = inl HTTPStatusError)
      ∧ ∀ key, res ≠ inl (KeyError key).
Proof.
  intros H Hin. rewrite get_changeids_to_delete_run in H. injection H as _ <-.
  apply elem_of_difference in Hin as [Hdom _]. apply elem_of_dom in Hdom.
  split; [exact Hdom|]. intros stack_prefix w1 w2 res Hrun.
  apply delete_stack_result in Hrun; [|exact Hdom].
  split; [exact Hrun|]. intros key. destruct Hrun as [->|[->| ->]]; discriminate.
Qed.

(** C3. Take the changes of a run oldest first and look at any one of them,
    with [pre] the changes before it. If the loop went through [pre], the
    change is handed to [create_or_update_stack] with the upstream base
    branch when it is the first, and otherwise with the branch of the
    change before it, which is the stack prefix followed by that change's
    identifier; its own branch is the stack prefix followed by its own
    identifier. Every pull request the call opens or updates is asked
    between these two branches. *)
Theorem chain_integrity (stack_prefix base_branch : string) (known : KnownChangeIDs)
    (pre post : list Change) (changeid commit title message : string)
    (w w1 : World) (st : LoopState) :
  stack_loop stack_prefix known pre (initial_state base_branch) w = (w1, inr st) →
  let base :=
    match last pre with
    | None => base_branch
    | Some previous => stack_prefix +:+ change_id previous
    end in
  let dest := stack_prefix +:+ changeid in
  stack_loop stack_prefix known (pre ++ (changeid, commit, title, message) :: post)
    (initial_state base_branch) w
  = (pull ← create_or_update_stack base dest changeid commit title
              (message +:+ depends_on_of (pulls st)) (draft st) known;
     stack_loop stack_prefix known post
       {| stacked_base_branch := dest; draft := true;
          pulls := pulls st ++ [pull] |}) w1
  ∧ emits (λ rq, ∀ hb, pull_branches rq = Some hb → hb = (dest, base))
      (create_or_update_stack base dest changeid commit title
         (message +:+ depends_on_of (pulls st)) (draft st) known).
Proof.
  intros H base dest.
  pose proof (stack_loop_state _ _ _ _ _ _ _ H) as (Hbase & _ & _).
  assert (Hb : stacked_base_branch st = base).
  { rewrite Hbase. subst base. by destruct (last pre). }
  split.
  - rewrite (stack_loop_at _ _ _ _ _ _ _ _ _ _ _ _ H). by rewrite Hb.
  - eapply emits_weaken; [|apply create_or_update_stack_emits].
    intros rq (Hrq & _). exact Hrq.
Qed.

(** C4. In the same setting the change is handed to [create_or_update_stack]
    with the draft flag off when it is the first and on otherwise, and the
    loop goes on with the flag on. A pull request the call opens carries
    that flag; the ready-for-review transition is requested only for the
    first change, and only when the index maps its identifier to a pull
    request with another head SHA, that is on an update. *)
Theorem draft_after_first (stack_prefix base_branch : string) (known : KnownChangeIDs)
    (pre post : list Change) (changeid commit title message : string)
    (w w1 : World) (st : LoopState) :
  stack_loop stack_prefix known pre (initial_state base_branch) w = (w1, inr st) →
  let draft_flag := match pre with [] => false | _ :: _ => true end in
  stack_loop stack_prefix known (pre ++ (changeid, commit, title, message) :: post)
    (initial_state base_branch) w
  = (pull ← create_or_update_stack (stacked_base_branch st)
              (stack_prefix +:+ changeid) changeid commit title
              (message +:+ depends_on_of (pulls st)) draft_flag known;
     stack_loop stack_prefix known post
       {| stacked_base_branch := stack_prefix +:+ changeid; draft := true;
          pulls := pulls st ++ [pull] |}) w1
  ∧ emits (λ rq,
        (∀ d, requested_draft rq = Some d → d = draft_flag)
        ∧ (is_ready_for_review rq →
             pre = []
             ∧ ∃ pull, known !! changeid = Some (Some pull)
                       ∧ sha (head pull) ≠ commit))
      (create_or_update_stack (stacked_base_branch st)
         (stack_prefix +:+ changeid) changeid commit title
         (message +:+ depends_on_of (pulls st)) draft_flag known).
Proof.
  intros H draft_flag.
  pose proof (stack_loop_state _ _ _ _ _ _ _ H) as (_ & Hdraft & _).
  assert (Hd : draft st = draft_flag) by (rewrite Hdraft; by destruct pre).
  split.
  - rewrite (stack_loop_at _ _ _ _ _ _ _ _ _ _ _ _ H). by rewrite Hd.
  - eapply emits_weaken; [|apply create_or_update_stack_emits].
    intros rq (_ & Hflag & Hready). split; [exact Hflag|].
    intros Hr. destruct (Hready Hr) as [Hoff Hup]. split; [|exact Hup].
    subst draft_flag. by destruct pre.
Qed.

(** C7. When the pattern occurs somewhere in the message body, the
    identifier of the commit is the occurrence that starts last. When it
    occurs nowhere, the extraction prints the line naming the commit and
    exits with status 1, and so do [get_local_changes] and the whole run,
    with no request made, once the commits before this one were read. *)
Theorem last_trailer_or_abort (commit : string) (w : World) :
  (∀ message,
     (∃ p tok, CHANGEID_RE_match (str_drop p message) = Some tok) →
     ∃ p tok,
       extract_changeid commit message w = (w, inr tok)
       ∧ CHANGEID_RE_match (str_drop p message) = Some tok
       ∧ ∀ q, (p < q)%nat → CHANGEID_RE_match (str_drop q message) = None)
  ∧ (∀ message,
       (∀ p, CHANGEID_RE_match (str_drop p message) = None) →
       extract_changeid commit message w
       = (add_console w
            [Print ("`Change-Id:` line is missing on commit " +:+ commit) "red"],
          inl (SystemExit 1)))
  ∧ (∀ pre post known dry_run stack_prefix base_branch,
       Forall readable pre →
       git_ok (body_command commit) → git_ok (title_command commit) →
       (∀ p, CHANGEID_RE_match (str_drop p (commit_body commit)) = None) →
       let report :=
         (plan_line known <$> (local_change <$> pre))
         ++ [Print ("`Change-Id:` line is missing on commit " +:+ commit) "red"] in
       get_local_changes (pre ++ commit :: post) known w
       = (add_console w report, inl (SystemExit 1))
       ∧ main_reconcile dry_run stack_prefix base_branch (pre ++ commit :: post) known w
         = (add_console w
              (Status "Preparing stacked branches..."
                 :: Log "Stacked pull request plan:" "green" :: report),
            inl (SystemExit 1))).
Proof.
  split; [|split].
  - intros message (p0 & tok0 & H0).
    destruct (findall_last_occurrence message)
      as [[_ Hno]|(p & tok & Hne & Hlast & Hp & Hafter)].
    { rewrite Hno in H0. discriminate. }
    exists p, tok. split; [|done].
    rewrite extract_changeid_found by done. by rewrite Hlast.
  - intros message Hno. apply extract_changeid_missing.
    destruct (findall_last_occurrence message)
      as [[Hnil _]|(p & tok & _ & _ & Hp & _)]; [done|].
    rewrite Hno in Hp. discriminate.
  - intros pre post known dry_run stack_prefix base_branch Hpre Hb Ht Hno report.
    assert (Hnil : CHANGEID_RE_findall (commit_body commit) = []).
    { destruct (findall_last_occurrence (commit_body commit))
        as [[Hnil _]|(p & tok & _ & _ & Hp & _)]; [done|].
      rewrite Hno in Hp. discriminate. }
    assert (Hrun : ∀ w0, get_local_changes (pre ++ commit :: post) known w0
                         = (add_console w0 report, inl (SystemExit 1))).
    { intros w0. unfold get_local_changes.
      rewrite local_changes_readable_prefix by done. simpl.
      erewrite bindM_ok by (by apply git_run_ok).
      erewrite bindM_ok by (by apply git_run_ok).
      erewrite bindM_abort by (by apply extract_changeid_missing).
      by rewrite add_console_app. }
    split; [apply Hrun|]. unfold main_reconcile.
    erewrite bindM_ok by apply emit_run.
    erewrite bindM_ok by apply emit_run.
    erewrite bindM_abort by apply Hrun.
    by rewrite !add_console_app.
Qed.

(** C9. A branch name made of the stack prefix and an identifier, read back
    the way [get_changeid_and_pull] reads the reference of that branch,
    gives the identifier again: for every prefix and every identifier, and
    so for every identifier the pattern accepts. *)
Theorem branch_name_round_trip (stack_prefix changeid user : string) (w : World) :
  let stacked_dest_branch := stack_prefix +:+ changeid in
  let r := {| ref := "refs/heads/" +:+ stacked_dest_branch |} in
  changeid_of_branch stack_prefix (branch_of_ref r) = changeid
  ∧ match (get_changeid_and_pull user stack_prefix r w).2 with
    | inr (found, _) => found = changeid
    | inl _ => True
    end.
Proof.
  intros stacked_dest_branch r.
  assert (Hrt : changeid_of_branch stack_prefix (branch_of_ref r) = changeid).
  { unfold changeid_of_branch, branch_of_ref, r, stacked_dest_branch. simpl ref.
    by rewrite !str_drop_app. }
  split; [exact Hrt|].
  unfold get_changeid_and_pull, client_get, bindM. rewrite client_send_run.
  destruct (check_for_status _ _) as [w2 [e|[]]]; [done|].
  destruct (1 <? _)%nat; [done|].
  by destruct (filter _ _).
Qed.

(** C8. For each pull request of the stack the synchronizer looks at the
    first comment that starts with the header line: it patches that comment
    when its body differs from the canonical body, writes nothing when the
    body is the same, and posts a new comment when no comment starts with
    the header line; it makes no other request there. So on a remote where
    the stack is unchanged since its comments were written, a run of the
    synchronizer returns having only listed the comments: it performs no
    write. *)
Theorem comment_sync_idempotent (pulls : list PullRequest) (w : World) :
  (∀ pull comments w0 w1 res,
     sync_comment (comment_body_of pulls) pull comments w0 = (w1, res) →
     res = inr tt
     ∧ requests w1 = requests w0 ++
         match stack_comment comments with
         | Some comment =>
             if decide (comment_body comment = comment_body_of pulls) then []
             else [patch_request comment (comment_body_of pulls)]
         | None => [post_request pull (comment_body_of pulls)]
         end)
  ∧ (synced (remote w) pulls →
     create_or_update_comments pulls w
     = ({| console := console w;
           requests := requests w ++ (comments_request <$> pulls);
           remote := remote w |}, inr tt)
     ∧ Forall (λ rq, is_mutation rq = false) (comments_request <$> pulls)).
Proof.
  split.
  - intros pull comments w0 w1 res H.
    by apply sync_comment_requests in H as (? & _ & ?).
  - intros Hs. split; [by apply comments_synced_run|].
    apply Forall_fmap, Forall_forall. by intros pull _.
Qed.

End Properties.

(** C6, as amended. The pattern matches at the start of a string exactly
    when the string is the keyword followed by a token made of the capital
    letter I and forty characters that are digits or lower-case letters a
    to z; the group is that token. [findall] returns such a token for a
    string that starts so, and returns nothing but such tokens. *)
Theorem changeid_token_shape (s tok : string) :
  (CHANGEID_RE_match s = Some tok
     ↔ token_shape tok ∧ ∃ rest, s = keyword +:+ tok +:+ rest)
  ∧ (token_shape tok →
       ∀ rest, CHANGEID_RE_findall (keyword +:+ tok +:+ rest)
               = tok :: CHANGEID_RE_findall rest)
  ∧ (tok ∈ CHANGEID_RE_findall s → token_shape tok).
Proof.
  split; [|split].
  - split.
    + intros H. split; [by eapply match_shape|].
      destruct (match_inv _ _ H) as (t & _ & Hs & _). eauto.
    + intros (Hshape & rest & ->). by apply match_intro.
  - intros Hshape rest.
    pose proof (match_intro tok rest Hshape) as Hm.
    destruct Hshape as (t & -> & Hlen & _).
    change (keyword +:+ String "I" t +:+ rest)
      with (String "C" ("hange-Id: " +:+ String "I" t +:+ rest)) in *.
    rewrite findall_cons, Hm. f_equal. f_equal.
    change (String "C" ("hange-Id: " +:+ String "I" t +:+ rest))
      with ("Change-Id: I" +:+ (t +:+ rest)).
    change match_length with (String.length "Change-Id: I" + 40)%nat.
    rewrite <- str_drop_drop, str_drop_app, <- Hlen. apply str_drop_app.
  - intros Hin. apply findall_matches in Hin as [p Hp]. by eapply match_shape.
Qed.

(** ** The synchronizer on the reference remote *)

Section ReferenceFacts.
Import Reference.
Context {vcs : Git}.

Lemma comment_body_header (pulls : list PullRequest) :
  startswith (comment_body_of pulls) first_line = true.
Proof.
  unfold comment_body_of, startswith.
  assert (H : ∀ acc, String.prefix first_line acc = true →
    String.prefix first_line
      (foldl (λ body pull,
                body +:+ "1. " +:+ title pull +:+ " ([#" +:+ number pull +:+ "]("
                  +:+ html_url pull +:+ "))" +:+ nl) acc pulls) = true).
  { induction pulls as [|pull pulls IH]; intros acc Hacc; [exact Hacc|].
    simpl. apply IH. by apply prefix_weaken. }
  apply H. by vm_compute.
Qed.

Lemma stack_comment_app (l1 l2 : list Comment) :
  stack_comment (l1 ++ l2)
  = match stack_comment l1 with
    | Some comment => Some comment
    | None => stack_comment l2
    end.
Proof.
  unfold stack_comment. induction l1 as [|c l1 IH]; simpl; [reflexivity|].
  by destruct (startswith (comment_body c) first_line).
Qed.

(** Rewriting the comments at one URL to a body that starts with the header
    keeps, and gives, a first such comment with that body. *)
Lemma stack_comment_patch (u body : string) (l : list Comment) (comment : Comment) :
  startswith body first_line = true →
  stack_comment l = Some comment →
  comment_url comment = u ∨ comment_body comment = body →
  ∃ comment', stack_comment (patch_comment u body <$> l) = Some comment'
              ∧ comment_body comment' = body.
Proof.
  unfold stack_comment. intros Hb Hfind Hor.
  induction l as [|c l IH]; [discriminate|].
  rewrite fmap_cons. simpl in Hfind |- *.
  destruct (decide (comment_url c = u)) as [Hu|Hu].
  - assert (Hpc : patch_comment u body c
                  = {| comment_url := comment_url c; comment_body := body |})
      by (unfold patch_comment; by rewrite decide_True).
    rewrite Hpc. simpl. rewrite Hb. eauto.
  - assert (Hpc : patch_comment u body c = c)
      by (unfold patch_comment; by rewrite decide_False).
    rewrite Hpc.
    destruct (startswith (comment_body c) first_line); [|by apply IH].
    injection Hfind as ->. exists comment. split; [done|].
    by destruct Hor.
Qed.

Lemma store_get (s : Store) (pull : PullRequest) :
  comment_store_send s (comments_request pull)
  = (s, reply (a_pull "0" "" "")
          (default [] (issue_comments s !! url (comments_request pull)))).
Proof. reflexivity. Qed.

Lemma holds_in_sync (body : string) (s : Store) (pull : PullRequest) :
  holds body s (url (comments_request pull)) →
  in_sync (http := comment_store) s body pull.
Proof.
  intros (comment & Hfind & Hbody). unfold in_sync. simpl send.
  rewrite store_get. simpl. split; [done|]. split; [lia|]. eauto.
Qed.

Lemma holds_after_post (body : string) (s : Store) (pull : PullRequest) (u : string) :
  startswith body first_line = true →
  holds body s u
  ∨ (u = url (post_request pull body)
     ∧ stack_comment (default [] (issue_comments s !! u)) = None) →
  holds body (comment_store_send s (post_request pull body)).1 u.
Proof.
  intros Hb Hcase. unfold holds. simpl.
  destruct (decide (u = "issues/" +:+ number pull +:+ "/comments")) as [->|Hne].
  - rewrite lookup_insert_eq. simpl. rewrite stack_comment_app.
    destruct Hcase as [(comment & -> & Hbody)|[_ ->]]; [by exists comment|].
    unfold stack_comment. simpl. rewrite Hb. eexists; split; reflexivity.
  - rewrite lookup_insert_ne by done.
    destruct Hcase as [H|[? _]]; [exact H | done].
Qed.

Lemma holds_after_patch (body : string) (s : Store) (target : Comment) (u : string) :
  startswith body first_line = true →
  holds body s u
  ∨ stack_comment (default [] (issue_comments s !! u)) = Some target →
  holds body (comment_store_send s (patch_request target body)).1 u.
Proof.
  intros Hb. unfold holds. simpl. rewrite lookup_fmap.
  destruct (issue_comments s !! u) as [l|]; simpl; intros Hcase.
  - destruct Hcase as [(comment & Hfind & Hbody)|Hfind].
    + apply (stack_comment_patch _ _ _ comment Hb Hfind). by right.
    + apply (stack_comment_patch _ _ _ target Hb Hfind). by left.
  - destruct Hcase as [(comment & Hfind & _)|Hfind]; discriminate.
Qed.

(** One round of the synchronizer on the reference remote: it returns, the
    pull request it visited holds the body, and what held before holds
    after. *)
Lemma reference_sync_round (body : string) (pull : PullRequest)
    (w : World (http := comment_store)) :
  startswith body first_line = true →
  ∃ w', (r ← client_get ("issues/" +:+ number pull +:+ "/comments") NoPayload;
         check_for_status r;;
         sync_comment body pull (json_comments r)) w = (w', inr tt)
        ∧ holds body (remote w') (url (comments_request pull))
        ∧ ∀ u, holds body (remote w) u → holds body (remote w') u.
Proof.
  intros Hb. unfold client_get. fold (comments_request pull).
  erewrite bindM_ok by apply client_send_run.
  erewrite bindM_ok by (by apply check_for_status_ok).
  simpl send. rewrite store_get. simpl.
  set (here := default [] (issue_comments (remote w) !! _)).
  set (w1 := {| console := console w; requests := _; remote := remote w |}).
  destruct (sync_comment body pull here w1) as [w' res] eqn:Hrun.
  pose proof (sync_comment_requests _ _ _ _ _ _ Hrun) as (-> & _ & _).
  apply sync_comment_remote in Hrun. simpl in Hrun.
  exists w'. split; [done|]. rewrite Hrun.
  destruct (stack_comment here) as [comment|] eqn:Hfind.
  - destruct (decide (comment_body comment = body)) as [Heq|Hne].
    + split; [|done]. by exists comment.
    + split; [|intros u Hu]; apply holds_after_patch; auto.
  - split; [|intros u Hu]; apply holds_after_post; auto.
Qed.

Lemma reference_sync_loop (body : string) (todo : list PullRequest)
    (w : World (http := comment_store)) :
  startswith body first_line = true →
  ∃ w', for_each todo (λ pull,
          r ← client_get ("issues/" +:+ number pull +:+ "/comments") NoPayload;
          check_for_status r;;
          sync_comment body pull (json_comments r)) w = (w', inr tt)
        ∧ (∀ pull, pull ∈ todo → holds body (remote w') (url (comments_request pull)))
        ∧ ∀ u, holds body (remote w) u → holds body (remote w') u.
Proof.
  intros Hb. revert w. induction todo as [|pull todo IH]; intros w; simpl.
  - exists w. split; [done|]. split; [|done]. intros pull Hin.
    by apply elem_of_nil in Hin.
  - destruct (reference_sync_round body pull w Hb) as (w1 & Hrun & Hpull & Hkeep).
    destruct (IH w1) as (w' & Hloop & Hall & Hkeep').
    exists w'. erewrite bindM_ok by exact Hrun. split; [exact Hloop|].
    split; [|intros u Hu; by apply Hkeep', Hkeep].
    intros p Hin. apply elem_of_cons in Hin as [->|Hin].
    + by apply Hkeep'.
    + by apply Hall.
Qed.

(** On the reference remote the synchronizer is idempotent: it returns, and
    run again on the stack it only lists the comments. *)
Corollary reference_sync_twice (pulls : list PullRequest)
    (w : World (http := comment_store)) :
  ∃ w1,
    create_or_update_comments pulls w = (w1, inr tt)
    ∧ synced (remote w1) pulls
    ∧ create_or_update_comments pulls w1
      = ({| console := console w1;
            requests := requests w1 ++ (comments_request <$> pulls);
            remote := remote w1 |}, inr tt).
Proof.
  destruct (reference_sync_loop (comment_body_of pulls) pulls w)
    as (w1 & Hrun & Hall & _); [apply comment_body_header|].
  exists w1. split; [exact Hrun|].
  assert (Hs : synced (remote w1) pulls).
  { intros pull Hin. by apply holds_in_sync, Hall. }
  split; [exact Hs | by apply comments_synced_run].
Qed.

End ReferenceFacts.

(** ** Concrete runs *)

Section Runs.
Import Reference.

(** C1: the index has the identifier as a key, mapped to no pull request,
    and the plan shows the change as [to create]. *)
Lemma index_key_planned_as_create :
  is_Some (branch_only_index !! token_a)
  ∧ (plan_action branch_only_index token_a "c1c1c1c1").1.1 = "to create"
  ∧ get_local_changes (vcs := two_commits) ["c1c1c1c1"] branch_only_index empty_world
    = (add_console empty_world
         [Log ("* [yellow]\[to create][/] '[red]1c1c1c1[/] - [b]first[/]  - "
                 +:+ token_a) ""],
       inr [first_change]).
Proof.
  split; [|split].
  - unfold branch_only_index. rewrite lookup_singleton_eq. by eexists.
  - reflexivity.
  - reflexivity.
Qed.

(** The plan of two commits against an index that has both: the older one
    is up to date, the newer one is to update. *)
Lemma plan_classification_witness :
  get_local_changes (vcs := two_commits) both_commits published_index empty_world
  = (add_console empty_world
       (plan_line published_index <$> [second_change; first_change]),
     inr [second_change; first_change])
  ∧ (console (add_console empty_world
                (plan_line published_index <$> [second_change; first_change]))
     = console empty_world
       ++ (plan_line published_index <$> [second_change; first_change])
     ∧ ∀ changeid commit : string,
         let action := (plan_action published_index changeid commit).1.1 in
         (action = "nothing"
            ↔ ∃ pull, published_index !! changeid = Some (Some pull)
                      ∧ sha (head pull) = commit)
         ∧ (action = "to update"
            ↔ ∃ pull, published_index !! changeid = Some (Some pull)
                      ∧ sha (head pull) ≠ commit)
         ∧ (action = "to create"
            ↔ published_index !! changeid = None
              ∨ published_index !! changeid = Some None)
         ∧ (action = "nothing" ∨ action = "to update" ∨ action = "to create")).
Proof.
  assert (H : get_local_changes (vcs := two_commits) both_commits published_index empty_world
              = (add_console empty_world
                   (plan_line published_index <$> [second_change; first_change]),
                 inr [second_change; first_change]))
    by reflexivity.
  split; [exact H|].
  exact (plan_classification (vcs := two_commits) _ _ _ _ _ H).
Defined.

(** The second change of a new stack, once the first went through. *)
Lemma chain_integrity_witness :
  stack_loop dev_prefix ∅ [first_change] (initial_state "main") empty_world
  = (after_first, inr state_after_first)
  ∧ (stack_loop dev_prefix ∅ [first_change; second_change] (initial_state "main")
       empty_world
     = (pull ← create_or_update_stack (dev_prefix +:+ token_a)
                 (dev_prefix +:+ token_b) token_b "c2c2c2c2" "second"
                 (("Change-Id: " +:+ token_b)
                    +:+ depends_on_of (pulls state_after_first))
                 (draft state_after_first) ∅;
        stack_loop dev_prefix ∅ []
          {| stacked_base_branch := dev_prefix +:+ token_b; draft := true;
             pulls := pulls state_after_first ++ [pull] |}) after_first
     ∧ emits (λ rq, ∀ hb, pull_branches rq = Some hb
                          → hb = (dev_prefix +:+ token_b, dev_prefix +:+ token_a))
         (create_or_update_stack (dev_prefix +:+ token_a)
            (dev_prefix +:+ token_b) token_b "c2c2c2c2" "second"
            (("Change-Id: " +:+ token_b)
               +:+ depends_on_of (pulls state_after_first))
            (draft state_after_first) ∅)).
Proof.
  assert (H : stack_loop dev_prefix ∅ [first_change] (initial_state "main") empty_world
              = (after_first, inr state_after_first))
    by reflexivity.
  split; [exact H|].
  exact (chain_integrity dev_prefix "main" ∅ [first_change] [] token_b
           "c2c2c2c2" "second" ("Change-Id: " +:+ token_b)
           empty_world after_first state_after_first H).
Defined.

(** The draft flag of the second change of a new stack. *)
Lemma draft_after_first_witness :
  stack_loop dev_prefix ∅ [first_change] (initial_state "main") empty_world
  = (after_first, inr state_after_first)
  ∧ (stack_loop dev_prefix ∅ [first_change; second_change] (initial_state "main")
       empty_world
     = (pull ← create_or_update_stack (stacked_base_branch state_after_first)
                 (dev_prefix +:+ token_b) token_b "c2c2c2c2" "second"
                 (("Change-Id: " +:+ token_b)
                    +:+ depends_on_of (pulls state_after_first))
                 true ∅;
        stack_loop dev_prefix ∅ []
          {| stacked_base_branch := dev_prefix +:+ token_b; draft := true;
             pulls := pulls state_after_first ++ [pull] |}) after_first
     ∧ emits (λ rq,
           (∀ d, requested_draft rq = Some d → d = true)
           ∧ (is_ready_for_review rq →
                [first_change] = []
                ∧ ∃ pull, (∅ : KnownChangeIDs) !! token_b = Some (Some pull)
                          ∧ sha (head pull) ≠ "c2c2c2c2"))
         (create_or_update_stack (stacked_base_branch state_after_first)
            (dev_prefix +:+ token_b) token_b "c2c2c2c2" "second"
            (("Change-Id: " +:+ token_b)
               +:+ depends_on_of (pulls state_after_first))
            true ∅)).
Proof.
  assert (H : stack_loop dev_prefix ∅ [first_change] (initial_state "main") empty_world
              = (after_first, inr state_after_first))
    by reflexivity.
  split; [exact H|].
  exact (draft_after_first dev_prefix "main" ∅ [first_change] [] token_b
           "c2c2c2c2" "second" ("Change-Id: " +:+ token_b)
           empty_world after_first state_after_first H).
Defined.

(** C5: two commits carry the same identifier. [get_local_changes] returns
    both changes. The run, not dry, creates the branch and opens the pull
    request of the older commit; its third request, which creates the same
    branch again for the newer commit, is refused, and the run ends with the
    exit of [check_for_status], the pull request opened. *)
Lemma duplicate_identifiers_run :
  get_local_changes (vcs := two_commits_one_id) both_commits ∅ empty_world
  = (add_console empty_world
       (plan_line ∅ <$> [(token_a, "c2c2c2c2", "second", "Change-Id: " +:+ token_a);
                         first_change]),
     inr [(token_a, "c2c2c2c2", "second", "Change-Id: " +:+ token_a); first_change])
  ∧ (main_reconcile (vcs := two_commits_one_id) false dev_prefix "main"
       both_commits ∅ empty_world).2 = inl (SystemExit 1)
  ∧ requests (main_reconcile (vcs := two_commits_one_id) false dev_prefix
                "main" both_commits ∅ empty_world).1
    = [ {| method := POST; url := "git/refs";
           payload := JsonRefCreate ("refs/heads/" +:+ dev_prefix +:+ token_a)
                        "c1c1c1c1" |};
        {| method := POST; url := "pulls";
           payload := JsonPullCreate "first" ("Change-Id: " +:+ token_a) false
                        (dev_prefix +:+ token_a) "main" |};
        {| method := POST; url := "git/refs";
           payload := JsonRefCreate ("refs/heads/" +:+ dev_prefix +:+ token_a)
                        "c2c2c2c2" |} ]
  ∧ pulls_opened (remote (main_reconcile (vcs := two_commits_one_id) false
                            dev_prefix "main" both_commits ∅ empty_world).1) = 1%nat
  ∧ last (console (main_reconcile (vcs := two_commits_one_id) false dev_prefix
                     "main" both_commits ∅ empty_world).1)
    = Some (Print "HTTPError 422: Reference already exists" "red").
Proof. repeat split; reflexivity. Qed.

(** C6: a capital letter other than I before forty hexadecimal digits has
    the documented shape and is not matched; the letter I before forty
    letters z is matched and is not hexadecimal. *)
Lemma documented_shape_differs :
  (documented_shape token_capital_A
   ∧ CHANGEID_RE_match (keyword +:+ token_capital_A) = None
   ∧ CHANGEID_RE_findall (keyword +:+ token_capital_A) = [])
  ∧ (¬ documented_shape token_z
     ∧ CHANGEID_RE_match (keyword +:+ token_z) = Some token_z
     ∧ CHANGEID_RE_findall (keyword +:+ token_z) = [token_z]).
Proof.
  split; split.
  - exists "A"%char, (replicate_char 40 "0"). split; [reflexivity|].
    split; [unfold is_upper; change (nat_of_ascii "A") with 65%nat; lia|].
    split; [reflexivity|].
    simpl. repeat constructor;
      unfold is_lower_hex; change (nat_of_ascii "0") with 48%nat; lia.
  - split; vm_compute; reflexivity.
  - intros (c & t & Heq & _ & _ & Hall).
    injection Heq as _ <-. simpl in Hall.
    inversion Hall as [|? ? Hz _]. unfold is_lower_hex in Hz.
    change (nat_of_ascii "z") with 122%nat in Hz. lia.
  - split; vm_compute; reflexivity.
Qed.

(** A branch left without a pull request is in the delete set and in the
    index. *)
Lemma delete_lookup_succeeds_witness :
  (get_changeids_to_delete [first_change] stale_index empty_world
   = ((get_changeids_to_delete [first_change] stale_index empty_world).1,
      inr ({[ token_b ]} : gset string))
   ∧ token_b ∈ ({[ token_b ]} : gset string))
  ∧ (is_Some (stale_index !! token_b)
     ∧ ∀ stack_prefix (w1 w2 : World (http := comment_store)) res,
         delete_stack stack_prefix token_b stale_index w1 = (w2, res) →
         (res = inr tt ∨ res = inl (SystemExit 1) ∨ res = inl HTTPStatusError)
         ∧ ∀ key, res ≠ inl (KeyError key)).
Proof.
  assert (H : get_changeids_to_delete [first_change] stale_index empty_world
              = ((get_changeids_to_delete [first_change] stale_index empty_world).1,
                 inr ({[ token_b ]} : gset string)))
    by reflexivity.
  assert (Hin : token_b ∈ ({[ token_b ]} : gset string))
    by (by apply elem_of_singleton).
  split; [by split|].
  exact (delete_lookup_succeeds [first_change] stale_index empty_world _ _ token_b
           H Hin).
Defined.

(** A new stack of two commits: the older one is opened ready for review
    on the upstream base, the newer one as a draft on the branch of the
    older one, with a reference to it; each gets the comment. *)
Example new_stack_run :
  (main_reconcile (vcs := two_commits) false dev_prefix "main" both_commits ∅
     empty_world).2 = inr tt
  ∧ requests (main_reconcile (vcs := two_commits) false dev_prefix "main"
                both_commits ∅ empty_world).1
    = [ {| method := POST; url := "git/refs";
           payload := JsonRefCreate ("refs/heads/" +:+ dev_prefix +:+ token_a)
                        "c1c1c1c1" |};
        {| method := POST; url := "pulls";
           payload := JsonPullCreate "first" ("Change-Id: " +:+ token_a) false
                        (dev_prefix +:+ token_a) "main" |};
        {| method := POST; url := "git/refs";
           payload := JsonRefCreate ("refs/heads/" +:+ dev_prefix +:+ token_b)
                        "c2c2c2c2" |};
        {| method := POST; url := "pulls";
           payload := JsonPullCreate "second"
                        ("Change-Id: " +:+ token_b +:+ nl +:+ nl +:+ "Depends-On: #1")
                        true (dev_prefix +:+ token_b) (dev_prefix +:+ token_a) |};
        comments_request (a_pull "1" "first" "");
        post_request (a_pull "1" "first" "")
          (comment_body_of [a_pull "1" "first" ""; a_pull "2" "second" ""]);
        comments_request (a_pull "2" "second" "");
        post_request (a_pull "2" "second" "")
          (comment_body_of [a_pull "1" "first" ""; a_pull "2" "second" ""]) ].
Proof. split; reflexivity. Qed.

(** A dry run stops after the plan, with status 0 and no request. *)
Example dry_run_stops_after_plan :
  main_reconcile (vcs := two_commits) true dev_prefix "main" both_commits
    stale_index empty_world
  = (add_console empty_world
       ([Status "Preparing stacked branches...";
         Log "Stacked pull request plan:" "green"]
        ++ (plan_line stale_index <$> [second_change; first_change])
        ++ [Log "[orange]Finished (dry-run mode) :tada:[/]" ""]),
     inl (SystemExit 0)).
Proof. reflexivity. Qed.

(** The last of two trailers is the identifier. *)
Example last_of_two_trailers :
  CHANGEID_RE_findall amended_message = [token_a; token_b]
  ∧ extract_changeid "c1c1c1c1" amended_message empty_world
    = (empty_world, inr token_b).
Proof. split; reflexivity. Qed.

(** A commit without a trailer ends the run before any request. *)
Example missing_trailer_run :
  main_reconcile (vcs := commit_without_trailer) false dev_prefix "main"
    ["c3c3c3c3"] ∅ empty_world
  = (add_console empty_world
       [Status "Preparing stacked branches...";
        Log "Stacked pull request plan:" "green";
        Print "`Change-Id:` line is missing on commit c3c3c3c3" "red"],
     inl (SystemExit 1)).
Proof. reflexivity. Qed.

(** The synchronizer run twice on a stack of two: two comments are posted
    the first time, and the second time the comments are only listed. *)
Example sync_twice_run :
  requests after_sync
  = [ comments_request (a_pull "1" "first" "c1c1c1c1");
      post_request (a_pull "1" "first" "c1c1c1c1") (comment_body_of two_pulls);
      comments_request (a_pull "2" "second" "c2c2c2c2");
      post_request (a_pull "2" "second" "c2c2c2c2") (comment_body_of two_pulls) ]
  ∧ create_or_update_comments two_pulls after_sync
    = ({| console := console after_sync;
          requests := requests after_sync ++ (comments_request <$> two_pulls);
          remote := remote after_sync |}, inr tt).
Proof. split; reflexivity. Qed.

End Runs.

(** ** More facts about strings *)

Module StrMoreFacts.

Lemma str_partition_found (sep : ascii) (a b : string) :
  has_char sep a = false →
  str_partition sep (a +:+ String sep b) = (a, String sep EmptyString, b).
Proof.
  induction a as [|c a IH]; intros H.
  - simpl. by rewrite Ascii.eqb_refl.
  - simpl in H. apply orb_false_iff in H as [Hc Ha].
    rewrite append_cons. simpl. rewrite Hc, (IH Ha). reflexivity.
Qed.

Lemma str_partition_missing (sep : ascii) (s : string) :
  has_char sep s = false →
  str_partition sep s = (s, EmptyString, EmptyString).
Proof.
  induction s as [|c s IH]; intros H; [reflexivity|].
  simpl in H. apply orb_false_iff in H as [Hc Hs].
  simpl. rewrite Hc, (IH Hs). reflexivity.
Qed.

(** What [partition] gives in general: the three parts make the string,
    the first has no separator, and the second is the separator or, with
    the third, empty. *)
Lemma str_partition_parts (sep : ascii) (s : string) :
  s = (str_partition sep s).1.1 +:+ (str_partition sep s).1.2
        +:+ (str_partition sep s).2
  ∧ has_char sep (str_partition sep s).1.1 = false
  ∧ (((str_partition sep s).1.2 = String sep EmptyString
      ∧ has_char sep s = true)
     ∨ ((str_partition sep s).1.2 = EmptyString
        ∧ (str_partition sep s).2 = EmptyString
        ∧ has_char sep s = false)).
Proof.
  induction s as [|c s (IH1 & IH2 & IH3)]; simpl.
  - split; [done|]. split; [done|]. by right.
  - destruct (Ascii.eqb c sep) eqn:Hc; simpl.
    + apply Ascii.eqb_eq in Hc as ->. split; [done|]. split; [done|]. by left.
    + destruct (str_partition sep s) as [[before found] after]. simpl in *.
      split; [by rewrite IH1 at 1|]. rewrite Hc. simpl. split; [done|].
      exact IH3.
Qed.

Lemma str_split1_found (sep : ascii) (a b : string) :
  has_char sep a = false →
  str_split1 sep (a +:+ String sep b) = [a; b].
Proof. intros H. unfold str_split1. by rewrite str_partition_found. Qed.

Lemma str_split1_missing (sep : ascii) (s : string) :
  has_char sep s = false → str_split1 sep s = [s].
Proof. intros H. unfold str_split1. by rewrite str_partition_missing. Qed.

Lemma str_split1_inv (sep : ascii) (s user repo : string) :
  str_split1 sep s = [user; repo] →
  s = user +:+ String sep repo ∧ has_char sep user = false.
Proof.
  unfold str_split1.
  destruct (str_partition_parts sep s) as (Hs & Hno & Hcase).
  destruct (str_partition sep s) as [[before found] after]. simpl in *.
  destruct Hcase as [[-> _]|(-> & _ & _)]; [|discriminate].
  intros [= <- <-]. done.
Qed.

Lemma str_split_nonempty (sep : ascii) (s : string) : str_split sep s ≠ [].
Proof.
  destruct s as [|c s]; [done|]. simpl.
  destruct (Ascii.eqb c sep); [done|]. by destruct (str_split sep s).
Qed.

Lemma str_join_cons (sep : ascii) (part : string) (parts : list string) :
  parts ≠ [] →
  str_join sep (part :: parts) = part +:+ String sep (str_join sep parts).
Proof. by destruct parts. Qed.

Lemma str_join_split (sep : ascii) (s : string) :
  str_join sep (str_split sep s) = s.
Proof.
  induction s as [|c s IH]; [reflexivity|]. simpl.
  destruct (Ascii.eqb c sep) eqn:Hc.
  - apply Ascii.eqb_eq in Hc as ->.
    rewrite str_join_cons by apply str_split_nonempty. by rewrite IH.
  - pose proof (str_split_nonempty sep s) as Hne.
    destruct (str_split sep s) as [|first others]; [done|].
    destruct others as [|second others].
    + simpl in *. by rewrite IH.
    + rewrite str_join_cons in IH by done. rewrite str_join_cons by done.
      rewrite append_cons. by rewrite IH.
Qed.

Lemma str_split_no_sep (sep : ascii) (s : string) :
  Forall (λ part, has_char sep part = false) (str_split sep s).
Proof.
  induction s as [|c s IH]; simpl; [by repeat constructor|].
  destruct (Ascii.eqb c sep) eqn:Hc; [by constructor|].
  destruct (str_split sep s) as [|first others]; simpl.
  - repeat constructor. simpl. by rewrite Hc.
  - inversion IH as [|? ? Hfirst Hothers]; subst.
    constructor; [|done]. simpl. by rewrite Hc.
Qed.

Lemma str_split_join (sep : ascii) (parts : list string) :
  parts ≠ [] → Forall (λ part, has_char sep part = false) parts →
  str_split sep (str_join sep parts) = parts.
Proof.
  intros Hne Hall. induction Hall as [|part parts Hpart Hparts IH]; [done|].
  destruct parts as [|second parts].
  - simpl. clear -Hpart. induction part as [|c part IH]; [reflexivity|].
    simpl in Hpart. apply orb_false_iff in Hpart as [Hc Hp].
    simpl. rewrite Hc, (IH Hp). reflexivity.
  - rewrite str_join_cons by done. specialize (IH ltac:(done)).
    remember (str_join sep (second :: parts)) as rest eqn:Hrest.
    clear -Hpart IH. induction part as [|c part IHp].
    + change (EmptyString +:+ String sep rest) with (String sep rest).
      cbn [str_split]. by rewrite Ascii.eqb_refl, IH.
    + simpl in Hpart. apply orb_false_iff in Hpart as [Hc Hp].
      rewrite append_cons. cbn [str_split]. rewrite Hc, (IHp Hp). reflexivity.
Qed.

Lemma rstrip_char_all (ch : ascii) (n : nat) :
  rstrip_char ch (replicate_char n ch) = EmptyString.
Proof.
  induction n as [|n IH]; [reflexivity|]. simpl.
  by rewrite IH, Ascii.eqb_refl.
Qed.

Lemma rstrip_char_kept (ch : ascii) (s : string) :
  ends_with_char ch s = false → s ≠ EmptyString → rstrip_char ch s ≠ EmptyString.
Proof.
  induction s as [|c s IH]; intros He Hne; [done|]. simpl.
  destruct (rstrip_char ch s) eqn:Hr; [|done].
  destruct s as [|d s]; simpl in He.
  - by rewrite He.
  - exfalso. by apply IH.
Qed.

Lemma rstrip_char_app (ch : ascii) (s : string) (n : nat) :
  ends_with_char ch s = false →
  rstrip_char ch (s +:+ replicate_char n ch) = s.
Proof.
  induction s as [|c s IH]; intros He.
  - apply rstrip_char_all.
  - rewrite append_cons. simpl.
    destruct s as [|d s].
    + simpl in He. change (EmptyString +:+ replicate_char n ch)
        with (replicate_char n ch). by rewrite rstrip_char_all, He.
    + rewrite IH by exact He. reflexivity.
Qed.

Lemma str_drop_all (s : string) : str_drop (String.length s) s = EmptyString.
Proof. induction s; [reflexivity | done]. Qed.

Lemma length_append (a b : string) :
  String.length (a +:+ b) = (String.length a + String.length b)%nat.
Proof. induction a as [|c a IH]; simpl; [done | by rewrite IH]. Qed.

Lemma endswith_app (a suffix : string) : endswith (a +:+ suffix) suffix = true.
Proof.
  unfold endswith. rewrite length_append.
  replace (String.length a + String.length suffix - String.length suffix)%nat
    with (String.length a) by lia.
  rewrite str_drop_app. apply String.eqb_refl.
Qed.

Lemma endswith_inv (s suffix : string) :
  endswith s suffix = true → ∃ a, s = a +:+ suffix.
Proof.
  unfold endswith. intros H. apply String.eqb_eq in H.
  remember (String.length s - String.length suffix)%nat as n eqn:Hn. clear Hn.
  revert s H. induction n as [|n IH]; intros s H.
  - exists EmptyString. by rewrite <- H.
  - destruct s as [|c s]; [by exists EmptyString; rewrite <- H|].
    simpl in H. destruct (IH s H) as [a ->]. by exists (String c a).
Qed.

Lemma str_take_app (a b : string) : str_take (String.length a) (a +:+ b) = a.
Proof.
  induction a as [|c a IH]; [by destruct b|].
  rewrite append_cons. simpl. by rewrite IH.
Qed.

(** *** [strip] *)

Lemma lstrip_spec (s : string) :
  ∃ pre, s = pre +:+ lstrip s ∧ all_space pre = true
         ∧ starts_with_space (lstrip s) = false.
Proof.
  induction s as [|c s (pre & Hs & Hpre & Hfirst)].
  - by exists EmptyString.
  - simpl. destruct (isspace c) eqn:Hc.
    + exists (String c pre). rewrite append_cons, <- Hs. simpl.
      by rewrite Hc, Hpre.
    + exists EmptyString. simpl. by rewrite Hc.
Qed.

Lemma rstrip_spec (s : string) :
  ∃ post, s = rstrip s +:+ post ∧ all_space post = true
          ∧ ends_with_space (rstrip s) = false.
Proof.
  induction s as [|c s (post & Hs & Hpost & Hlast)].
  - by exists EmptyString.
  - simpl. destruct (rstrip s) as [|d r] eqn:Hr.
    + change (EmptyString +:+ post) with post in Hs. subst post.
      destruct (isspace c) eqn:Hc.
      * exists (String c s). split; [reflexivity|]. simpl. by rewrite Hc, Hpost.
      * exists s. split; [reflexivity|]. simpl. by rewrite Hc.
    + exists post. rewrite append_cons, <- Hs. done.
Qed.

Lemma rstrip_keeps_start (s : string) :
  starts_with_space s = false → starts_with_space (rstrip s) = false.
Proof.
  destruct s as [|c s]; [done|]. simpl. intros Hc.
  destruct (rstrip s); [|done]. by rewrite Hc.
Qed.

End StrMoreFacts.
Import StrMoreFacts.

(** ** Properties of the rest of the program *)

Lemma append_assoc (a b c : string) : (a +:+ b) +:+ c = a +:+ (b +:+ c).
Proof. induction a as [|x a IH]; [reflexivity|]. by rewrite !append_cons, IH. Qed.

Lemma ends_with_char_app (ch : ascii) (a b : string) :
  b ≠ EmptyString → ends_with_char ch (a +:+ b) = ends_with_char ch b.
Proof.
  intros Hb. induction a as [|x a IH]; [reflexivity|].
  rewrite append_cons. simpl.
  destruct (a +:+ b) eqn:Hab; [|exact IH].
  destruct a; [by destruct b | discriminate].
Qed.

Section SlugFacts.
Context {views : Views}.

Lemma get_slug_of_path (url user name : string) :
  slug_path url = user +:+ "/" +:+ name → has_char "/" user = false →
  (∀ repo, name = repo +:+ ".git" → get_slug url = Some (user, repo))
  ∧ (endswith name ".git" = false → get_slug url = Some (user, name)).
Proof.
  intros Hpath Huser. unfold get_slug. rewrite Hpath.
  change (user +:+ "/" +:+ name) with (user +:+ String "/" name).
  rewrite str_split1_found by done. split.
  - intros repo ->. rewrite endswith_app, length_append.
    replace (String.length repo + String.length ".git" - 4)%nat
      with (String.length repo) by (simpl; lia).
    by rewrite str_take_app.
  - by intros ->.
Qed.

(** X1. For an address that [urlparse] reads with a host, whose path is a
    slash, an owner without a slash, a slash, a name that does not end in a
    slash, and any number of trailing slashes, [get_slug] gives the owner
    and the name, without its [.git] suffix when it has one. *)
Theorem get_slug_https (url netloc user name : string) (n : nat) :
  urlparse url = (netloc, "/" +:+ user +:+ "/" +:+ name +:+ replicate_char n "/") →
  netloc ≠ "" → has_char "/" user = false →
  name ≠ "" → ends_with_char "/" name = false →
  (∀ repo, name = repo +:+ ".git" → get_slug url = Some (user, repo))
  ∧ (endswith name ".git" = false → get_slug url = Some (user, name)).
Proof.
  intros Hurl Hnet Huser Hname Hend. apply get_slug_of_path; [|done].
  unfold slug_path. rewrite Hurl, decide_False by done.
  change ("/" +:+ user +:+ "/" +:+ name +:+ replicate_char n "/")
    with (String "/" (user +:+ "/" +:+ name +:+ replicate_char n "/")).
  simpl str_drop.
  rewrite <- (append_assoc "/" name), <- (append_assoc user).
  apply rstrip_char_app.
  rewrite ends_with_char_app; [|by destruct name].
  by rewrite ends_with_char_app.
Qed.

(** X2. For an address that [urlparse] reads without a host, as an SSH
    address is, whose path is a host without a colon, a colon, an owner
    without a slash, a slash and a name, [get_slug] gives the owner and the
    name, without its [.git] suffix when it has one. Without a colon in the
    path it is a [ValueError], whatever the slashes. *)
Theorem get_slug_ssh (url : string) :
  (∀ host user name,
     urlparse url = ("", host +:+ ":" +:+ user +:+ "/" +:+ name) →
     has_char ":" host = false → has_char "/" user = false →
     (∀ repo, name = repo +:+ ".git" → get_slug url = Some (user, repo))
     ∧ (endswith name ".git" = false → get_slug url = Some (user, name)))
  ∧ (∀ path,
       urlparse url = ("", path) → has_char ":" path = false →
       get_slug url = None).
Proof.
  split.
  - intros host user name Hurl Hhost Huser. apply get_slug_of_path; [|done].
    unfold slug_path. rewrite Hurl, decide_True by done.
    change (host +:+ ":" +:+ user +:+ "/" +:+ name)
      with (host +:+ String ":" (user +:+ "/" +:+ name)).
    by rewrite str_partition_found.
  - intros path Hurl Hpath. unfold get_slug, slug_path.
    rewrite Hurl, decide_True by done.
    by rewrite str_partition_missing.
Qed.

(** X3. [get_slug] ends with the [ValueError] of the unpacking exactly when
    the path it reads has no slash; when it returns, the owner has no slash
    and the path is the owner, a slash and the name, from which at most one
    [.git] suffix was taken. *)
Theorem get_slug_value_error (url : string) :
  (get_slug url = None ↔ has_char "/" (slug_path url) = false)
  ∧ ∀ user repo,
      get_slug url = Some (user, repo) →
      has_char "/" user = false
      ∧ (slug_path url = user +:+ "/" +:+ repo
         ∨ slug_path url = user +:+ "/" +:+ repo +:+ ".git").
Proof.
  unfold get_slug.
  destruct (str_partition_parts "/" (slug_path url)) as (Hs & Hno & Hcase).
  unfold str_split1.
  destruct (str_partition "/" (slug_path url)) as [[before found] after].
  simpl in *. split.
  - destruct Hcase as [[-> Hin]|(-> & -> & Hout)].
    + rewrite Hin. split; discriminate.
    + by rewrite Hout.
  - intros user repo.
    destruct Hcase as [[-> Hin]|(-> & -> & Hout)]; [|discriminate].
    intros [= <- <-]. split; [done|].
    destruct (endswith after ".git") eqn:Hgit; [right|by left].
    apply endswith_inv in Hgit as [stem ->].
    rewrite length_append.
    replace (String.length stem + String.length ".git" - 4)%nat
      with (String.length stem) by (simpl; lia).
    by rewrite str_take_app.
Qed.

End SlugFacts.

(** X4. The lines [main] makes of the output of [git log] with
    [split] joined again with line feeds are the output; no line holds a
    line feed; and there is always at least one line: from an empty output
    [main] gets one commit, named by the empty string. *)
Theorem log_lines_round_trip (output : string) :
  str_join "010" (str_split "010" output) = output
  ∧ Forall (λ line, has_char "010" line = false) (str_split "010" output)
  ∧ str_split "010" output ≠ []
  ∧ str_split "010" "" = [""]
  ∧ ∀ lines, lines ≠ [] → Forall (λ line, has_char "010" line = false) lines →
             str_split "010" (str_join "010" lines) = lines.
Proof.
  split; [apply str_join_split|]. split; [apply str_split_no_sep|].
  split; [apply str_split_nonempty|]. split; [reflexivity|].
  apply str_split_join.
Qed.

Section MoreFacts.
Context {http : Client} {vcs : Git}.

Lemma emits_git (P : Request → Prop) (args : string) : emits P (git args).
Proof.
  unfold git. destruct (git_proc ("git " +:+ args)) as [rc out].
  destruct (negb (rc =? 0)%Z); auto 10 with emits.
Qed.

Lemma git_result (args : string) (w w' : World) (res : Abort + string) :
  git args w = (w', res) →
  (git_ok args ∧ w' = w ∧ res = inr (git_output args))
  ∨ (¬ git_ok args ∧ res = inl (SystemExit 1)
     ∧ w' = add_console w
              [Log ("fail to run `git " +:+ args +:+ "`:") "red";
               Log (git_proc ("git " +:+ args)).2 "red"]).
Proof.
  unfold git, git_ok, git_output.
  destruct (git_proc ("git " +:+ args)) as [rc out]. simpl.
  destruct (rc =? 0)%Z eqn:Hrc; simpl; intros [= <- <-].
  - left. by apply Z.eqb_eq in Hrc.
  - right. apply Z.eqb_neq in Hrc. by rewrite add_console_app.
Qed.

Lemma emits_extract_changeid (P : Request → Prop) (commit message : string) :
  emits P (extract_changeid commit message).
Proof.
  unfold extract_changeid. destruct (CHANGEID_RE_findall message);
    auto 10 with emits.
Qed.

Lemma emits_get_local_changes_loop (P : Request → Prop) (commits : list string)
    (known : KnownChangeIDs) (acc : list Change) :
  emits P (get_local_changes_loop commits known acc).
Proof.
  revert acc. induction commits as [|commit commits IH]; intros acc; simpl.
  - apply emits_ret.
  - apply emits_bind; [apply emits_git|intros message].
    apply emits_bind; [apply emits_git|intros title].
    apply emits_bind; [apply emits_extract_changeid|intros changeid].
    apply emits_bind; [apply emits_emit|intros _]. apply IH.
Qed.

Lemma get_local_changes_aborts (commits : list string) (known : KnownChangeIDs)
    (acc : list Change) (w w' : World) (e : Abort) :
  get_local_changes_loop commits known acc w = (w', inl e) →
  e = SystemExit 1 ∧ remote w' = remote w ∧ ¬ Forall readable commits.
Proof.
  revert acc w. induction commits as [|commit commits IH]; intros acc w H;
    simpl in H; [discriminate|].
  apply bindM_inv in H as [(e' & H & [= <-])|(message & w1 & Hg1 & H)].
  { apply git_result in H as [(_ & _ & ?)|(Hko & [= <-] & ->)]; [discriminate|].
    split; [done|]. split; [done|]. intros Hall.
    inversion Hall as [|? ? (Hb & _ & _) _]. by apply Hko. }
  apply git_run_inv in Hg1 as (Hb & -> & ->).
  apply bindM_inv in H as [(e' & H & [= <-])|(title & w2 & Hg2 & H)].
  { apply git_result in H as [(_ & _ & ?)|(Hko & [= <-] & ->)]; [discriminate|].
    split; [done|]. split; [done|]. intros Hall.
    inversion Hall as [|? ? (_ & Ht & _) _]. by apply Hko. }
  apply git_run_inv in Hg2 as (Ht & -> & ->).
  apply bindM_inv in H as [(e' & H & [= <-])|(changeid & w3 & He & H)].
  { destruct (CHANGEID_RE_findall (git_output (body_command commit))) eqn:Hf.
    - rewrite extract_changeid_missing in H by done. injection H as <- <-.
      split; [done|]. split; [done|]. intros Hall.
      inversion Hall as [|? ? (_ & _ & Hne) _]. by apply Hne.
    - rewrite extract_changeid_found in H by (by rewrite Hf). discriminate. }
  assert (w3 = w) as ->.
  { unfold extract_changeid in He.
    destruct (CHANGEID_RE_findall (git_output (body_command commit)));
      [discriminate | by injection He]. }
  apply bindM_inv in H as [(e' & H & _)|([] & w4 & [= <-] & H)]; [discriminate|].
  apply IH in H as (-> & Hr & Hnr). split; [done|]. split; [done|].
  intros Hall. apply Hnr. by inversion Hall.
Qed.

Lemma get_local_changes_outcome (commits : list string)
    (known : KnownChangeIDs) (w w' : World) (res : Abort + list Change) :
  get_local_changes commits known w = (w', res) →
  requests w' = requests w ∧ remote w' = remote w
  ∧ ((Forall readable commits ∧ res = inr (local_change <$> commits))
     ∨ (¬ Forall readable commits ∧ res = inl (SystemExit 1))).
Proof.
  intros H.
  assert (Hreq : requests w' = requests w).
  { apply (emits_get_local_changes_loop (λ _, False)) in H as (new & -> & Hnew).
    destruct new as [|rq new]; [by rewrite app_nil_r|]. by inversion Hnew. }
  split; [exact Hreq|]. destruct res as [e|changes].
  - apply get_local_changes_aborts in H as (-> & Hr & Hnr). split; [done|].
    by right.
  - pose proof (local_changes_returned _ _ _ _ _ _ H) as Hread.
    rewrite (local_changes_readable _ _ _ Hread) in H. injection H as <- <-.
    split; [done|]. left. by split.
Qed.

End MoreFacts.

Section MoreBuilderFacts.
Context {http : Client} {vcs : Git}.

Lemma push_branch_sent (dest changeid commit : string) (known : KnownChangeIDs)
    (w : World) :
  ∃ line,
    push_branch dest changeid commit known w
    = (sent (add_console w [line]) (branch_request dest changeid commit known),
       inr (answer w (branch_request dest changeid commit known))).
Proof.
  unfold push_branch, branch_request.
  destruct (known !! changeid) as [pull|]; eexists;
    (erewrite bindM_ok by apply emit_run);
    unfold client_patch, client_post; rewrite client_send_run; reflexivity.
Qed.

Lemma check_for_status_refused (r : Response) (w : World) :
  (400 ≤ status_code r)%Z →
  ∃ lines,
    check_for_status r w
    = (add_console w lines,
       inl (if (status_code r <? 500)%Z then SystemExit 1 else HTTPStatusError)).
Proof.
  intros H. unfold check_for_status.
  assert ((status_code r <? 400)%Z = false) as -> by (apply Z.ltb_ge; lia).
  destruct (status_code r <? 500)%Z.
  - destruct (json_errors r) as [errors|]; eexists;
      repeat (erewrite bindM_ok by apply emit_run);
      unfold sys_exit, raise; rewrite !add_console_app; reflexivity.
  - exists []. by rewrite add_console_nil.
Qed.


(** X8. When the remote refuses the request for the branch of a change, the
    loop of [main] stops there: that request is the only one made, no pull
    request is touched and the changes after it are not visited. The run
    exits with status 1 on a status below 500 and ends with the HTTP error
    otherwise. *)
Theorem refused_branch_stops_stack (stack_prefix : string) (known : KnownChangeIDs)
    (changeid commit title message : string) (rest : list Change)
    (st : LoopState) (w : World) :
  let rq := branch_request (stack_prefix +:+ changeid) changeid commit known in
  (400 ≤ status_code (answer w rq))%Z →
  ∃ w',
    stack_loop stack_prefix known ((changeid, commit, title, message) :: rest) st w
    = (w', inl (if (status_code (answer w rq) <? 500)%Z
                then SystemExit 1 else HTTPStatusError))
    ∧ requests w' = requests w ++ [rq]
    ∧ remote w' = (send (remote w) rq).1.
Proof.
  intros rq Hko. cbn [stack_loop]. unfold stack_step, create_or_update_stack.
  destruct (push_branch_sent (stack_prefix +:+ changeid) changeid commit known w)
    as [line Hp]. fold rq in Hp.
  destruct (check_for_status_refused (answer w rq)
              (sent (add_console w [line]) rq) Hko) as [lines Hc].
  eexists. split.
  { erewrite bindM_abort; [reflexivity|].
    erewrite bindM_abort; [reflexivity|].
    erewrite bindM_ok by exact Hp.
    erewrite bindM_abort by exact Hc. reflexivity. }
  split; reflexivity.
Qed.



End MoreBuilderFacts.

Section MoreStackFacts.
Context {http : Client} {vcs : Git}.

(** X11. The message of the pull request of a change is its commit message
    alone for the first change of the run, and for every later change its
    commit message followed by an empty line and [Depends-On: #] with the
    number of the pull request that [create_or_update_stack] returned for
    the change before it. *)
Theorem depends_on_previous_pull (stack_prefix base_branch : string)
    (known : KnownChangeIDs) (pre post : list Change)
    (changeid1 commit1 title1 message1 changeid2 commit2 title2 message2 : string)
    (w w0 w1 : World) (st0 : LoopState) (pull : PullRequest) :
  stack_loop stack_prefix known pre (initial_state base_branch) w = (w0, inr st0) →
  create_or_update_stack (stacked_base_branch st0) (stack_prefix +:+ changeid1)
    changeid1 commit1 title1 (message1 +:+ depends_on_of (pulls st0))
    (draft st0) known w0 = (w1, inr pull) →
  (pre = [] → message1 +:+ depends_on_of (pulls st0) = message1)
  ∧ stack_loop stack_prefix known
      (pre ++ (changeid1, commit1, title1, message1)
           :: (changeid2, commit2, title2, message2) :: post)
      (initial_state base_branch) w
    = (pull2 ← create_or_update_stack (stack_prefix +:+ changeid1)
                 (stack_prefix +:+ changeid2) changeid2 commit2 title2
                 (message2 +:+ nl +:+ nl +:+ "Depends-On: #" +:+ number pull)
                 true known;
       stack_loop stack_prefix known post
         {| stacked_base_branch := stack_prefix +:+ changeid2; draft := true;
            pulls := (pulls st0 ++ [pull]) ++ [pull2] |}) w1.
Proof.
  intros Hpre Hcall. split.
  - intros ->. injection Hpre as _ <-. simpl.
    unfold depends_on_of. simpl. clear.
    induction message1 as [|c m IH]; [reflexivity|].
    rewrite append_cons. by rewrite IH.
  - assert (Hstep : stack_loop stack_prefix known
                      (pre ++ [(changeid1, commit1, title1, message1)])
                      (initial_state base_branch) w
                    = (w1, inr {| stacked_base_branch := stack_prefix +:+ changeid1;
                                  draft := true;
                                  pulls := pulls st0 ++ [pull] |})).
    { rewrite (stack_loop_at _ _ _ _ _ _ _ _ _ _ _ _ Hpre).
      by erewrite bindM_ok by exact Hcall. }
    replace (pre ++ (changeid1, commit1, title1, message1)
                 :: (changeid2, commit2, title2, message2) :: post)
      with ((pre ++ [(changeid1, commit1, title1, message1)])
              ++ (changeid2, commit2, title2, message2) :: post)
      by (by rewrite <- app_assoc).
    rewrite (stack_loop_at _ _ _ _ _ _ _ _ _ _ _ _ Hstep). simpl.
    unfold depends_on_of. by rewrite last_snoc.
Qed.


(** X13. A deletion that ends with an exception other than an exit, as the
    HTTP error of a status of 500 or more is, does not stop the run: when no
    answer to a deletion has a status from 400 to 499, the deletions of
    [main] are all requested, one per identifier, and the step returns. *)
Theorem failed_deletions_do_not_stop_the_run (stack_prefix : string)
    (known : KnownChangeIDs) (to_delete : list string) (w : World) :
  (∀ s rq, method rq = DELETE →
           (status_code (send s rq).2 < 400 ∨ 500 ≤ status_code (send s rq).2)%Z) →
  ∃ w',
    for_each to_delete
      (λ changeid, as_task (delete_stack stack_prefix changeid known)) w
    = (w', inr tt)
    ∧ requests w'
      = requests w
        ++ ((λ changeid, {| method := DELETE;
                            url := "git/refs/heads/" +:+ stack_prefix +:+ changeid;
                            payload := NoPayload |}) <$> to_delete).
Proof.
  intros Hsrv. revert w. induction to_delete as [|changeid ids IH]; intros w.
  - exists w. split; [reflexivity|]. simpl. by rewrite app_nil_r.
  - cbn [for_each].
    set (rq := {| method := DELETE;
                  url := "git/refs/heads/" +:+ stack_prefix +:+ changeid;
                  payload := NoPayload |}).
    assert (Htask : ∃ w1, as_task (delete_stack stack_prefix changeid known) w
                          = (w1, inr tt)
                          ∧ requests w1 = requests w ++ [rq]).
    { unfold as_task, delete_stack, client_delete. fold rq.
      erewrite bindM_ok by apply client_send_run.
      destruct (Hsrv (remote w) rq eq_refl) as [Hok|Hko].
      - erewrite bindM_ok by (by apply check_for_status_ok).
        destruct (known !! changeid) as [[pull|]|]; eexists; by split.
      - edestruct (check_for_status_refused (send (remote w) rq).2) as [lines Hc];
          [lia|].
        erewrite bindM_abort by exact Hc.
        assert ((status_code (send (remote w) rq).2 <? 500)%Z = false) as ->
          by (apply Z.ltb_ge; lia).
        eexists. by split. }
    destruct Htask as (w1 & Hrun & Hreq).
    destruct (IH w1) as (w' & Hrest & Hreq').
    exists w'. erewrite bindM_ok by exact Hrun. split; [exact Hrest|].
    rewrite Hreq', Hreq, fmap_cons, <- app_assoc. reflexivity.
Qed.

End MoreStackFacts.

Section MoreSyncFacts.
Context {http : Client} {vcs : Git}.

Lemma str_split_line (sep : ascii) (a b : string) :
  has_char sep a = false →
  str_split sep (a +:+ String sep b) = a :: str_split sep b.
Proof.
  induction a as [|c a IH]; intros H.
  - change (EmptyString +:+ String sep b) with (String sep b).
    cbn [str_split]. by rewrite Ascii.eqb_refl.
  - simpl in H. apply orb_false_iff in H as [Hc Ha].
    rewrite append_cons. cbn [str_split]. by rewrite Hc, (IH Ha).
Qed.

Lemma comment_body_of_entries (pulls : list PullRequest) :
  comment_body_of pulls
  = first_line +:+ foldr (λ pull rest, comment_entry pull +:+ nl +:+ rest) "" pulls.
Proof.
  unfold comment_body_of. generalize first_line as acc.
  induction pulls as [|pull pulls IH]; intros acc; simpl.
  - clear. induction acc as [|c acc IH]; [reflexivity|].
    by rewrite append_cons, <- IH.
  - rewrite IH. unfold comment_entry. by rewrite !append_assoc.
Qed.

(** X14. The body of the stack comment, cut at the line feeds, is the
    header, then one line per pull request in the order of the stack, made
    of [1.], the title and the link with the number, then an empty last
    line, when no such line holds a line feed itself. *)
Theorem comment_lists_the_stack (pulls : list PullRequest) :
  Forall (λ pull, has_char "010" (comment_entry pull) = false) pulls →
  str_split "010" (comment_body_of pulls)
  = "This pull request is part of a stack:" :: (comment_entry <$> pulls) ++ [""].
Proof.
  intros Hall. rewrite comment_body_of_entries. unfold first_line, nl.
  rewrite append_assoc.
  change (String "010" "" +:+ ?x) with (String "010"%char x).
  rewrite str_split_line by reflexivity. f_equal.
  induction Hall as [|pull pulls Hpull _ IH]; [reflexivity|].
  simpl. change (String "010" "" +:+ ?x) with (String "010"%char x).
  rewrite str_split_line by exact Hpull. by rewrite IH.
Qed.

(** X15. The body the synchronizer writes always starts with the header
    line. So a comment it posted where no comment started with the header
    is the comment the next run stops at, and a run with the same stack
    writes nothing there. *)
Theorem posted_comment_is_found (pulls : list PullRequest)
    (comments : list Comment) (posted_url : string) :
  let posted := {| comment_url := posted_url;
                   comment_body := comment_body_of pulls |} in
  startswith (comment_body_of pulls) first_line = true
  ∧ (stack_comment comments = None →
     stack_comment (comments ++ [posted]) = Some posted
     ∧ ∀ pull w,
         sync_comment (comment_body_of pulls) pull (comments ++ [posted]) w
         = (w, inr tt)).
Proof.
  intros posted. pose proof (comment_body_header pulls) as Hh.
  split; [exact Hh|]. intros Hnone.
  assert (Hfind : stack_comment (comments ++ [posted]) = Some posted).
  { rewrite stack_comment_app, Hnone. unfold stack_comment. simpl.
    by rewrite Hh. }
  split; [exact Hfind|]. intros pull w.
  by apply (sync_comment_in_sync _ _ _ posted).
Qed.

End MoreSyncFacts.

Section IndexFacts.
Context {http : Client} {vcs : Git} {views : Views}.

(** X16. [get_changeid_and_pull] makes one request, for the open pull
    requests whose head is the branch of the reference. When the remote
    accepts it, the pull requests of the answer that are not open are left
    out, and the result is the identifier of the reference with no pull
    request when none is left, with the pull request when one is left, and
    a [RuntimeError] naming the branch when more than one is left. *)
Theorem one_open_pull_or_none (user stack_prefix : string) (r : GitRef) (w : World) :
  (status_code (answer w (pulls_request user r)) < 400)%Z →
  get_changeid_and_pull user stack_prefix r w
  = (sent w (pulls_request user r),
     match filter (λ p, state p = "open")
             (json_pulls (answer w (pulls_request user r))) with
     | [] => inr (changeid_of_ref stack_prefix r, None)
     | [pull] => inr (changeid_of_ref stack_prefix r, Some pull)
     | _ :: _ :: _ =>
         inl (RuntimeError ("More than 1 pull found with this head: "
                              +:+ branch_of_ref r))
     end).
Proof.
  intros Hok. unfold get_changeid_and_pull, client_get. fold (pulls_request user r).
  erewrite bindM_ok by apply client_send_run.
  erewrite bindM_ok by (by apply check_for_status_ok).
  fold (answer w (pulls_request user r)).
  destruct (filter _ (json_pulls (answer w (pulls_request user r))))
    as [|pull [|second others]]; reflexivity.
Qed.

Lemma get_changeid_and_pull_run (user stack_prefix : string) (r : GitRef)
    (w w' : World) (res : Abort + (ChangeId * option PullRequest)) :
  get_changeid_and_pull user stack_prefix r w = (w', res) →
  requests w' = requests w ++ [pulls_request user r]
  ∧ ∀ changeid pull, res = inr (changeid, pull) →
                     changeid = changeid_of_ref stack_prefix r.
Proof.
  unfold get_changeid_and_pull, client_get. fold (pulls_request user r).
  erewrite bindM_ok by apply client_send_run. intros H.
  apply bindM_inv in H as [(e & H & ->)|([] & w1 & H1 & H)].
  { apply (check_for_status_emits (λ _, False)) in H as (new & -> & Hnew).
    destruct new; [|by inversion Hnew]. by rewrite app_nil_r. }
  apply (check_for_status_emits (λ _, False)) in H1 as (new & Hreq & Hnew).
  destruct new; [|by inversion Hnew]. rewrite app_nil_r in Hreq.
  destruct (1 <? _)%nat; [injection H as <- <-; by rewrite Hreq|].
  destruct (filter _ _); injection H as <- <-;
    (split; [by rewrite Hreq|]); by intros ? ? [= <- _].
Qed.

Lemma update_index_pairs (known : KnownChangeIDs)
    (pairs : list (ChangeId * option PullRequest)) (w : World) :
  update_index known (inr <$> pairs) w = (w, inr (index_of known pairs)).
Proof.
  revert known. induction pairs as [|[changeid pull] pairs IH]; intros known.
  - reflexivity.
  - simpl. apply IH.
Qed.

Lemma update_index_inv (known known' : KnownChangeIDs)
    (done : list (Abort + (ChangeId * option PullRequest))) (w w' : World) :
  update_index known done w = (w', inr known') →
  w' = w ∧ ∃ pairs, done = inr <$> pairs ∧ known' = index_of known pairs.
Proof.
  revert known. induction done as [|[e|[changeid pull]] done IH]; intros known H.
  - injection H as <- <-. split; [done|]. by exists [].
  - discriminate H.
  - simpl in H. apply IH in H as (-> & pairs & -> & ->). split; [done|].
    by exists ((changeid, pull) :: pairs).
Qed.

Lemma index_of_lookup (known : KnownChangeIDs)
    (pairs : list (ChangeId * option PullRequest)) (changeid : string) :
  (changeid ∉ pairs.*1 → index_of known pairs !! changeid = known !! changeid)
  ∧ (NoDup pairs.*1 → ∀ pull, (changeid, pull) ∈ pairs →
     index_of known pairs !! changeid = Some pull).
Proof.
  revert known. induction pairs as [|[k v] pairs IH]; intros known.
  { split; [done|]. intros _ pull Hin. by apply elem_of_nil in Hin. }
  unfold index_of. simpl. fold (index_of (<[k:=v]> known) pairs).
  destruct (IH (<[k:=v]> known)) as [IHout IHin]. split.
  - intros Hout. apply not_elem_of_cons in Hout as [Hne Hout].
    rewrite IHout by done. by rewrite lookup_insert_ne.
  - intros Hnd pull Hin. apply NoDup_cons in Hnd as [Hk Hnd].
    apply elem_of_cons in Hin as [[= -> ->]|Hin].
    + rewrite IHout by done. by rewrite lookup_insert_eq.
    + by apply IHin.
Qed.

Lemma index_of_dom (known : KnownChangeIDs)
    (pairs : list (ChangeId * option PullRequest)) :
  dom (index_of known pairs) = list_to_set pairs.*1 ∪ dom known.
Proof.
  revert known. induction pairs as [|[k v] pairs IH]; intros known.
  - simpl. by rewrite union_empty_l_L.
  - unfold index_of. simpl. fold (index_of (<[k:=v]> known) pairs).
    rewrite IH, dom_insert_L. apply set_eq. intros x.
    rewrite !elem_of_union, elem_of_singleton. tauto.
Qed.

(** X17. The loop that fills the index awaits the tasks in an order that
    the set of the tasks that are done decides. When the tasks returned and
    no two of them gave the same identifier, the index does not depend on
    that order: it maps the identifier of each result to its pull request,
    and holds nothing else that was not in it. When a task ended with an
    exception, the loop raises it as soon as it awaits that task. *)
Theorem index_does_not_depend_on_order (known : KnownChangeIDs)
    (pairs pairs' : list (ChangeId * option PullRequest)) (w : World) :
  NoDup pairs.*1 → pairs ≡ₚ pairs' →
  update_index known (inr <$> pairs) w = update_index known (inr <$> pairs') w
  ∧ (∃ index,
       update_index known (inr <$> pairs) w = (w, inr index)
       ∧ (∀ changeid pull, (changeid, pull) ∈ pairs → index !! changeid = Some pull)
       ∧ (∀ changeid, changeid ∉ pairs.*1 → index !! changeid = known !! changeid))
  ∧ ∀ exception rest,
      update_index known ((inr <$> pairs) ++ inl exception :: rest) w
      = (w, inl exception).
Proof.
  intros Hnd Hperm.
  assert (Hnd' : NoDup pairs'.*1) by (by rewrite <- Hperm).
  split; [|split].
  - rewrite !update_index_pairs. f_equal. f_equal. apply map_eq. intros changeid.
    destruct (decide (changeid ∈ pairs.*1)) as [Hin|Hout].
    + apply list_elem_of_fmap in Hin as ([k pull] & -> & Hin). simpl.
      rewrite (proj2 (index_of_lookup known pairs k) Hnd pull Hin).
      rewrite Hperm in Hin.
      by rewrite (proj2 (index_of_lookup known pairs' k) Hnd' pull Hin).
    + rewrite (proj1 (index_of_lookup known pairs changeid) Hout).
      rewrite Hperm in Hout.
      by rewrite (proj1 (index_of_lookup known pairs' changeid) Hout).
  - eexists. split; [apply update_index_pairs|]. split.
    + intros changeid pull Hin. by apply index_of_lookup.
    + intros changeid Hout. by apply index_of_lookup.
  - intros exception rest. clear. revert known.
    induction pairs as [|[k v] pairs IH]; intros known; [reflexivity|].
    simpl. apply IH.
Qed.

Lemma gather_lookups (user stack_prefix : string) (refs : list GitRef)
    (w w' : World) (done : list (Abort + (ChangeId * option PullRequest))) :
  gather (get_changeid_and_pull user stack_prefix <$> refs) w = (w', inr done) →
  requests w' = requests w ++ (pulls_request user <$> refs)
  ∧ Forall2 (λ r result, ∀ changeid pull, result = inr (changeid, pull) →
                                         changeid = changeid_of_ref stack_prefix r)
      refs done.
Proof.
  revert w done. induction refs as [|r refs IH]; intros w done H.
  - injection H as <- <-. split; [by rewrite app_nil_r | constructor].
  - rewrite fmap_cons in H. cbn [gather] in H.
    apply bindM_inv_ok in H as (result & w1 & Htask & H).
    apply bindM_inv_ok in H as (results & w2 & Hrest & [= <- <-]).
    unfold run_task in Htask.
    destruct (get_changeid_and_pull user stack_prefix r w) as [w0 res] eqn:Hrun.
    apply get_changeid_and_pull_run in Hrun as [Hreq Hid].
    assert (w0 = w1 ∧ (∀ changeid pull, result = inr (changeid, pull) →
                                         res = inr (changeid, pull))) as [-> Hres].
    { destruct res as [e|a]; [destruct e|]; try discriminate Htask;
        injection Htask as <- <-; (split; [done|]);
        intros ? ? Heq; try discriminate Heq; by injection Heq as <-. }
    apply IH in Hrest as [Hreq' Hall]. split.
    + by rewrite Hreq', Hreq, fmap_cons, <- app_assoc.
    + constructor; [|exact Hall]. intros changeid pull Heq.
      by apply (Hid changeid pull), Hres.
Qed.

(** X18. When the index of the remote stack is retrieved, its keys are
    exactly the identifiers read from the references that the remote
    listed, and the requests made are that listing followed by one reading
    of pull requests per reference: no request of this step is a
    mutation. *)
Theorem index_has_the_listed_references (user stack_prefix : string)
    (w w' : World) (known : KnownChangeIDs) :
  retrieve_index user stack_prefix w = (w', inr known) →
  let refs := json_refs (answer w (refs_request stack_prefix)) in
  dom known = list_to_set (changeid_of_ref stack_prefix <$> refs)
  ∧ requests w'
    = requests w ++ refs_request stack_prefix :: (pulls_request user <$> refs)
  ∧ Forall (λ rq, is_mutation rq = false)
      (refs_request stack_prefix :: (pulls_request user <$> refs)).
Proof.
  intros H refs. unfold retrieve_index in H.
  erewrite bindM_ok in H by apply emit_run.
  unfold client_get in H. fold (refs_request stack_prefix) in H.
  erewrite bindM_ok in H by apply client_send_run.
  apply bindM_inv_ok in H as ([] & w1 & Hcheck & H).
  apply (check_for_status_emits (λ _, False)) in Hcheck as (new & Hreq1 & Hnew).
  destruct new; [|by inversion Hnew]. rewrite app_nil_r in Hreq1. simpl in Hreq1.
  apply bindM_inv_ok in H as (done & w2 & Hgather & H).
  apply update_index_inv in H as (-> & pairs & -> & ->).
  change (json_refs (send (remote (add_console w [Status "Retrieving latest pushed stacks"]))
                       (refs_request stack_prefix)).2) with refs in Hgather.
  apply gather_lookups in Hgather as [Hreq2 Hall].
  split; [|split].
  - rewrite index_of_dom, dom_empty_L, union_empty_r_L. f_equal.
    clear -Hall. revert pairs Hall.
    induction refs as [|r refs' IH]; intros pairs Hall.
    + destruct pairs; [done|]. inversion Hall.
    + destruct pairs as [|[k v] pairs]; [inversion Hall|].
      rewrite !fmap_cons in Hall. apply Forall2_cons in Hall as [Hk Hall].
      rewrite !fmap_cons. simpl. f_equal; [by apply (Hk k v)|]. by apply IH.
  - by rewrite Hreq2, Hreq1, <- app_assoc.
  - constructor; [done|]. apply Forall_fmap, Forall_forall. by intros r _.
Qed.

End IndexFacts.

Section MainFacts.
Context {http : Client} {vcs : Git} {views : Views}.

Lemma bind_git {B} (args : string) (k : string → M B) (w w' : World)
    (res : Abort + B) :
  bindM (git args) k w = (w', res) →
  (res = inl (SystemExit 1) ∧ requests w' = requests w ∧ remote w' = remote w)
  ∨ k (git_output args) w = (w', res).
Proof.
  intros H. apply bindM_inv in H as [(e & H & ->)|(out & w1 & H1 & H)].
  - apply git_result in H as [(_ & _ & ?)|(_ & [= <-] & ->)]; [discriminate|].
    by left.
  - apply git_run_inv in H1 as (_ & -> & ->). by right.
Qed.

Lemma quiet_ret {A} (a : A) : quiet (ret a).
Proof. intros w w' r [= <- <-]. by repeat split. Qed.

Lemma quiet_emit (o : Output) : quiet (emit o).
Proof. intros w w' r [= <- <-]. by repeat split. Qed.

Lemma quiet_exit {A} : quiet (sys_exit (A := A) 1).
Proof. intros w w' r [= <- <-]. repeat split. by intros e [= <-]. Qed.

Lemma quiet_git (args : string) : quiet (git args).
Proof.
  intros w w' r H.
  apply git_result in H as [(_ & -> & ->)|(_ & -> & ->)]; repeat split;
    by intros e [= <-].
Qed.

Lemma quiet_bind {A B} (m : M A) (k : A → M B) :
  quiet m → (∀ a, quiet (k a)) → quiet (bindM m k).
Proof.
  intros Hm Hk w w' r H.
  apply bindM_inv in H as [(e & H & ->)|(a & w1 & H1 & H2)].
  - apply Hm in H as (? & ? & He). repeat split; try done.
    intros e' [= <-]. by apply He.
  - apply Hm in H1 as (Hr1 & Hm1 & _). apply Hk in H2 as (Hr2 & Hm2 & He).
    split; [congruence|]. split; [congruence|]. exact He.
Qed.

Lemma bind_quiet {A B} (m : M A) (k : A → M B) (w w' : World) (res : Abort + B) :
  quiet m → bindM m k w = (w', res) →
  (res = inl (SystemExit 1) ∧ requests w' = requests w ∧ remote w' = remote w)
  ∨ ∃ a w1, requests w1 = requests w ∧ remote w1 = remote w ∧ k a w1 = (w', res).
Proof.
  intros Hm H. apply bindM_inv in H as [(e & H & ->)|(a & w1 & H1 & H2)].
  - apply Hm in H as (? & ? & He). left. by rewrite (He e eq_refl).
  - apply Hm in H1 as (? & ? & _). right. by exists a, w1.
Qed.

(** A run of [main] either ends before its first request, with the exit of
    a failed command or of the missing fork point or with the [ValueError]
    of [get_slug], or goes on to retrieve the index and reconcile, with the
    prefix, the base branch and the commits that [git] named. *)
Lemma main_inv (token : string) (dry_run : bool) (w w' : World)
    (res : Abort + (Uncaught + unit)) :
  main token dry_run w = (w', res) →
  (requests w' = requests w ∧ remote w' = remote w
   ∧ (res = inl (SystemExit 1)
      ∨ (get_slug remote_url_now = None
         ∧ ∃ msg, res = inr (inl (ValueError msg)))))
  ∨ (∃ user repo w1,
       get_slug remote_url_now = Some (user, repo)
       ∧ fork_point_now ≠ ""
       ∧ requests w1 = requests w ∧ remote w1 = remote w
       ∧ (known ← retrieve_index user stack_prefix_now;
          main_reconcile dry_run stack_prefix_now base_branch_now commits_now known;;
          ret (inr tt)) w1 = (w', res)).
Proof.
  intros H. unfold main in H.
  apply bind_git in H as [(-> & ? & ?)|H]; [left; auto|].
  apply bind_git in H as [(-> & ? & ?)|H]; [left; auto|].
  apply bind_git in H as [(-> & ? & ?)|H]; [left; auto|].
  fold dest_branch_now in H.
  change (str_partition "/" _) with upstream_now in H.
  assert (Hup : upstream_now = (remote_now, upstream_now.1.2, base_branch_now)).
  { unfold remote_now, base_branch_now. by destruct upstream_now as [[? ?] ?]. }
  rewrite Hup in H. cbv beta iota in H.
  apply bind_git in H as [(-> & ? & ?)|H]; [left; auto|].
  fold remote_url_now in H.
  destruct (get_slug remote_url_now) as [[user repo]|] eqn:Hslug; cycle 1.
  { injection H as <- <-. left. split; [done|]. split; [done|]. right.
    split; [done|]. by eexists. }
  apply bind_quiet in H; cycle 1.
  { destruct dry_run; simpl; [apply quiet_ret|].
    repeat (apply quiet_bind; [first [apply quiet_emit | apply quiet_git]|intros ?]).
    apply quiet_emit. }
  destruct H as [(-> & ? & ?)|(_ & w1 & Hreq1 & Hrem1 & H)]; [left; auto|].
  apply bind_git in H as [(-> & ? & ?)|H].
  { left. split; [congruence|]. split; [congruence|]. by left. }
  fold fork_point_now in H.
  destruct (decide (fork_point_now = "")) as [Hnone|Hsome].
  { erewrite bindM_abort in H; cycle 1.
    { erewrite bindM_ok by apply emit_run. reflexivity. }
    injection H as <- <-. left. simpl. split; [done|]. split; [done|]. by left. }
  erewrite bindM_ok in H by reflexivity.
  apply bind_git in H as [(-> & ? & ?)|H].
  { left. split; [congruence|]. split; [congruence|]. by left. }
  right. by exists user, repo, w1.
Qed.

End MainFacts.

Section MainProperties.
Context {http : Client} {vcs : Git} {views : Views}.

Lemma quiet_get_local_changes (commits : list string) (known : KnownChangeIDs) :
  quiet (get_local_changes commits known).
Proof.
  intros w w' r H.
  apply get_local_changes_outcome in H
    as (Hreq & Hrem & [(_ & ->)|(_ & ->)]); repeat split; try done.
  by intros e [= <-].
Qed.

Lemma dry_reconcile_exits (stack_prefix base_branch : string)
    (commits : list string) (known : KnownChangeIDs) (w w' : World)
    (res : Abort + unit) :
  main_reconcile true stack_prefix base_branch commits known w = (w', res) →
  requests w' = requests w ∧ (res = inl (SystemExit 0) ∨ res = inl (SystemExit 1)).
Proof.
  intros H. unfold main_reconcile in H.
  erewrite bindM_ok in H by apply emit_run.
  erewrite bindM_ok in H by apply emit_run.
  apply bindM_inv in H as [(e & H & ->)|(changes & w1 & Hplan & H)].
  - apply get_local_changes_outcome in H
      as (Hreq & _ & [(_ & ?)|(_ & [= ->])]); [discriminate|]. auto.
  - apply get_local_changes_outcome in Hplan as (Hreq & _).
    erewrite bindM_ok in H by apply get_changeids_to_delete_run.
    erewrite bindM_abort in H; cycle 1.
    { erewrite bindM_ok by apply emit_run. reflexivity. }
    injection H as <- <-. auto.
Qed.

Lemma emits_run_task {A} (P : Request → Prop) (m : M A) :
  emits P m → emits P (run_task m).
Proof.
  intros Hm w w' r H. unfold run_task in H.
  destruct (m w) as [w1 res] eqn:Hrun. apply Hm in Hrun.
  destruct res as [[]|]; by injection H as <- _.
Qed.

Lemma emits_update_index (P : Request → Prop) (known : KnownChangeIDs)
    (done : list (Abort + (ChangeId * option PullRequest))) :
  emits P (update_index known done).
Proof.
  revert known. induction done as [|[e|[k v]] done IH]; intros known; simpl.
  - apply emits_ret.
  - apply emits_raise.
  - apply IH.
Qed.

Lemma emits_retrieve_index (user stack_prefix : string) :
  emits (λ rq, is_mutation rq = false) (retrieve_index user stack_prefix).
Proof.
  unfold retrieve_index.
  apply emits_bind; [apply emits_emit|intros _].
  apply emits_bind; [by apply emits_send|intros r].
  apply emits_bind; [apply check_for_status_emits|intros _].
  apply emits_bind; [|intros done; apply emits_update_index].
  induction (json_refs r) as [|ref refs IH]; simpl; [apply emits_ret|].
  apply emits_bind; [|intros result].
  - apply emits_run_task. unfold get_changeid_and_pull.
    apply emits_bind; [by apply emits_send|intros r'].
    apply emits_bind; [apply check_for_status_emits|intros _].
    destruct (1 <? _)%nat; [apply emits_raise|].
    destruct (filter _ _); apply emits_ret.
  - apply emits_bind; [exact IH|intros results; apply emits_ret].
Qed.

(** X20. A dry run of [main] makes no request that is a mutation, whatever
    [git] and the remote answer, and it never returns normally: it ends in
    an exit or an exception. *)
Theorem dry_run_never_mutates (token : string) :
  emits (λ rq, is_mutation rq = false) (main token true)
  ∧ ∀ w w', main token true w ≠ (w', inr (inr tt)).
Proof.
  assert (Hrest : ∀ user w1 w' res,
    (known ← retrieve_index user stack_prefix_now;
     main_reconcile true stack_prefix_now base_branch_now commits_now known;;
     ret (inr tt : Uncaught + unit)) w1 = (w', res) →
    (∃ new, requests w' = requests w1 ++ new
            ∧ Forall (λ rq, is_mutation rq = false) new)
    ∧ res ≠ inr (inr tt)).
  { intros user w1 w' res H.
    apply bindM_inv in H as [(e & H & ->)|(known & w2 & Hidx & H)].
    { split; [by apply emits_retrieve_index in H|done]. }
    apply emits_retrieve_index in Hidx.
    apply bindM_inv in H as [(e & H & ->)|([] & w3 & Hrec & H)].
    - apply dry_reconcile_exits in H as (Hreq & _). split; [|done].
      by rewrite Hreq.
    - by apply dry_reconcile_exits in Hrec as (_ & [?|?]). }
  split.
  - intros w w' res H.
    apply main_inv in H as [(Hreq & _)|(user & repo & w1 & _ & _ & Hreq & _ & H)].
    + exists []. by rewrite app_nil_r.
    + apply Hrest in H as [H _]. by rewrite Hreq in H.
  - intros w w' H.
    apply main_inv in H as [(_ & _ & [?|(_ & ? & ?)])|(user & repo & w1 & _ & _ & _ & _ & H)];
      try discriminate.
    by apply Hrest in H as [_ H].
Qed.

(** X21. When the address of the remote has no owner and repository for
    [get_slug], or when [git] names no fork point, [main] ends before it
    makes any request, dry or not: with an exit of status 1 or with the
    [ValueError] of [get_slug]. *)
Theorem main_stops_before_any_request (token : string) (dry_run : bool)
    (w w' : World) (res : Abort + (Uncaught + unit)) :
  get_slug remote_url_now = None ∨ fork_point_now = "" →
  main token dry_run w = (w', res) →
  requests w' = requests w ∧ remote w' = remote w
  ∧ (res = inl (SystemExit 1) ∨ ∃ msg, res = inr (inl (ValueError msg))).
Proof.
  intros Hstop H.
  apply main_inv in H as [(Hreq & Hrem & Hres)|(user & repo & w1 & Hslug & Hfork & _)].
  - split; [done|]. split; [done|]. destruct Hres as [?|[_ ?]]; auto.
  - destruct Hstop as [Hnone|Hnone]; [congruence | done].
Qed.

Lemma main_reconcile_returned (dry_run : bool) (stack_prefix base_branch : string)
    (commits : list string) (known : KnownChangeIDs) (w w' : World) :
  main_reconcile dry_run stack_prefix base_branch commits known w = (w', inr tt) →
  dry_run = false ∧ Forall readable commits.
Proof.
  intros H. destruct dry_run.
  - by apply dry_reconcile_exits in H as (_ & [?|?]).
  - split; [done|]. unfold main_reconcile in H.
    erewrite bindM_ok in H by apply emit_run.
    erewrite bindM_ok in H by apply emit_run.
    apply bindM_inv_ok in H as (changes & w1 & Hplan & _).
    by apply get_local_changes_outcome in Hplan
      as (_ & _ & [(? & _)|(_ & ?)]).
Qed.

(** X22. A run of [main] that is not dry and returns normally has always
    written to the remote: after the requests that read the references and
    their pull requests, its next request is a mutation. The list of
    commits is never empty, so there is no run that finds nothing to do. *)
Theorem normal_run_always_writes (token : string) (w w' : World) :
  main token false w = (w', inr (inr tt)) →
  ∃ reads rq rest,
    requests w' = requests w ++ reads ++ rq :: rest
    ∧ Forall (λ r, is_mutation r = false) reads
    ∧ is_mutation rq = true.
Proof.
  intros H.
  apply main_inv in H as [(_ & _ & [?|(_ & ? & ?)])|(user & repo & w1 & _ & _ & Hreq & _ & H)];
    try discriminate.
  apply bindM_inv_ok in H as (known & w2 & Hidx & H).
  apply emits_retrieve_index in Hidx as (reads & Hreads & Hall).
  apply bindM_inv_ok in H as ([] & w3 & Hrec & [= <-]).
  pose proof (main_reconcile_returned _ _ _ _ _ _ _ Hrec) as [_ Hread].
  apply main_reconcile_starts in Hrec as (rq & rest & Hrq & Hmut);
    [|exact Hread|apply str_split_nonempty].
  exists reads, rq, rest. split; [|done].
  by rewrite Hrq, Hreads, Hreq, <- app_assoc.
Qed.

End MainProperties.

Section SetupFacts.
Context {http : Client} {vcs : Git} {fsys : FileSystem}.
Context (COMMIT_MSG_HOOK : string).

(** X23. When [git] names the top level and the process can go there,
    [do_setup] has two outcomes. If the hook file exists, it ends with the
    [ValueError] of [open] for the mode [f], before it reads the file:
    nothing is printed and no file is touched, whether or not the hook is
    the one of the program. If the hook file does not exist, it logs the
    installation and writes the hook with mode 755, or ends with the error
    of the write or of the change of mode. *)
Theorem do_setup_outcomes (fs fs1 : files) (w : World) :
  git_ok "rev-parse --show-toplevel" →
  chdir fs (strip (git_output "rev-parse --show-toplevel")) = Some fs1 →
  if path_exists fs1 hook_file then
    do_setup COMMIT_MSG_HOOK fs w = (w, inr (inl (ValueError "invalid mode: 'f'")))
  else
    do_setup COMMIT_MSG_HOOK fs w
    = (add_console w [Log "Installation of git commit-msg hook" ""],
       inr (match write_file fs1 hook_file COMMIT_MSG_HOOK with
            | Some fs2 =>
                match chmod fs2 hook_file 493 with
                | Some fs3 => inr fs3
                | None => inl OSError
                end
            | None => inl OSError
            end)).
Proof.
  intros Hgit Hcd. unfold do_setup.
  erewrite bindM_ok by (by apply git_run_ok). rewrite Hcd.
  destruct (path_exists fs1 hook_file); [reflexivity|].
  erewrite bindM_ok by apply emit_run.
  destruct (write_file fs1 hook_file COMMIT_MSG_HOOK) as [fs2|]; [|reflexivity].
  by destruct (chmod fs2 hook_file 493).
Qed.

End SetupFacts.

Lemma run_result {A B : Type} (run : A * B) (b : B) :
  run.2 = b → run = (run.1, b).
Proof. destruct run as [a b']. simpl. by intros ->. Qed.

Section MoreRuns.
Import Reference MoreReference.

(** The HTTPS address of the repository [o/r]. *)
Lemma get_slug_https_witness :
  (urlparse "https://github.com/o/r.git"
   = ("github.com", "/" +:+ "o" +:+ "/" +:+ "r.git" +:+ replicate_char 0 "/")
   ∧ "github.com" ≠ "" ∧ has_char "/" "o" = false
   ∧ "r.git" ≠ "" ∧ ends_with_char "/" "r.git" = false)
  ∧ ((∀ repo, "r.git" = repo +:+ ".git"
              → get_slug "https://github.com/o/r.git" = Some ("o", repo))
     ∧ (endswith "r.git" ".git" = false
        → get_slug "https://github.com/o/r.git" = Some ("o", "r.git"))).
Proof.
  assert (H1 : urlparse "https://github.com/o/r.git"
               = ("github.com", "/" +:+ "o" +:+ "/" +:+ "r.git" +:+ replicate_char 0 "/"))
    by reflexivity.
  assert (H2 : "github.com" ≠ "") by discriminate.
  assert (H3 : has_char "/" "o" = false) by reflexivity.
  assert (H4 : "r.git" ≠ "") by discriminate.
  assert (H5 : ends_with_char "/" "r.git" = false) by reflexivity.
  split; [repeat split; assumption|].
  exact (get_slug_https "https://github.com/o/r.git" "github.com" "o" "r.git" 0
           H1 H2 H3 H4 H5).
Defined.


(** The branch of the first change exists on the remote and is not in the
    index: its creation is refused with status 422. *)
Lemma refused_branch_stops_stack_witness :
  (400 ≤ status_code
           (answer after_first
              (branch_request (dev_prefix +:+ token_a) token_a "c2c2c2c2" ∅)))%Z
  ∧ ∃ w',
      stack_loop dev_prefix ∅
        [(token_a, "c2c2c2c2", "second", "Change-Id: " +:+ token_a); second_change]
        state_after_first after_first
      = (w', inl (if (status_code
                        (answer after_first
                           (branch_request (dev_prefix +:+ token_a) token_a
                              "c2c2c2c2" ∅)) <? 500)%Z
                  then SystemExit 1 else HTTPStatusError))
      ∧ requests w'
        = requests after_first
          ++ [branch_request (dev_prefix +:+ token_a) token_a "c2c2c2c2" ∅]
      ∧ remote w'
        = (send (remote after_first)
             (branch_request (dev_prefix +:+ token_a) token_a "c2c2c2c2" ∅)).1.
Proof.
  assert (H : (400 ≤ status_code
                 (answer after_first
                    (branch_request (dev_prefix +:+ token_a) token_a "c2c2c2c2" ∅)))%Z)
    by (vm_compute; discriminate).
  split; [exact H|].
  exact (refused_branch_stops_stack dev_prefix ∅ token_a "c2c2c2c2" "second"
           ("Change-Id: " +:+ token_a) [second_change] state_after_first
           after_first H).
Defined.



(** A third change above the two of an unpublished stack. *)
Lemma depends_on_previous_pull_witness :
  (stack_loop dev_prefix ∅ [first_change] (initial_state "main") empty_world
   = (after_first, inr state_after_first)
   ∧ create_or_update_stack (stacked_base_branch state_after_first)
       (dev_prefix +:+ token_b) token_b "c2c2c2c2" "second"
       (("Change-Id: " +:+ token_b) +:+ depends_on_of (pulls state_after_first))
       (draft state_after_first) ∅ after_first
     = (after_second, inr (a_pull "2" "second" "")))
  ∧ (([first_change] = []
      → ("Change-Id: " +:+ token_b) +:+ depends_on_of (pulls state_after_first)
        = "Change-Id: " +:+ token_b)
     ∧ stack_loop dev_prefix ∅
         ([first_change] ++ second_change :: (token_z, "c3c3c3c3", "third", "") :: [])
         (initial_state "main") empty_world
       = (pull2 ← create_or_update_stack (dev_prefix +:+ token_b)
                    (dev_prefix +:+ token_z) token_z "c3c3c3c3" "third"
                    ("" +:+ nl +:+ nl +:+ "Depends-On: #"
                       +:+ number (a_pull "2" "second" ""))
                    true ∅;
          stack_loop dev_prefix ∅ []
            {| stacked_base_branch := dev_prefix +:+ token_z; draft := true;
               pulls := (pulls state_after_first ++ [a_pull "2" "second" ""])
                          ++ [pull2] |}) after_second).
Proof.
  assert (H1 : stack_loop dev_prefix ∅ [first_change] (initial_state "main")
                 empty_world
               = (after_first, inr state_after_first))
    by reflexivity.
  assert (H2 : create_or_update_stack (stacked_base_branch state_after_first)
                 (dev_prefix +:+ token_b) token_b "c2c2c2c2" "second"
                 (("Change-Id: " +:+ token_b)
                    +:+ depends_on_of (pulls state_after_first))
                 (draft state_after_first) ∅ after_first
               = (after_second, inr (a_pull "2" "second" "")))
    by (unfold after_second; apply run_result; vm_compute; reflexivity).
  split; [by split|].
  exact (depends_on_previous_pull dev_prefix "main" ∅ [first_change] []
           token_b "c2c2c2c2" "second" ("Change-Id: " +:+ token_b)
           token_z "c3c3c3c3" "third" ""
           empty_world after_first after_second state_after_first
           (a_pull "2" "second" "") H1 H2).
Defined.


(** Two deletions on the remote that answers 500 to everything. *)
Lemma failed_deletions_do_not_stop_the_run_witness :
  (∀ s rq, method rq = DELETE →
           (status_code (send (Client := failing_remote) s rq).2 < 400
            ∨ 500 ≤ status_code (send (Client := failing_remote) s rq).2)%Z)
  ∧ ∃ w',
      for_each [token_a; token_b]
        (λ changeid, as_task (delete_stack dev_prefix changeid stale_index))
        failing_world
      = (w', inr tt)
      ∧ requests w'
        = requests failing_world
          ++ ((λ changeid, {| method := DELETE;
                              url := "git/refs/heads/" +:+ dev_prefix +:+ changeid;
                              payload := NoPayload |}) <$> [token_a; token_b]).
Proof.
  assert (H : ∀ s rq, method rq = DELETE →
                (status_code (send (Client := failing_remote) s rq).2 < 400
                 ∨ 500 ≤ status_code (send (Client := failing_remote) s rq).2)%Z).
  { intros s rq _. right. simpl. lia. }
  split; [exact H|].
  exact (failed_deletions_do_not_stop_the_run (http := failing_remote) dev_prefix
           stale_index [token_a; token_b] failing_world H).
Defined.

(** The comment of a stack of two pull requests. *)
Lemma comment_lists_the_stack_witness :
  Forall (λ pull, has_char "010" (comment_entry pull) = false) two_pulls
  ∧ str_split "010" (comment_body_of two_pulls)
    = "This pull request is part of a stack:" :: (comment_entry <$> two_pulls) ++ [""].
Proof.
  assert (H : Forall (λ pull, has_char "010" (comment_entry pull) = false) two_pulls).
  { unfold two_pulls. repeat constructor. }
  split; [exact H|].
  exact (comment_lists_the_stack two_pulls H).
Defined.

(** The reference of the first change on a remote without pull requests. *)
Lemma one_open_pull_or_none_witness :
  (status_code (answer empty_world (pulls_request "o" first_ref)) < 400)%Z
  ∧ get_changeid_and_pull "o" dev_prefix first_ref empty_world
    = (sent empty_world (pulls_request "o" first_ref),
       match filter (λ p, state p = "open")
               (json_pulls (answer empty_world (pulls_request "o" first_ref))) with
       | [] => inr (changeid_of_ref dev_prefix first_ref, None)
       | [pull] => inr (changeid_of_ref dev_prefix first_ref, Some pull)
       | _ :: _ :: _ =>
           inl (RuntimeError ("More than 1 pull found with this head: "
                                +:+ branch_of_ref first_ref))
       end).
Proof.
  assert (H : (status_code (answer empty_world (pulls_request "o" first_ref)) < 400)%Z)
    by reflexivity.
  split; [exact H|].
  exact (one_open_pull_or_none "o" dev_prefix first_ref empty_world H).
Defined.

(** Two results, awaited in the two orders. *)
Lemma index_does_not_depend_on_order_witness :
  (NoDup [(token_a, Some (a_pull "7" "first" "c1c1c1c1")); (token_b, None)].*1
   ∧ [(token_a, Some (a_pull "7" "first" "c1c1c1c1")); (token_b, None)]
     ≡ₚ [(token_b, None); (token_a, Some (a_pull "7" "first" "c1c1c1c1"))])
  ∧ (update_index ∅
       (inr <$> [(token_a, Some (a_pull "7" "first" "c1c1c1c1")); (token_b, None)])
       empty_world
     = update_index ∅
         (inr <$> [(token_b, None); (token_a, Some (a_pull "7" "first" "c1c1c1c1"))])
         empty_world
     ∧ (∃ index,
          update_index ∅
            (inr <$> [(token_a, Some (a_pull "7" "first" "c1c1c1c1")); (token_b, None)])
            empty_world
          = (empty_world, inr index)
          ∧ (∀ changeid pull,
               (changeid, pull)
               ∈ [(token_a, Some (a_pull "7" "first" "c1c1c1c1")); (token_b, None)]
               → index !! changeid = Some pull)
          ∧ (∀ changeid,
               changeid
               ∉ [(token_a, Some (a_pull "7" "first" "c1c1c1c1")); (token_b, None)].*1
               → index !! changeid = (∅ : KnownChangeIDs) !! changeid))
     ∧ ∀ exception rest,
         update_index ∅
           ((inr <$> [(token_a, Some (a_pull "7" "first" "c1c1c1c1")); (token_b, None)])
              ++ inl exception :: rest) empty_world
         = (empty_world, inl exception)).
Proof.
  assert (H1 : NoDup [(token_a, Some (a_pull "7" "first" "c1c1c1c1"));
                      (token_b, None)].*1).
  { apply NoDup_cons. split; [|apply NoDup_singleton].
    intros Hin. apply list_elem_of_singleton in Hin. discriminate Hin. }
  assert (H2 : [(token_a, Some (a_pull "7" "first" "c1c1c1c1")); (token_b, None)]
               ≡ₚ [(token_b, None); (token_a, Some (a_pull "7" "first" "c1c1c1c1"))])
    by apply perm_swap.
  split; [by split|].
  exact (index_does_not_depend_on_order ∅ _ _ empty_world H1 H2).
Defined.

(** The index of a remote that lists the branch of the first change and
    has no pull request. *)
Lemma index_has_the_listed_references_witness :
  retrieve_index "o" dev_prefix empty_world
  = ((retrieve_index "o" dev_prefix empty_world).1, inr branch_only_index)
  ∧ (dom branch_only_index
     = list_to_set
         (changeid_of_ref dev_prefix
            <$> json_refs (answer empty_world (refs_request dev_prefix)))
     ∧ requests (retrieve_index "o" dev_prefix empty_world).1
       = requests empty_world
         ++ refs_request dev_prefix
            :: (pulls_request "o"
                  <$> json_refs (answer empty_world (refs_request dev_prefix)))
     ∧ Forall (λ rq, is_mutation rq = false)
         (refs_request dev_prefix
            :: (pulls_request "o"
                  <$> json_refs (answer empty_world (refs_request dev_prefix))))).
Proof.
  assert (H : retrieve_index "o" dev_prefix empty_world
              = ((retrieve_index "o" dev_prefix empty_world).1,
                 inr branch_only_index))
    by reflexivity.
  split; [exact H|].
  exact (index_has_the_listed_references "o" dev_prefix empty_world _ _ H).
Defined.

(** The branch [dev] without a fork point with [origin/main]. *)
Lemma main_stops_before_any_request_witness :
  ((get_slug (remote_url_now (vcs := no_fork_point)) = None
    ∨ fork_point_now (vcs := no_fork_point) = "")
   ∧ main (vcs := no_fork_point) "token" false empty_world
     = ((main (vcs := no_fork_point) "token" false empty_world).1,
        inl (SystemExit 1)))
  ∧ (requests (main (vcs := no_fork_point) "token" false empty_world).1
     = requests empty_world
     ∧ remote (main (vcs := no_fork_point) "token" false empty_world).1
       = remote empty_world
     ∧ (inl (SystemExit 1) = inl (B := Uncaught + unit) (SystemExit 1)
        ∨ ∃ msg, inl (SystemExit 1) = inr (inl (B := unit) (ValueError msg)))).
Proof.
  assert (H1 : get_slug (remote_url_now (vcs := no_fork_point)) = None
               ∨ fork_point_now (vcs := no_fork_point) = "")
    by (right; reflexivity).
  assert (H2 : main (vcs := no_fork_point) "token" false empty_world
               = ((main (vcs := no_fork_point) "token" false empty_world).1,
                  inl (SystemExit 1)))
    by reflexivity.
  split; [by split|].
  exact (main_stops_before_any_request (vcs := no_fork_point) "token" false
           empty_world _ _ H1 H2).
Defined.

(** A run on the repository [dev_repository] against a remote that lists
    the branch of the first change. *)
Lemma normal_run_always_writes_witness :
  main (vcs := dev_repository) "token" false empty_world
  = ((main (vcs := dev_repository) "token" false empty_world).1, inr (inr tt))
  ∧ ∃ reads rq rest,
      requests (main (vcs := dev_repository) "token" false empty_world).1
      = requests empty_world ++ reads ++ rq :: rest
      ∧ Forall (λ r, is_mutation r = false) reads
      ∧ is_mutation rq = true.
Proof.
  assert (H : main (vcs := dev_repository) "token" false empty_world
              = ((main (vcs := dev_repository) "token" false empty_world).1,
                 inr (inr tt)))
    by (apply run_result; vm_compute; reflexivity).
  split; [exact H|].
  exact (normal_run_always_writes (vcs := dev_repository) "token" empty_world _ H).
Defined.

(** The hook of the program is installed already: the second setup ends
    with the [ValueError]. *)
Lemma do_setup_outcomes_witness :
  (git_ok (vcs := dev_repository) "rev-parse --show-toplevel"
   ∧ chdir disk_with_hook
       (strip (git_output (vcs := dev_repository) "rev-parse --show-toplevel"))
     = Some at_top_level)
  ∧ do_setup (vcs := dev_repository) "#!/bin/sh" disk_with_hook empty_world
    = (empty_world, inr (inl (ValueError "invalid mode: 'f'"))).
Proof.
  assert (H1 : git_ok (vcs := dev_repository) "rev-parse --show-toplevel")
    by reflexivity.
  assert (H2 : chdir disk_with_hook
                 (strip (git_output (vcs := dev_repository)
                           "rev-parse --show-toplevel"))
               = Some at_top_level)
    by reflexivity.
  split; [by split|].
  exact (do_setup_outcomes (vcs := dev_repository) "#!/bin/sh" disk_with_hook
           at_top_level empty_world H1 H2).
Defined.

End MoreRuns.

(** ** The plan on the console of [rich] *)

Section RichFacts.
Context {http : Client} {vcs : Git} {rich : Markup}.

Lemma bindR_ok {A B} (m : M (Uncaught + A)) (k : A → M (Uncaught + B))
    (w w1 : World) (a : A) :
  m w = (w1, inr (inr a)) → bindR m k w = k a w1.
Proof. intros H. unfold bindR, bindM. by rewrite H. Qed.

Lemma bindR_exit {A B} (m : M (Uncaught + A)) (k : A → M (Uncaught + B))
    (w w1 : World) (e : Abort) :
  m w = (w1, inl e) → bindR m k w = (w1, inl e).
Proof. intros H. unfold bindR, bindM. by rewrite H. Qed.

Lemma bindR_raise {A B} (m : M (Uncaught + A)) (k : A → M (Uncaught + B))
    (w w1 : World) (u : Uncaught) :
  m w = (w1, inr (inl u)) → bindR m k w = (w1, inr (inl u)).
Proof. intros H. unfold bindR, bindM. by rewrite H. Qed.

Lemma write_ok (o : Output) (w : World) :
  accepted o → write o w = (add_console w [o], inr (inr tt)).
Proof. unfold accepted, write. by intros ->. Qed.

Lemma write_refused (o : Output) (w : World) :
  markup_ok (text_of o) = false
  → write o w = (w, inr (inl (MarkupError (text_of o)))).
Proof. unfold write. by intros ->. Qed.

Lemma rich_git_ok (args : string) (w : World) :
  git_ok args → Rich.git args w = (w, inr (inr (git_output args))).
Proof.
  unfold Rich.git, git_ok, git_output.
  destruct (git_proc ("git " +:+ args)) as [rc out]. simpl.
  intros ->. reflexivity.
Qed.

Lemma rich_git_failed (args : string) (w : World) :
  ¬ git_ok args →
  Rich.git args w
  = if markup_ok ("fail to run `git " +:+ args +:+ "`:") then
      if markup_ok (git_proc ("git " +:+ args)).2 then
        (add_console w [Log ("fail to run `git " +:+ args +:+ "`:") "red";
                        Log (git_proc ("git " +:+ args)).2 "red"],
         inl (SystemExit 1))
      else
        (add_console w [Log ("fail to run `git " +:+ args +:+ "`:") "red"],
         inr (inl (MarkupError (git_proc ("git " +:+ args)).2)))
    else (w, inr (inl (MarkupError ("fail to run `git " +:+ args +:+ "`:")))).
Proof.
  unfold Rich.git, git_ok.
  destruct (git_proc ("git " +:+ args)) as [rc out]. simpl. intros Hrc.
  destruct (rc =? 0)%Z eqn:Heq; [by apply Z.eqb_eq in Heq|]. simpl.
  destruct (markup_ok ("fail to run `git " +:+ args +:+ "`:")) eqn:H1.
  - erewrite bindR_ok by (by apply write_ok).
    destruct (markup_ok out) eqn:H2.
    + erewrite bindR_ok by (by apply write_ok).
      by rewrite add_console_app.
    + erewrite bindR_raise by (by apply write_refused). reflexivity.
  - erewrite bindR_raise by (by apply write_refused). reflexivity.
Qed.

(** A [git] that fails stops the run, without a request. *)
Lemma rich_git_stops (args : string) (w : World) :
  ¬ git_ok args →
  ∃ w' res,
    Rich.git args w = (w', res)
    ∧ requests w' = requests w ∧ remote w' = remote w
    ∧ (res = inl (SystemExit 1)
       ∨ ∃ text, res = inr (inl (MarkupError text)) ∧ markup_ok text = false).
Proof.
  intros Hko. rewrite (rich_git_failed _ _ Hko).
  destruct (markup_ok ("fail to run `git " +:+ args +:+ "`:")) eqn:H1;
    [destruct (markup_ok (git_proc ("git " +:+ args)).2) eqn:H2|];
    eexists _, _; (split; [reflexivity|]); (split; [done|]); (split; [done|]);
    eauto.
Qed.

Lemma rich_loop_cons (commit : string) (commits : list string)
    (known : KnownChangeIDs) (acc : list Change) :
  Rich.get_local_changes_loop (commit :: commits) known acc
  = (message ⇐ Rich.git (body_command commit);
     title ⇐ Rich.git (title_command commit);
     changeid ⇐ Rich.extract_changeid commit message;
     _ ⇐ write (plan_line known (changeid, commit, title, message));
     Rich.get_local_changes_loop commits known
       (acc ++ [(changeid, commit, title, message)])).
Proof. reflexivity. Qed.

(** The loop of [get_local_changes] on the console of [rich]: it returns
    when every commit can be planned, and stops at the first that cannot. *)
Lemma rich_loop_result (known : KnownChangeIDs) (commits : list string)
    (acc : list Change) (w : World) :
  ∃ w' res,
    Rich.get_local_changes_loop commits known acc w = (w', res)
    ∧ requests w' = requests w ∧ remote w' = remote w
    ∧ ((Forall (plannable known) commits
        ∧ w' = add_console w (plan_line known <$> (local_change <$> commits))
        ∧ res = inr (inr (acc ++ (local_change <$> commits))))
       ∨ (¬ Forall (plannable known) commits
          ∧ ((res = inl (SystemExit 1) ∧ ¬ Forall readable commits)
             ∨ ∃ text, res = inr (inl (MarkupError text))
                       ∧ markup_ok text = false))).
Proof.
  revert acc w. induction commits as [|commit commits IH]; intros acc w.
  { exists w, (inr (inr acc)). split; [reflexivity|]. split; [done|].
    split; [done|]. left. split; [constructor|].
    split; [by rewrite add_console_nil | by rewrite app_nil_r]. }
  rewrite rich_loop_cons.
  destruct (Z.eq_dec (git_proc ("git " +:+ body_command commit)).1 0%Z) as [Hb|Hb].
  2: { destruct (rich_git_stops (body_command commit) w Hb)
         as (w' & res & Hrun & Hreq & Hrem & Hres).
       assert (Hnr : ¬ readable commit) by (intros (? & _); by apply Hb).
       destruct Hres as [->|(text & -> & Htext)].
       - exists w', (inl (SystemExit 1)).
         split; [by erewrite bindR_exit|]. split; [done|]. split; [done|].
         right. split.
         + intros Hall. inversion Hall as [|? ? [? _] _]. by apply Hnr.
         + left. split; [done|]. intros Hall. inversion Hall. by apply Hnr.
       - exists w', (inr (inl (MarkupError text))).
         split; [by erewrite bindR_raise|]. split; [done|]. split; [done|].
         right. split.
         + intros Hall. inversion Hall as [|? ? [? _] _]. by apply Hnr.
         + right. eauto. }
  erewrite bindR_ok by (by apply rich_git_ok).
  destruct (Z.eq_dec (git_proc ("git " +:+ title_command commit)).1 0%Z) as [Ht|Ht].
  2: { destruct (rich_git_stops (title_command commit) w Ht)
         as (w' & res & Hrun & Hreq & Hrem & Hres).
       assert (Hnr : ¬ readable commit) by (intros (_ & ? & _); by apply Ht).
       destruct Hres as [->|(text & -> & Htext)].
       - exists w', (inl (SystemExit 1)).
         split; [by erewrite bindR_exit|]. split; [done|]. split; [done|].
         right. split.
         + intros Hall. inversion Hall as [|? ? [? _] _]. by apply Hnr.
         + left. split; [done|]. intros Hall. inversion Hall. by apply Hnr.
       - exists w', (inr (inl (MarkupError text))).
         split; [by erewrite bindR_raise|]. split; [done|]. split; [done|].
         right. split.
         + intros Hall. inversion Hall as [|? ? [? _] _]. by apply Hnr.
         + right. eauto. }
  erewrite bindR_ok by (by apply rich_git_ok).
  fold (commit_body commit) (commit_title commit).
  unfold Rich.extract_changeid.
  destruct (CHANGEID_RE_findall (commit_body commit)) as [|tok toks] eqn:Hfind.
  { assert (Hnr : ¬ readable commit) by (intros (_ & _ & Hne); by apply Hne).
    destruct (markup_ok ("`Change-Id:` line is missing on commit " +:+ commit))
      eqn:Hline.
    - eexists _, _. split.
      { erewrite bindR_exit; [reflexivity|].
        erewrite bindR_ok by (by apply write_ok). reflexivity. }
      split; [done|]. split; [done|]. right. split.
      + intros Hall. inversion Hall as [|? ? [? _] _]. by apply Hnr.
      + left. split; [done|]. intros Hall. inversion Hall. by apply Hnr.
    - eexists _, _. split.
      { erewrite bindR_raise; [reflexivity|].
        erewrite bindR_raise by (by apply write_refused). reflexivity. }
      split; [done|]. split; [done|]. right. split.
      + intros Hall. inversion Hall as [|? ? [? _] _]. by apply Hnr.
      + right. eauto. }
  assert (Hread : readable commit).
  { split; [exact Hb|]. split; [exact Ht|]. by rewrite Hfind. }
  erewrite bindR_ok by reflexivity.
  assert (Hchange : (List.last (tok :: toks) "", commit, commit_title commit,
                     commit_body commit) = local_change commit).
  { unfold local_change. by rewrite Hfind. }
  rewrite Hchange.
  destruct (markup_ok (text_of (plan_line known (local_change commit)))) eqn:Hline.
  - erewrite bindR_ok by (by apply write_ok).
    destruct (IH (acc ++ [local_change commit])
                (add_console w [plan_line known (local_change commit)]))
      as (w' & res & Hrun & Hreq & Hrem & Hres).
    exists w', res. split; [exact Hrun|]. split; [done|]. split; [done|].
    destruct Hres as [(Hall & -> & ->)|(Hnot & Hres)].
    + left. split; [by constructor|].
      split; [by rewrite add_console_app|].
      by rewrite <- app_assoc.
    + right. split; [intros Hall; apply Hnot; by inversion Hall|].
      destruct Hres as [(-> & Hnr)|Hm]; [|by right].
      left. split; [done|]. intros Hall. apply Hnr. by inversion Hall.
  - eexists _, _. split.
    { erewrite bindR_raise by (by apply write_refused). reflexivity. }
    split; [done|]. split; [done|]. right. split.
    + intros Hall. inversion Hall as [|? ? [_ Hacc] _].
      unfold accepted in Hacc. congruence.
    + right. eauto.
Qed.

Lemma rich_for_each_result {A} (line : A → Output) (l : list A) (w : World) :
  ∃ w' res,
    Rich.for_each l (λ x, write (line x)) w = (w', res)
    ∧ requests w' = requests w ∧ remote w' = remote w
    ∧ ((Forall (λ x, accepted (line x)) l
        ∧ w' = add_console w (line <$> l) ∧ res = inr (inr tt))
       ∨ (¬ Forall (λ x, accepted (line x)) l
          ∧ ∃ text, res = inr (inl (MarkupError text)) ∧ markup_ok text = false)).
Proof.
  revert w. induction l as [|x l IH]; intros w.
  { exists w, (inr (inr tt)). split; [reflexivity|]. split; [done|].
    split; [done|]. left. split; [constructor|]. by rewrite add_console_nil. }
  change (Rich.for_each (x :: l) (λ x, write (line x)))
    with (_ ⇐ write (line x); Rich.for_each l (λ x, write (line x))).
  destruct (markup_ok (text_of (line x))) eqn:Hline.
  - erewrite bindR_ok by (by apply write_ok).
    destruct (IH (add_console w [line x])) as (w' & res & Hrun & Hreq & Hrem & Hres).
    exists w', res. split; [exact Hrun|]. split; [done|]. split; [done|].
    destruct Hres as [(Hall & -> & ->)|(Hnot & Hres)].
    + left. split; [by constructor|]. by rewrite add_console_app.
    + right. split; [|exact Hres]. intros Hall. apply Hnot. by inversion Hall.
  - eexists _, _. split.
    { erewrite bindR_raise by (by apply write_refused). reflexivity. }
    split; [done|]. split; [done|]. right. split; [|eauto].
    intros Hall. inversion Hall as [|? ? Hacc _]. unfold accepted in Hacc.
    congruence.
Qed.

Lemma plannable_split (known : KnownChangeIDs) (commits : list string) :
  Forall (plannable known) commits
  ↔ Forall readable commits
    ∧ Forall accepted (plan_line known <$> (local_change <$> commits)).
Proof.
  induction commits as [|commit commits IH]; simpl.
  { split; [intros _; split; constructor | intros _; constructor]. }
  rewrite !Forall_cons_iff, IH. unfold plannable. tauto.
Qed.

Lemma plan_console_accepted (known : KnownChangeIDs) (commits : list string) :
  Forall accepted (plan_console known commits)
  ↔ accepted (Status "Preparing stacked branches...")
    ∧ accepted (Log "Stacked pull request plan:" "green")
    ∧ Forall accepted (plan_line known <$> (local_change <$> commits))
    ∧ Forall (λ changeid, accepted (delete_line known changeid))
        (planned_deletions known commits).
Proof.
  unfold plan_console. rewrite Forall_app, !Forall_cons_iff, Forall_app.
  rewrite (Forall_fmap (delete_line known)).
  split.
  - intros ((H1 & H2 & _) & H3 & H4). done.
  - intros (H1 & H2 & H3 & H4). by repeat split.
Qed.

(** Lines 394-403 of [main] on the console of [rich]. *)
Lemma rich_prepare_result (dry_run : bool) (commits : list string)
    (known : KnownChangeIDs) (w : World) :
  ∃ w' res,
    Rich.prepare dry_run commits known w = (w', res)
    ∧ requests w' = requests w ∧ remote w' = remote w
    ∧ ((Forall readable commits ∧ Forall accepted (plan_console known commits)
        ∧ ((dry_run = false
            ∧ w' = add_console w (plan_console known commits)
            ∧ res = inr (inr (local_change <$> commits,
                              dom known
                                ∖ list_to_set (change_id <$> (local_change <$> commits)))))
           ∨ (dry_run = true ∧ accepted dry_run_finished
              ∧ w' = add_console w (plan_console known commits ++ [dry_run_finished])
              ∧ res = inl (SystemExit 0))
           ∨ (dry_run = true ∧ ¬ accepted dry_run_finished
              ∧ res = inr (inl (MarkupError (text_of dry_run_finished))))))
       ∨ (¬ (Forall readable commits ∧ Forall accepted (plan_console known commits))
          ∧ ((res = inl (SystemExit 1) ∧ ¬ Forall readable commits)
             ∨ ∃ text, res = inr (inl (MarkupError text))
                       ∧ markup_ok text = false))).
Proof.
  unfold Rich.prepare.
  destruct (markup_ok (text_of (Status "Preparing stacked branches..."))) eqn:H1.
  2: { eexists _, _. split.
       { erewrite bindR_raise by (by apply write_refused). reflexivity. }
       split; [done|]. split; [done|]. right. split; [|right; eauto].
       rewrite plan_console_accepted. intros (_ & Hacc & _).
       unfold accepted in Hacc. congruence. }
  erewrite bindR_ok by (by apply write_ok).
  destruct (markup_ok (text_of (Log "Stacked pull request plan:" "green"))) eqn:H2.
  2: { eexists _, _. split.
       { erewrite bindR_raise by (by apply write_refused). reflexivity. }
       split; [done|]. split; [done|]. right. split; [|right; eauto].
       rewrite plan_console_accepted. intros (_ & _ & Hacc & _).
       unfold accepted in Hacc. congruence. }
  erewrite bindR_ok by (by apply write_ok).
  rewrite add_console_app.
  unfold Rich.get_local_changes.
  destruct (rich_loop_result known commits []
              (add_console w ([Status "Preparing stacked branches..."]
                                ++ [Log "Stacked pull request plan:" "green"])))
    as (w1 & res1 & Hrun & Hreq & Hrem & Hres).
  destruct Hres as [(Hall & -> & ->)|(Hnot & Hres)].
  2: { assert (Hno : ¬ (Forall readable commits
                        ∧ Forall accepted (plan_console known commits))).
       { rewrite plan_console_accepted. intros (Hr & _ & _ & Hl & _).
         apply Hnot, plannable_split. by split. }
       destruct Hres as [(-> & Hnr)|(text & -> & Htext)].
       - exists w1, (inl (SystemExit 1)).
         split; [by erewrite bindR_exit|]. split; [done|]. split; [done|].
         right. split; [exact Hno|]. by left.
       - exists w1, (inr (inl (MarkupError text))).
         split; [by erewrite bindR_raise|]. split; [done|]. split; [done|].
         right. split; [exact Hno|]. right. eauto. }
  erewrite bindR_ok by exact Hrun.
  apply plannable_split in Hall as [Hread Hlines].
  unfold Rich.get_changeids_to_delete. rewrite app_nil_l, add_console_app.
  destruct (rich_for_each_result (delete_line known)
              (elements (dom known
                           ∖ (list_to_set (change_id <$> (local_change <$> commits))
                                : gset ChangeId)))
              (add_console w
                 (([Status "Preparing stacked branches..."]
                     ++ [Log "Stacked pull request plan:" "green"])
                    ++ (plan_line known <$> (local_change <$> commits)))))
    as (w2 & res2 & Hrun2 & Hreq2 & Hrem2 & Hres2).
  fold (planned_deletions known commits) in Hrun2, Hres2.
  destruct Hres2 as [(Hdel & -> & ->)|(Hnot & text & -> & Htext)].
  2: { eexists _, _. split.
       { erewrite bindR_raise; [reflexivity|].
         erewrite bindR_raise by exact Hrun2. reflexivity. }
       split; [done|]. split; [done|]. right. split; [|right; eauto].
       rewrite plan_console_accepted. intros (_ & _ & _ & _ & Hd). by apply Hnot. }
  assert (Hconsole : Forall accepted (plan_console known commits)).
  { apply plan_console_accepted. done. }
  erewrite bindR_ok; cycle 1.
  { erewrite bindR_ok by exact Hrun2. reflexivity. }
  rewrite add_console_app.
  assert (Hlist : (([Status "Preparing stacked branches..."]
                      ++ [Log "Stacked pull request plan:" "green"])
                     ++ (plan_line known <$> (local_change <$> commits)))
                    ++ (delete_line known <$> planned_deletions known commits)
                  = plan_console known commits).
  { unfold plan_console. by rewrite <- !app_assoc. }
  rewrite Hlist. destruct dry_run.
  - destruct (markup_ok (text_of dry_run_finished)) eqn:Hfin.
    + eexists _, _. split.
      { unfold dry_run_finished in Hfin.
        erewrite bindR_ok by (by apply write_ok). reflexivity. }
      split; [done|]. split; [done|]. left. split; [done|]. split; [done|].
      right. left. split; [done|]. split; [done|].
      split; [by rewrite add_console_app | done].
    + eexists _, _. split.
      { unfold dry_run_finished in Hfin.
        erewrite bindR_raise by (by apply write_refused). reflexivity. }
      split; [done|]. split; [done|]. left. split; [done|]. split; [done|].
      right. right. split; [done|]. split; [|done].
      unfold accepted. congruence.
  - eexists _, _. split; [reflexivity|].
    split; [done|]. split; [done|]. left. split; [done|]. split; [done|].
    left. done.
Qed.

End RichFacts.

Section RichProperties.
Context {http : Client} {vcs : Git} {rich : Markup}.

(** C5, as amended. The code has no check for identifiers that occur twice.
    Whenever [git] answers for every commit with ASCII text, every body
    carries a trailer and the console reads every line of the plan, whether
    or not two commits carry the same identifier, [get_local_changes]
    returns one change per commit, in the order of the commits, having made
    no request; and a run that is not dry leaves the plan with all these
    changes for the builder. *)
Theorem duplicates_not_detected (commits : list string) (known : KnownChangeIDs)
    (w : World) :
  Forall ascii_commit commits →
  Forall readable commits →
  Forall accepted (plan_console known commits) →
  Rich.get_local_changes commits known w
  = (add_console w (plan_line known <$> (local_change <$> commits)),
     inr (inr (local_change <$> commits)))
  ∧ change_commit <$> (local_change <$> commits) = commits
  ∧ (∀ i commit, commits !! i = Some commit
                 → (local_change <$> commits) !! i = Some (local_change commit))
  ∧ Rich.prepare false commits known w
    = (add_console w (plan_console known commits),
       inr (inr (local_change <$> commits,
                 dom known ∖ list_to_set (change_id <$> (local_change <$> commits))))).
Proof.
  intros _ Hread Hlines.
  pose proof Hlines as Hplan. apply plan_console_accepted in Hplan as (_ & _ & Hplan & _).
  split; [|split; [|split]].
  - unfold Rich.get_local_changes.
    destruct (rich_loop_result known commits [] w)
      as (w' & res & -> & _ & _ & [(_ & -> & ->)|(Hnot & _)]); [done|].
    exfalso. apply Hnot, plannable_split. by split.
  - clear. induction commits as [|c l IH]; [done|].
    rewrite !fmap_cons, IH. reflexivity.
  - intros i commit Hi. by rewrite list_lookup_fmap, Hi.
  - destruct (rich_prepare_result false commits known w)
      as (w' & res & -> & _ & _ & [(_ & _ & Hres)|(Hnot & _)]).
    + destruct Hres as [(_ & -> & ->)|[(? & _)|(? & _)]]; done.
    + exfalso. by apply Hnot.
Qed.

(** X5. [git] sends no request. For a command whose output is ASCII text:
    when it returns 0, nothing is written and the result is the output
    without the white space around it (the output is white space, then the
    result, then white space, and the result neither starts nor ends with
    white space); otherwise [git] logs the command and the output in red
    and exits with status 1, or ends with the [MarkupError] of the first of
    the two lines that the console cannot read. *)
Theorem git_output_is_stripped (args : string) (w w' : World)
    (res : Abort + (Uncaught + string)) :
  is_ascii (git_proc ("git " +:+ args)).2 = true →
  Rich.git args w = (w', res) →
  requests w' = requests w
  ∧ (((git_proc ("git " +:+ args)).1 = 0%Z
      ∧ console w' = console w
      ∧ ∃ out before after,
          res = inr (inr out)
          ∧ (git_proc ("git " +:+ args)).2 = before +:+ out +:+ after
          ∧ all_space before = true ∧ all_space after = true
          ∧ starts_with_space out = false ∧ ends_with_space out = false)
     ∨ ((git_proc ("git " +:+ args)).1 ≠ 0%Z
        ∧ markup_ok ("fail to run `git " +:+ args +:+ "`:") = true
        ∧ markup_ok (git_proc ("git " +:+ args)).2 = true
        ∧ res = inl (SystemExit 1)
        ∧ console w' = console w
            ++ [Log ("fail to run `git " +:+ args +:+ "`:") "red";
                Log (git_proc ("git " +:+ args)).2 "red"])
     ∨ ((git_proc ("git " +:+ args)).1 ≠ 0%Z
        ∧ ((markup_ok ("fail to run `git " +:+ args +:+ "`:") = false
            ∧ res = inr (inl (MarkupError ("fail to run `git " +:+ args +:+ "`:")))
            ∧ console w' = console w)
           ∨ (markup_ok ("fail to run `git " +:+ args +:+ "`:") = true
              ∧ markup_ok (git_proc ("git " +:+ args)).2 = false
              ∧ res = inr (inl (MarkupError (git_proc ("git " +:+ args)).2))
              ∧ console w' = console w
                  ++ [Log ("fail to run `git " +:+ args +:+ "`:") "red"])))).
Proof.
  intros _ H.
  destruct (Z.eq_dec (git_proc ("git " +:+ args)).1 0%Z) as [Hok|Hko].
  - rewrite rich_git_ok in H by exact Hok. injection H as <- <-.
    split; [done|]. left. split; [exact Hok|]. split; [done|].
    unfold git_output, strip.
    destruct (lstrip_spec (git_proc ("git " +:+ args)).2)
      as (before & Hs & Hbefore & Hfirst).
    destruct (rstrip_spec (lstrip (git_proc ("git " +:+ args)).2))
      as (after & Hr & Hafter & Hlast).
    eexists _, before, after. split; [reflexivity|].
    split; [by rewrite <- Hr|]. repeat split; try done.
    by apply rstrip_keeps_start.
  - rewrite rich_git_failed in H by exact Hko.
    destruct (markup_ok ("fail to run `git " +:+ args +:+ "`:")) eqn:H1;
      [destruct (markup_ok (git_proc ("git " +:+ args)).2) eqn:H2|];
      injection H as <- <-; (split; [done|]).
    + right. left. done.
    + right. right. split; [done|]. right. done.
    + right. right. split; [done|]. left. done.
Qed.

(** X6. On the console of [rich], and for commits that [git] answers with
    ASCII text, [get_local_changes] returns exactly when every commit can be
    planned: [git] answers both commands, the body carries a trailer and
    the console reads the plan line. It then returns the changes of the
    commits, in the order of the commits. An exit has status 1 and means
    that some commit could not be read; the only exception is the
    [MarkupError] of a line that the console cannot read. In no case is a
    request made. *)
Theorem get_local_changes_returns_or_exits (commits : list string)
    (known : KnownChangeIDs) (w w' : World)
    (res : Abort + (Uncaught + list Change)) :
  Forall ascii_commit commits →
  Rich.get_local_changes commits known w = (w', res) →
  requests w' = requests w
  ∧ ((∃ changes, res = inr (inr changes)) ↔ Forall (plannable known) commits)
  ∧ (∀ changes, res = inr (inr changes) →
       changes = local_change <$> commits
       ∧ change_commit <$> changes = commits
       ∧ w' = add_console w (plan_line known <$> changes))
  ∧ (∀ e, res = inl e → e = SystemExit 1 ∧ ¬ Forall readable commits)
  ∧ (∀ u, res = inr (inl u) → ∃ text, u = MarkupError text ∧ markup_ok text = false).
Proof.
  intros _ H. unfold Rich.get_local_changes in H.
  destruct (rich_loop_result known commits [] w)
    as (w1 & res1 & Hrun & Hreq & Hrem & Hres).
  rewrite Hrun in H. injection H as <- <-.
  split; [done|].
  destruct Hres as [(Hall & -> & ->)|(Hnot & Hres)].
  - split; [split; [done | by eauto]|]. split; [|split]; [|done..].
    intros changes [= <-]. split; [done|]. split; [|done].
    clear. induction commits as [|c l IH]; [done|].
    rewrite !fmap_cons, IH. reflexivity.
  - destruct Hres as [(-> & Hnr)|(text & -> & Htext)].
    + split; [split; [by intros [? ?] | done]|]. split; [done|].
      split; [|done]. by intros e [= <-].
    + split; [split; [by intros [? ?] | done]|]. split; [done|].
      split; [done|]. intros u [= <-]. eauto.
Qed.

(** X19. On the console of [rich], and for commits that [git] answers with
    ASCII text, the plan of a dry run makes no request and never returns.
    It exits with status 0 exactly when every commit could be read and the
    console read every line of the plan and the last line; an exit with
    another status has status 1 and means that some commit could not be
    read; the only exception is the [MarkupError] of a line that the
    console cannot read. *)
Theorem dry_run_only_plans (commits : list string) (known : KnownChangeIDs)
    (w w' : World) (res : Abort + (Uncaught + (list Change * gset ChangeId))) :
  Forall ascii_commit commits →
  Rich.prepare true commits known w = (w', res) →
  requests w' = requests w
  ∧ (∀ plan, res ≠ inr (inr plan))
  ∧ (res = inl (SystemExit 0)
     ↔ Forall readable commits
       ∧ Forall accepted (plan_console known commits)
       ∧ accepted dry_run_finished)
  ∧ (res = inl (SystemExit 0) →
     console w' = console w ++ plan_console known commits ++ [dry_run_finished])
  ∧ (∀ e, res = inl e →
       e = SystemExit 0 ∨ (e = SystemExit 1 ∧ ¬ Forall readable commits))
  ∧ (∀ u, res = inr (inl u) → ∃ text, u = MarkupError text ∧ markup_ok text = false).
Proof.
  intros _ H.
  destruct (rich_prepare_result true commits known w)
    as (w1 & res1 & Hrun & Hreq & _ & Hres).
  rewrite Hrun in H. injection H as <- <-. split; [done|].
  destruct Hres as [(Hread & Hlines & Hres)|(Hnot & Hres)].
  - destruct Hres as [(? & _)|[(_ & Hfin & -> & ->)|(_ & Hfin & ->)]];
      [done| |].
    + split; [done|]. split; [by split|]. split; [done|].
      split; [intros e [= <-]; by left | done].
    + split; [done|]. split; [split; [done | by intros (_ & _ & ?)]|].
      split; [done|]. split; [done|]. intros u [= <-].
      eexists. split; [reflexivity|]. by apply not_true_is_false.
  - destruct Hres as [(-> & Hnr)|(text & -> & Htext)].
    + split; [done|]. split; [split; [done | by intros (? & _)]|].
      split; [done|]. split; [|done]. intros e [= <-]. by right.
    + split; [done|].
      split; [split; [done | intros (? & ? & _); exfalso; by apply Hnot]|].
      split; [done|]. split; [done|]. intros u [= <-]. eauto.
Qed.

(** With a console that reads every line, the plan on the console of
    [rich] is the plan of [get_local_changes] above. *)
Lemma rich_plan_refines (commits : list string) (known : KnownChangeIDs)
    (w : World) :
  (∀ text, markup_ok text = true) →
  Rich.get_local_changes commits known w
  = lift (get_local_changes commits known) w.
Proof.
  intros Hall. unfold lift.
  destruct (get_local_changes commits known w) as [w1 res] eqn:Hbase.
  destruct (get_local_changes_outcome _ _ _ _ _ Hbase)
    as (_ & _ & [(Hread & ->)|(Hnr & ->)]).
  - rewrite (local_changes_readable _ _ _ Hread) in Hbase.
    injection Hbase as <-.
    unfold Rich.get_local_changes.
    destruct (rich_loop_result known commits [] w)
      as (w' & res & -> & _ & _ & [(_ & -> & ->)|(Hnot & _)]).
    + unfold bindM. by rewrite local_changes_readable.
    + exfalso. apply Hnot, plannable_split. split; [done|].
      apply Forall_forall. intros o _. apply Hall.
  - unfold bindM. rewrite Hbase. clear Hnr.
    revert Hbase. unfold Rich.get_local_changes, get_local_changes.
    generalize (@nil Change). revert w.
    induction commits as [|commit commits IH]; intros w acc Hbase;
      [discriminate|].
    rewrite rich_loop_cons. simpl in Hbase.
    destruct (Z.eq_dec (git_proc ("git " +:+ body_command commit)).1 0%Z) as [Hb|Hb].
    2: { rewrite (bindR_exit _ _ w w1 (SystemExit 1)); [done|].
         rewrite rich_git_failed by exact Hb. rewrite !Hall.
         apply bindM_inv in Hbase as [(e & Hg & _)|(m & w2 & Hg & _)].
         - apply git_result in Hg as [(Hok & _)|(_ & _ & ->)]; [by destruct Hb|].
           done.
         - by apply git_run_inv in Hg as (Hok & _). }
    erewrite bindR_ok by (by apply rich_git_ok).
    erewrite bindM_ok in Hbase by (by apply git_run_ok).
    destruct (Z.eq_dec (git_proc ("git " +:+ title_command commit)).1 0%Z) as [Ht|Ht].
    2: { rewrite (bindR_exit _ _ w w1 (SystemExit 1)); [done|].
         rewrite rich_git_failed by exact Ht. rewrite !Hall.
         apply bindM_inv in Hbase as [(e & Hg & _)|(m & w2 & Hg & _)].
         - apply git_result in Hg as [(Hok & _)|(_ & _ & ->)]; [by destruct Ht|].
           done.
         - by apply git_run_inv in Hg as (Hok & _). }
    erewrite bindR_ok by (by apply rich_git_ok).
    erewrite bindM_ok in Hbase by (by apply git_run_ok).
    unfold Rich.extract_changeid. unfold extract_changeid in Hbase.
    destruct (CHANGEID_RE_findall (git_output (body_command commit)))
      as [|tok toks] eqn:Hfind.
    + rewrite (bindR_exit _ _ w w1 (SystemExit 1)); [done|].
      erewrite bindR_ok by (apply write_ok, Hall).
      erewrite bindM_abort in Hbase; cycle 1.
      { erewrite bindM_ok by apply emit_run. reflexivity. }
      by injection Hbase as <-.
    + erewrite bindR_ok by reflexivity.
      erewrite bindM_ok in Hbase by reflexivity.
      erewrite bindR_ok by (apply write_ok, Hall).
      erewrite bindM_ok in Hbase by apply emit_run.
      apply IH. exact Hbase.
Qed.

End RichProperties.

Section RichRuns.
Import Reference MoreReference RichReference.

(** The two commits with one identifier, on the console that counts the
    tags. *)
Lemma duplicates_not_detected_witness :
  (Forall (ascii_commit (vcs := two_commits_one_id)) both_commits
   ∧ Forall (readable (vcs := two_commits_one_id)) both_commits
   ∧ Forall accepted (plan_console (vcs := two_commits_one_id) ∅ both_commits))
  ∧ (Rich.get_local_changes (vcs := two_commits_one_id) both_commits ∅ empty_world
     = (add_console empty_world
          (plan_line ∅ <$> (local_change (vcs := two_commits_one_id) <$> both_commits)),
        inr (inr (local_change (vcs := two_commits_one_id) <$> both_commits)))
     ∧ change_commit <$> (local_change (vcs := two_commits_one_id) <$> both_commits)
       = both_commits
     ∧ (∀ i commit,
          both_commits !! i = Some commit
          → (local_change (vcs := two_commits_one_id) <$> both_commits) !! i
            = Some (local_change (vcs := two_commits_one_id) commit))
     ∧ Rich.prepare (vcs := two_commits_one_id) false both_commits ∅ empty_world
       = (add_console empty_world
            (plan_console (vcs := two_commits_one_id) ∅ both_commits),
          inr (inr (local_change (vcs := two_commits_one_id) <$> both_commits,
                    dom (∅ : KnownChangeIDs)
                      ∖ list_to_set
                          (change_id
                             <$> (local_change (vcs := two_commits_one_id)
                                    <$> both_commits)))))).
Proof.
  assert (H1 : Forall (ascii_commit (vcs := two_commits_one_id)) both_commits).
  { unfold both_commits. repeat constructor. }
  assert (H2 : Forall (readable (vcs := two_commits_one_id)) both_commits).
  { unfold both_commits.
    repeat (constructor;
              [split; [reflexivity|]; split; [reflexivity|];
               intros Hnil; vm_compute in Hnil; discriminate Hnil|]).
    constructor. }
  assert (H3 : Forall accepted
                 (plan_console (vcs := two_commits_one_id) ∅ both_commits)).
  { vm_compute. repeat constructor. }
  split; [by repeat split|].
  exact (duplicates_not_detected (vcs := two_commits_one_id) both_commits ∅
           empty_world H1 H2 H3).
Defined.

(** [git] asked for the branch that is checked out. *)
Lemma git_output_is_stripped_witness :
  (is_ascii (git_proc (Git := dev_repository)
               ("git " +:+ "rev-parse --abbrev-ref HEAD")).2 = true
   ∧ Rich.git (vcs := dev_repository) "rev-parse --abbrev-ref HEAD" empty_world
     = (empty_world, inr (inr "dev")))
  ∧ requests empty_world = requests empty_world
  ∧ (((git_proc (Git := dev_repository)
         ("git " +:+ "rev-parse --abbrev-ref HEAD")).1 = 0%Z
      ∧ console empty_world = console empty_world
      ∧ ∃ out before after,
          inr (inr "dev") = inr (A := Abort) (inr (A := Uncaught) out)
          ∧ (git_proc (Git := dev_repository)
               ("git " +:+ "rev-parse --abbrev-ref HEAD")).2
            = before +:+ out +:+ after
          ∧ all_space before = true ∧ all_space after = true
          ∧ starts_with_space out = false ∧ ends_with_space out = false)
     ∨ ((git_proc (Git := dev_repository)
           ("git " +:+ "rev-parse --abbrev-ref HEAD")).1 ≠ 0%Z
        ∧ markup_ok ("fail to run `git " +:+ "rev-parse --abbrev-ref HEAD" +:+ "`:")
          = true
        ∧ markup_ok (git_proc (Git := dev_repository)
                       ("git " +:+ "rev-parse --abbrev-ref HEAD")).2 = true
        ∧ inr (inr (A := Uncaught) "dev") = inl (SystemExit 1)
        ∧ console empty_world
          = console empty_world
            ++ [Log ("fail to run `git " +:+ "rev-parse --abbrev-ref HEAD" +:+ "`:")
                  "red";
                Log (git_proc (Git := dev_repository)
                       ("git " +:+ "rev-parse --abbrev-ref HEAD")).2 "red"])
     ∨ ((git_proc (Git := dev_repository)
           ("git " +:+ "rev-parse --abbrev-ref HEAD")).1 ≠ 0%Z
        ∧ ((markup_ok ("fail to run `git " +:+ "rev-parse --abbrev-ref HEAD" +:+ "`:")
            = false
            ∧ inr (inr "dev")
              = inr (A := Abort)
                  (inl (MarkupError
                          ("fail to run `git " +:+ "rev-parse --abbrev-ref HEAD"
                             +:+ "`:")))
            ∧ console empty_world = console empty_world)
           ∨ (markup_ok
                ("fail to run `git " +:+ "rev-parse --abbrev-ref HEAD" +:+ "`:")
              = true
              ∧ markup_ok (git_proc (Git := dev_repository)
                             ("git " +:+ "rev-parse --abbrev-ref HEAD")).2 = false
              ∧ inr (inr "dev")
                = inr (A := Abort)
                    (inl (MarkupError
                            (git_proc (Git := dev_repository)
                               ("git " +:+ "rev-parse --abbrev-ref HEAD")).2))
              ∧ console empty_world
                = console empty_world
                  ++ [Log ("fail to run `git " +:+ "rev-parse --abbrev-ref HEAD"
                             +:+ "`:") "red"])))).
Proof.
  assert (H1 : is_ascii (git_proc (Git := dev_repository)
                           ("git " +:+ "rev-parse --abbrev-ref HEAD")).2 = true)
    by reflexivity.
  assert (H2 : Rich.git (vcs := dev_repository) "rev-parse --abbrev-ref HEAD"
                 empty_world
               = (empty_world, inr (inr "dev")))
    by reflexivity.
  split; [by split|].
  exact (git_output_is_stripped (vcs := dev_repository) _ _ _ _ H1 H2).
Defined.

(** The plan of the two commits against the index that has both. *)
Lemma get_local_changes_returns_or_exits_witness :
  (Forall (ascii_commit (vcs := two_commits)) both_commits
   ∧ Rich.get_local_changes (vcs := two_commits) both_commits published_index
       empty_world
     = (add_console empty_world
          (plan_line published_index <$> [second_change; first_change]),
        inr (inr [second_change; first_change])))
  ∧ requests (add_console empty_world
                (plan_line published_index <$> [second_change; first_change]))
    = requests empty_world
  ∧ ((∃ changes,
        inr (inr [second_change; first_change])
        = inr (A := Abort) (inr (A := Uncaught) changes))
     ↔ Forall (plannable (vcs := two_commits) published_index) both_commits)
  ∧ (∀ changes,
       inr (inr [second_change; first_change])
       = inr (A := Abort) (inr (A := Uncaught) changes) →
       changes = local_change (vcs := two_commits) <$> both_commits
       ∧ change_commit <$> changes = both_commits
       ∧ add_console empty_world
           (plan_line published_index <$> [second_change; first_change])
         = add_console empty_world (plan_line published_index <$> changes))
  ∧ (∀ e, inr (inr (A := Uncaught) [second_change; first_change]) = inl e →
          e = SystemExit 1 ∧ ¬ Forall (readable (vcs := two_commits)) both_commits)
  ∧ (∀ u, inr (inr [second_change; first_change]) = inr (A := Abort) (inl u) →
          ∃ text, u = MarkupError text ∧ markup_ok text = false).
Proof.
  assert (H1 : Forall (ascii_commit (vcs := two_commits)) both_commits).
  { unfold both_commits. repeat constructor. }
  assert (H2 : Rich.get_local_changes (vcs := two_commits) both_commits
                 published_index empty_world
               = (add_console empty_world
                    (plan_line published_index <$> [second_change; first_change]),
                  inr (inr [second_change; first_change])))
    by reflexivity.
  split; [by split|].
  exact (get_local_changes_returns_or_exits (vcs := two_commits) both_commits
           published_index empty_world _ _ H1 H2).
Defined.

(** The dry run of the two commits against the index with a branch to
    delete. *)
Lemma dry_run_only_plans_witness :
  (Forall (ascii_commit (vcs := two_commits)) both_commits
   ∧ Rich.prepare (vcs := two_commits) true both_commits stale_index empty_world
     = ((Rich.prepare (vcs := two_commits) true both_commits stale_index
           empty_world).1,
        inl (SystemExit 0)))
  ∧ requests (Rich.prepare (vcs := two_commits) true both_commits stale_index
                empty_world).1
    = requests empty_world
  ∧ (∀ plan, inl (SystemExit 0)
             ≠ inr (A := Abort)
                 (inr (A := Uncaught) (plan : list Change * gset ChangeId)))
  ∧ (inl (SystemExit 0)
     = inl (B := Uncaught + (list Change * gset ChangeId)) (SystemExit 0)
     ↔ Forall (readable (vcs := two_commits)) both_commits
       ∧ Forall accepted (plan_console (vcs := two_commits) stale_index both_commits)
       ∧ accepted dry_run_finished)
  ∧ (inl (SystemExit 0)
     = inl (B := Uncaught + (list Change * gset ChangeId)) (SystemExit 0) →
     console (Rich.prepare (vcs := two_commits) true both_commits stale_index
                empty_world).1
     = console empty_world
       ++ plan_console (vcs := two_commits) stale_index both_commits
       ++ [dry_run_finished])
  ∧ (∀ e, inl (SystemExit 0)
          = inl (B := Uncaught + (list Change * gset ChangeId)) e →
          e = SystemExit 0
          ∨ (e = SystemExit 1 ∧ ¬ Forall (readable (vcs := two_commits)) both_commits))
  ∧ (∀ u, inl (SystemExit 0)
          = inr (B := Uncaught + (list Change * gset ChangeId)) (inl u) →
          ∃ text, u = MarkupError text ∧ markup_ok text = false).
Proof.
  assert (H1 : Forall (ascii_commit (vcs := two_commits)) both_commits).
  { unfold both_commits. repeat constructor. }
  assert (H2 : Rich.prepare (vcs := two_commits) true both_commits stale_index
                 empty_world
               = ((Rich.prepare (vcs := two_commits) true both_commits
                     stale_index empty_world).1,
                  inl (SystemExit 0)))
    by (apply run_result; vm_compute; reflexivity).
  split; [by split|].
  exact (dry_run_only_plans (vcs := two_commits) both_commits stale_index
           empty_world _ _ H1 H2).
Defined.

(** A commit that [git] reads, with a closing tag in its subject: the
    console of [rich] cannot read its plan line, and [get_local_changes]
    ends with the [MarkupError], where it returns on a console that takes
    every line. *)
Example closing_tag_in_subject :
  readable (vcs := tag_in_subject) "c4c4c4c4"
  ∧ Rich.get_local_changes (vcs := tag_in_subject) ["c4c4c4c4"] ∅ empty_world
    = (empty_world,
       inr (inl (MarkupError
                   ("* [yellow]\[to create][/] '[red]4c4c4c4[/] - [b]fix [/] bug[/]  - "
                      +:+ token_a))))
  ∧ get_local_changes (vcs := tag_in_subject) ["c4c4c4c4"] ∅ empty_world
    = (add_console empty_world
         [Log ("* [yellow]\[to create][/] '[red]4c4c4c4[/] - [b]fix [/] bug[/]  - "
                 +:+ token_a) ""],
       inr [(token_a, "c4c4c4c4", "fix [/] bug", "Change-Id: " +:+ token_a)]).
Proof.
  split; [|split; reflexivity].
  split; [reflexivity|]. split; [reflexivity|].
  intros Hnil. vm_compute in Hnil. discriminate Hnil.
Qed.

End RichRuns.
